(** * OMCPH: the MCP client host and its HTTP/WebSocket bridge

  A shallow embedding of the parts of the repository that the
  specification's testable properties talk about.  The model comes
  first:

  - [Errors]    : src/lib/errors.ts      ([McpHostError] and its
                                          constructor)
  - [UriUtils]  : src/lib/uri-utils.ts   (server suggestion)
  - [Core]      : src/lib/core.ts        (capability aggregation, the
                                          simplified sampling handler)
  - [Api]       : src/lib/api.ts         (setRoots / getCurrentRoots)
  - [ApiServer] : the API server         (sessions, SSE event queue,
                                          sampling broker, JSON-RPC POST)
  - [NameResolvers] : uri-utils.ts, api.ts  (suggestions by name)
  - [Requests]  : core.ts, api.ts        (requests forwarded to a
                                          server)
  - [Connecting] : src/lib/core.ts       (configured servers, one
                                          connection attempt)
  - [Gateway]   : the API server         (configuration, API keys, the
                                          router's calls on the host)
  - [Broadcasts] : the API server        (host events sent to the
                                          WebSockets)

  and the properties follow: [UriUtilsFacts], [HostFacts],
  [EndpointFacts], [BrokerRuns], [ServerInvariants], [BrokerFacts],
  [AggregationFacts], [FurtherFacts], [SuggestionFacts],
  [RoutingFacts], [RequestFacts], [ConfigFacts], [SessionFacts],
  [BatchFacts], [RefreshFacts], [DisconnectFacts],
  [SubscriptionFacts].

  JavaScript [Map]s are insertion ordered, so they are association
  lists here; objects that closures keep alive after they left a
  [Map] live in an explicit object store. *)

From Stdlib Require Import List String Ascii ZArith QArith Bool Lia Arith.
From Stdlib Require Import Sorting.Sorted.
Import ListNotations.

Set Warnings "-register-all".

Close Scope Q_scope.
Local Open Scope string_scope.
Local Open Scope list_scope.

(* ================================================================== *)
(** * JavaScript values                                                 *)
(* ================================================================== *)

Module Js.

(** What [JSON.parse] (plus [undefined]) can produce.  Numbers are
    integers: the code below only looks at the type tag of a number
    and at whether it is zero. *)
Inductive value : Type :=
| Undefined
| Null
| Bool (b : bool)
| Num (n : Z)
| Str (s : string)
| Arr (items : list value)
| Obj (props : list (string * value)).

(** [typeof v] *)
Definition typeof (v : value) : string :=
  match v with
  | Undefined => "undefined"
  | Null => "object"
  | Bool _ => "boolean"
  | Num _ => "number"
  | Str _ => "string"
  | Arr _ => "object"
  | Obj _ => "object"
  end.

(** Truthiness, as used by [!x], [x && y], [x || y], [if (x)]. *)
Definition truthy (v : value) : bool :=
  match v with
  | Undefined | Null => false
  | Bool b => b
  | Num n => negb (n =? 0)%Z
  | Str s => negb (s =? "")%string
  | Arr _ | Obj _ => true
  end.

Definition isArray (v : value) : bool :=
  match v with Arr _ => true | _ => false end.

Definition isUndefined (v : value) : bool :=
  match v with Undefined => true | _ => false end.

Definition isNull (v : value) : bool :=
  match v with Null => true | _ => false end.

Definition isString (v : value) : bool :=
  match v with Str _ => true | _ => false end.

Definition isNumber (v : value) : bool :=
  match v with Num _ => true | _ => false end.

Fixpoint assoc (k : string) (props : list (string * value)) : value :=
  match props with
  | [] => Undefined
  | (k', v) :: rest => if (k =? k')%string then v else assoc k rest
  end.

(** Property read [v.k] and optional chaining [v?.k] on a value that
    is not [null]/[undefined]; on those two, [v?.k] is [undefined].
    A parsed JSON array has no named property the code asks for. *)
Definition get (v : value) (k : string) : value :=
  match v with
  | Obj props => assoc k props
  | _ => Undefined
  end.

End Js.

(* ================================================================== *)
(** * String helpers                                                    *)
(* ================================================================== *)

Module Str.

(** [s.split(sep)[0]] for a one-character separator. *)
Fixpoint beforeFirst (sep : ascii) (s : string) : string :=
  match s with
  | EmptyString => EmptyString
  | String c rest =>
      if Ascii.eqb c sep then EmptyString
      else String c (beforeFirst sep rest)
  end.

(** [s.split(sep)] for a one-character separator, never empty. *)
Fixpoint split (sep : ascii) (s : string) : list string :=
  match s with
  | EmptyString => [EmptyString]
  | String c rest =>
      if Ascii.eqb c sep then EmptyString :: split sep rest
      else match split sep rest with
           | [] => [String c EmptyString]
           | p :: ps => String c p :: ps
           end
  end.

Fixpoint contains (c : ascii) (s : string) : bool :=
  match s with
  | EmptyString => false
  | String c' rest => Ascii.eqb c' c || contains c rest
  end.

End Str.

(* ================================================================== *)
(** * JavaScript [Map]                                                  *)
(* ================================================================== *)

Module JsMap.

(** Keys are compared with [===]; for the strings and object
    identities used here that is decidable equality. *)
Class Key (K : Type) := {
  eqb : K -> K -> bool;
  eqb_spec : forall a b, reflect (a = b) (eqb a b)
}.

#[global] Instance string_key : Key string :=
  {| eqb := String.eqb; eqb_spec := String.eqb_spec |}.

#[global] Instance nat_key : Key nat :=
  {| eqb := Nat.eqb; eqb_spec := Nat.eqb_spec |}.

(** A [Map<K, V>]: keys in insertion order, no key twice. *)
Definition t (K V : Type) : Type := list (K * V).

Definition empty {K V : Type} : t K V := [].

Fixpoint get {K V : Type} `{Key K} (k : K) (m : t K V) : option V :=
  match m with
  | [] => None
  | (k', v) :: rest => if eqb k k' then Some v else get k rest
  end.

Definition has {K V : Type} `{Key K} (k : K) (m : t K V) : bool :=
  match get k m with Some _ => true | None => false end.

(** [m.set(k, v)]: an existing key keeps its place and takes the new
    value; a new key goes last. *)
Fixpoint set {K V : Type} `{Key K} (k : K) (v : V) (m : t K V) : t K V :=
  match m with
  | [] => [(k, v)]
  | (k', v') :: rest =>
      if eqb k k' then (k, v) :: rest
      else (k', v') :: set k v rest
  end.

(** [m.delete(k)] *)
Definition delete {K V : Type} `{Key K} (k : K) (m : t K V) : t K V :=
  filter (fun kv => negb (eqb k (fst kv))) m.

Definition keys {K V : Type} (m : t K V) : list K := map fst m.

Definition values {K V : Type} (m : t K V) : list V := map snd m.

Definition entries {K V : Type} (m : t K V) : list (K * V) := m.

End JsMap.

(* ================================================================== *)
(** * src/lib/types.ts and the SDK's error class                        *)
(* ================================================================== *)

Module Types.

(** The records a server lists.  Every record carries the field the
    host keys it by; [rest] holds the remaining properties
    (description, inputSchema, annotations, mimeType, size, ...),
    which the host copies and never inspects. *)
Record Tool := { tool_name : string; tool_rest : Js.value }.

Record Resource := {
  resource_uri : string;
  resource_name : string;
  resource_rest : Js.value
}.

Record ResourceTemplate := {
  template_id : string;
  template_name : string;
  template_uriTemplate : string;
  template_rest : Js.value
}.

Record Prompt := { prompt_name : string; prompt_rest : Js.value }.

(** The aggregated types of src/lib/types.ts ([AggregatedTool],
    [AggregatedResource], [AggregatedResourceTemplate],
    [AggregatedPrompt]), each the server's record with the [serverId]
    added, as core.ts builds it with [{ ...item, serverId }]. *)
Record Aggregated (T : Type) := {
  serverId : string;
  item : T
}.
Arguments serverId {T} _.
Arguments item {T} _.

Definition AggregatedTool := Aggregated Tool.
Definition AggregatedResource := Aggregated Resource.
Definition AggregatedResourceTemplate := Aggregated ResourceTemplate.
Definition AggregatedPrompt := Aggregated Prompt.

(** [McpError] of the MCP SDK, as the arguments of its constructor. *)
Record McpError := {
  code : Z;
  message : string;
  data : Js.value
}.

(** [ErrorCode] of the MCP SDK (JSON-RPC error numbers). *)
Module ErrorCode.
Definition RequestTimeout : Z := -32001.
Definition InvalidRequest : Z := -32600.
Definition MethodNotFound : Z := -32601.
Definition InvalidParams : Z := -32602.
Definition InternalError : Z := -32603.
End ErrorCode.

(** What a JavaScript [catch] clause can receive. *)
Inductive Thrown :=
| ThrownMcpError (e : McpError)
| ThrownError (msg : string)
| ThrownOther (v : Js.value).

(** [ErrorCodes] of src/lib/errors.ts, the kinds of a host error. *)
Inductive ErrorCodes :=
| ROOTS_UPDATE_FAILED
| SERVER_NOT_FOUND
| INVALID_TRANSPORT
| CONNECTION_FAILED
| SUBSCRIPTION_FAILED
| TOOL_CALL_FAILED
| RESOURCE_READ_FAILED
| PROMPT_GET_FAILED.

(** [McpHostError] of src/lib/errors.ts: the [message], [code],
    [serverId] and [cause] of an instance, as its constructor leaves
    them ([Errors.newMcpHostError]). *)
Record McpHostError := {
  he_message : string;
  he_code : ErrorCodes;
  he_serverId : option string;
  he_cause : option Thrown
}.

End Types.

(* ================================================================== *)
(** * src/lib/errors.ts                                                 *)
(* ================================================================== *)

Module Errors.
Import Types.

(** [s.includes(sub)] *)
Fixpoint includes (sub s : string) : bool :=
  String.prefix sub s
  || match s with
     | EmptyString => false
     | String _ rest => includes sub rest
     end.

Section Sdk.

(** The [message] property that the SDK's constructor of [McpError]
    gives an error. *)
Variable mcpMessage : McpError -> string.

(** [e.message] of a caught [Error]. *)
Definition errorMessage (e : Thrown) : option string :=
  match e with
  | ThrownMcpError m => Some (mcpMessage m)
  | ThrownError msg => Some msg
  | ThrownOther _ => None
  end.

(** The constructor of [McpHostError].  A cause is an [Error]; when
    its message is not part of [message] already, the message is
    extended by it. *)
Definition newMcpHostError (message : string) (code : ErrorCodes)
           (serverId : option string) (cause : option Thrown)
  : McpHostError :=
  {| he_message :=
       match cause with
       | Some c =>
           match errorMessage c with
           | Some m =>
               if includes m message then message
               else (message ++ " (Cause: " ++ m ++ ")")%string
           | None => message
           end
       | None => message
       end;
     he_code := code;
     he_serverId := serverId;
     he_cause := cause |}.

End Sdk.

End Errors.

(* ================================================================== *)
(** * src/lib/uri-utils.ts                                              *)
(* ================================================================== *)

Module UriUtils.
Import Types.

Inductive MatchType := exact | template | scheme | name.

Record ServerSuggestion := {
  serverId : string;
  confidence : Q;
  matchType : MatchType
}.

(** [results.sort((a, b) => b.confidence - a.confidence)]:
    [Array.prototype.sort] is stable, so this is a stable sort by
    descending confidence. *)
Definition before (a b : ServerSuggestion) : bool :=
  Qle_bool (confidence b) (confidence a).

Fixpoint insertByConfidence (x : ServerSuggestion)
         (l : list ServerSuggestion) : list ServerSuggestion :=
  match l with
  | [] => [x]
  | y :: rest =>
      if before y x then y :: insertByConfidence x rest
      else x :: y :: rest
  end.

Definition sortByConfidence (l : list ServerSuggestion)
  : list ServerSuggestion :=
  fold_left (fun acc x => insertByConfidence x acc) l [].

(** [template.replace(/\{[^}]+\}/g, ".*")].  [pending = Some buf]
    means an opening brace has been read, followed by the characters
    [buf], none of which closes it. *)
Fixpoint replacePlaceholders (s : string) (pending : option string)
  : string :=
  match s, pending with
  | EmptyString, None => EmptyString
  | EmptyString, Some buf => String "{" buf
  | String c rest, None =>
      if Ascii.eqb c "{" then replacePlaceholders rest (Some EmptyString)
      else String c (replacePlaceholders rest None)
  | String c rest, Some buf =>
      if Ascii.eqb c "}" then
        match buf with
        | EmptyString => String "{" (String "}" (replacePlaceholders rest None))
        | _ => String "." (String "*" (replacePlaceholders rest None))
        end
      else replacePlaceholders rest (Some (buf ++ String c EmptyString)%string)
  end.

Definition uriSchemeOf (uri : string) : string :=
  (Str.beforeFirst ":" uri ++ ":")%string.

Definition exactSuggestion (r : AggregatedResource) : ServerSuggestion :=
  {| serverId := Types.serverId r; matchType := exact; confidence := 1%Q |}.

Definition templateSuggestion (t : AggregatedResourceTemplate)
  : ServerSuggestion :=
  {| serverId := Types.serverId t; matchType := template;
     confidence := (8 # 10)%Q |}.

Definition schemeSuggestion (sid : string) : ServerSuggestion :=
  {| serverId := sid; matchType := scheme; confidence := (1 # 2)%Q |}.

(** [Set.prototype.add] on an insertion-ordered set. *)
Definition setAdd (x : string) (l : list string) : list string :=
  if existsb (String.eqb x) l then l else l ++ [x].

(** The entry of [serversByScheme] for one scheme. *)
Definition serversWithScheme (sch : string)
           (resources : list AggregatedResource) : list string :=
  fold_left
    (fun acc r =>
       if (uriSchemeOf (resource_uri (item r)) =? sch)%string
       then setAdd (Types.serverId r) acc else acc)
    resources [].

Section Resolver.

(** The JavaScript regular-expression engine:
    [regexTest p s = Some b] when [new RegExp(p)] is accepted and
    [.test(s)] answers [b]; [None] when the constructor throws a
    [SyntaxError]. *)
Variable regexTest : string -> string -> option bool.

Definition canMatchTemplate (uri tpl : string) : option bool :=
  regexTest ("^" ++ replacePlaceholders tpl None ++ "$")%string uri.

(** The template loop; [None] when [canMatchTemplate] throws. *)
Fixpoint templateMatches (uri : string)
         (templates : list AggregatedResourceTemplate)
  : option (list ServerSuggestion) :=
  match templates with
  | [] => Some []
  | t :: rest =>
      if (template_uriTemplate (item t) =? "")%string then templateMatches uri rest
      else
        match canMatchTemplate uri (template_uriTemplate (item t)) with
        | None => None
        | Some hit =>
            match templateMatches uri rest with
            | None => None
            | Some l =>
                Some (if hit then templateSuggestion t :: l else l)
            end
        end
  end.

Definition exactMatches (uri : string)
           (resources : list AggregatedResource)
  : list ServerSuggestion :=
  map exactSuggestion
      (filter (fun r => (resource_uri (item r) =? uri)%string) resources).

(** [None] stands for an exception leaving the function. *)
Definition resolveResourceServer (uri : string)
           (resources : list AggregatedResource)
           (templates : list AggregatedResourceTemplate)
  : option (list ServerSuggestion) :=
  let uriScheme := uriSchemeOf uri in
  let results := exactMatches uri resources in
  if (0 <? List.length results)%nat then Some (sortByConfidence results)
  else
    match templateMatches uri templates with
    | None => None
    | Some results =>
        let results :=
          if (List.length results =? 0)%nat
          then map schemeSuggestion (serversWithScheme uriScheme resources)
          else results in
        Some (sortByConfidence results)
    end.

End Resolver.

(** What [new RegExp(p)] rejects in every engine: a quantifier needs
    an atom before it.  In a pattern with no backslash and no
    character class neither of two adjacent [*] is an atom, so the
    constructor throws a [SyntaxError] (nothing to repeat). *)
Definition nothingToRepeat (p : string) : bool :=
  negb (Str.contains "\" p) && negb (Str.contains "[" p)
  && Errors.includes "**" p.

(** A regular-expression engine that answers as [engine], except
    that it throws on the patterns above. *)
Definition regExp (engine : string -> string -> option bool)
           (p s : string) : option bool :=
  if nothingToRepeat p then None else engine p s.

End UriUtils.

(* ================================================================== *)
(** * src/lib/core.ts                                                   *)
(* ================================================================== *)

Module Core.
Import Types.

(** [ServerCapabilities] of src/lib/types.ts, reduced to what the
    host branches on: [tools], [resources], [resources.templates],
    [prompts] and [roots.listChanged], each as the truthiness the code
    tests. *)
Record ServerCapabilities := {
  cap_tools : bool;
  cap_resources : bool;
  cap_resources_templates : bool;
  cap_prompts : bool;
  cap_roots_listChanged : bool
}.

(** An SDK [Client] as the host observes it: what each of its calls
    answers.  [None] for a list call is a rejected promise. *)
Record Client := {
  getServerCapabilities : option ServerCapabilities;
  listTools : option (list Tool);
  listResources : option (list Resource);
  listResourceTemplates : option (list ResourceTemplate);
  listPrompts : option (list Prompt);
  sendRootsListChanged : option Thrown
}.

Record Host := {
  clients : JsMap.t string Client;
  aggregatedTools : JsMap.t string AggregatedTool;
  aggregatedResources : JsMap.t string AggregatedResource;
  aggregatedResourceTemplates : JsMap.t string AggregatedResourceTemplate;
  aggregatedPrompts : JsMap.t string AggregatedPrompt;
  currentRoots : list Js.value;
  serverCapabilities : JsMap.t string ServerCapabilities
}.

(** The host right after its constructor ran. *)
Definition newHost : Host :=
  {| clients := JsMap.empty;
     aggregatedTools := JsMap.empty;
     aggregatedResources := JsMap.empty;
     aggregatedResourceTemplates := JsMap.empty;
     aggregatedPrompts := JsMap.empty;
     currentRoots := [];
     serverCapabilities := JsMap.empty |}.

(** The template literal [`${serverId}/${x}`]. *)
Definition keyOf (serverId x : string) : string :=
  (serverId ++ "/" ++ x)%string.

(** The body shared by [addTools], [addResources],
    [addResourceTemplates] and [addPrompts]: a [forEach] of
    [map.set(key, { ...item, serverId })]. *)
Definition addAll {T : Type} (field : T -> string) (serverId : string)
           (items : list T) (m : JsMap.t string (Aggregated T))
  : JsMap.t string (Aggregated T) :=
  fold_left
    (fun acc it =>
       JsMap.set (keyOf serverId (field it))
                 {| Types.serverId := serverId; item := it |} acc)
    items m.

Definition addTools (serverId : string) (tools : list Tool) (h : Host)
  : Host :=
  {| clients := clients h;
     aggregatedTools := addAll tool_name serverId tools (aggregatedTools h);
     aggregatedResources := aggregatedResources h;
     aggregatedResourceTemplates := aggregatedResourceTemplates h;
     aggregatedPrompts := aggregatedPrompts h;
     currentRoots := currentRoots h;
     serverCapabilities := serverCapabilities h |}.

Definition addResources (serverId : string) (resources : list Resource)
           (h : Host) : Host :=
  {| clients := clients h;
     aggregatedTools := aggregatedTools h;
     aggregatedResources :=
       addAll resource_uri serverId resources (aggregatedResources h);
     aggregatedResourceTemplates := aggregatedResourceTemplates h;
     aggregatedPrompts := aggregatedPrompts h;
     currentRoots := currentRoots h;
     serverCapabilities := serverCapabilities h |}.

Definition addResourceTemplates (serverId : string)
           (templates : list ResourceTemplate) (h : Host) : Host :=
  {| clients := clients h;
     aggregatedTools := aggregatedTools h;
     aggregatedResources := aggregatedResources h;
     aggregatedResourceTemplates :=
       addAll template_id serverId templates (aggregatedResourceTemplates h);
     aggregatedPrompts := aggregatedPrompts h;
     currentRoots := currentRoots h;
     serverCapabilities := serverCapabilities h |}.

Definition addPrompts (serverId : string) (prompts : list Prompt) (h : Host)
  : Host :=
  {| clients := clients h;
     aggregatedTools := aggregatedTools h;
     aggregatedResources := aggregatedResources h;
     aggregatedResourceTemplates := aggregatedResourceTemplates h;
     aggregatedPrompts := addAll prompt_name serverId prompts (aggregatedPrompts h);
     currentRoots := currentRoots h;
     serverCapabilities := serverCapabilities h |}.

(** [keysToDelete(map).forEach(key => map.delete(key))]: every entry
    whose value carries [serverId] goes.  Keys are unique in a [Map],
    so deleting the selected keys is dropping the selected entries. *)
Definition keysToDelete {T : Type} (serverId : string)
           (m : JsMap.t string (Aggregated T)) : list string :=
  map fst
      (filter (fun kv => (Types.serverId (snd kv) =? serverId)%string)
              (JsMap.entries m)).

Definition deleteKeys {V : Type} (ks : list string) (m : JsMap.t string V)
  : JsMap.t string V :=
  fold_left (fun acc k => JsMap.delete k acc) ks m.

Definition removeFrom {T : Type} (serverId : string)
           (m : JsMap.t string (Aggregated T)) : JsMap.t string (Aggregated T) :=
  deleteKeys (keysToDelete serverId m) m.

Definition removeServerCapabilities (serverId : string) (h : Host) : Host :=
  {| clients := clients h;
     aggregatedTools := removeFrom serverId (aggregatedTools h);
     aggregatedResources := removeFrom serverId (aggregatedResources h);
     aggregatedResourceTemplates :=
       removeFrom serverId (aggregatedResourceTemplates h);
     aggregatedPrompts := removeFrom serverId (aggregatedPrompts h);
     currentRoots := currentRoots h;
     serverCapabilities := JsMap.delete serverId (serverCapabilities h) |}.

Definition setServerCapabilities (serverId : string)
           (c : ServerCapabilities) (h : Host) : Host :=
  {| clients := clients h;
     aggregatedTools := aggregatedTools h;
     aggregatedResources := aggregatedResources h;
     aggregatedResourceTemplates := aggregatedResourceTemplates h;
     aggregatedPrompts := aggregatedPrompts h;
     currentRoots := currentRoots h;
     serverCapabilities := JsMap.set serverId c (serverCapabilities h) |}.

Definition setClients (cs : JsMap.t string Client) (h : Host) : Host :=
  {| clients := cs;
     aggregatedTools := aggregatedTools h;
     aggregatedResources := aggregatedResources h;
     aggregatedResourceTemplates := aggregatedResourceTemplates h;
     aggregatedPrompts := aggregatedPrompts h;
     currentRoots := currentRoots h;
     serverCapabilities := serverCapabilities h |}.

(** One guarded list call of [updateServerCapabilities]:
    [client.listX().then(r => this.addX(serverId, r)).catch(log)]. *)
Definition whenListed {T : Type} (enabled : bool) (listing : option (list T))
           (add : list T -> Host -> Host) (h : Host) : Host :=
  if enabled then
    match listing with
    | Some items => add items h
    | None => h
    end
  else h.

(** The four list calls settle independently and write four different
    maps, so the order in which they settle does not show. *)
Definition updateServerCapabilities (serverId : string) (client : Client)
           (h : Host) : Host :=
  let h := removeServerCapabilities serverId h in
  match getServerCapabilities client with
  | None => h
  | Some capabilities =>
      let h := setServerCapabilities serverId capabilities h in
      let h := whenListed (cap_tools capabilities) (listTools client)
                          (addTools serverId) h in
      let h := whenListed (cap_resources capabilities) (listResources client)
                          (addResources serverId) h in
      let h := whenListed (cap_resources capabilities
                           && cap_resources_templates capabilities)
                          (listResourceTemplates client)
                          (addResourceTemplates serverId) h in
      whenListed (cap_prompts capabilities) (listPrompts client)
                 (addPrompts serverId) h
  end.

(** [connectToServer] once [client.connect(transport)] has resolved:
    the client enters [clients] and its capabilities are fetched.
    (The roots notification sent in between changes nothing in the
    host.) *)
Definition connectToServer (serverId : string) (client : Client) (h : Host)
  : Host :=
  updateServerCapabilities serverId client
    (setClients (JsMap.set serverId client (clients h)) h).

Definition handleServerDisconnection (serverId : string) (h : Host) : Host :=
  match JsMap.get serverId (clients h) with
  | Some _ =>
      removeServerCapabilities serverId
        (setClients (JsMap.delete serverId (clients h)) h)
  | None => h
  end.

(** Accessors of the public API (src/lib/api.ts). *)
Definition getTools (h : Host) : list AggregatedTool :=
  JsMap.values (aggregatedTools h).
Definition getResources (h : Host) : list AggregatedResource :=
  JsMap.values (aggregatedResources h).
Definition getResourceTemplates (h : Host) : list AggregatedResourceTemplate :=
  JsMap.values (aggregatedResourceTemplates h).
Definition getPrompts (h : Host) : list AggregatedPrompt :=
  JsMap.values (aggregatedPrompts h).

(** ** The simplified sampling handler *)

(** [SimplifiedLlmResult] of src/lib/types.ts, the result of a
    [SimplifiedSamplingHandler]: [content] and the optional [model],
    [stopReason] and [usage] ([Js.Undefined] when absent). *)
Record SimplifiedSamplingResult := {
  content : Js.value;
  model : Js.value;
  stopReason : Js.value;
  usage : Js.value
}.

(** How a call of the user's handler ends. *)
Inductive HandlerOutcome :=
| Returns (r : SimplifiedSamplingResult)
| ReturnsError (e : McpError)
| Throws (t : Thrown).

Definition SimplifiedSamplingHandler : Type :=
  string -> Js.value -> HandlerOutcome.

Record TextContent := { type : string; text : Js.value }.

Record CreateMessageResult := {
  cm_role : string;
  cm_content : TextContent;
  cm_model : Js.value;
  cm_stopReason : Js.value;
  cm_usage : Js.value
}.

(** The argument of the sampling callback. *)
Inductive CallbackArg :=
| Message (m : CreateMessageResult)
| Failure (e : McpError).

(** [a || b] *)
Definition orElse (a b : Js.value) : Js.value :=
  if Js.truthy a then a else b.

(** [{ data: { serverId } }] *)
Definition serverIdData (serverId : string) : Js.value :=
  Js.Obj [("data", Js.Obj [("serverId", Js.Str serverId)])].

(** The listener that [setSamplingHandler] registers for
    ["samplingRequest"]; the result is what it passes to [callback].
    [handler] is the field [simplifiedSamplingHandler] when the event
    arrives.  The callback itself (the resolver of the core's promise)
    does not throw. *)
Definition samplingListener (handler : option SimplifiedSamplingHandler)
           (serverId : string) (request : Js.value) : CallbackArg :=
  match handler with
  | None =>
      Failure {| code := ErrorCode.InternalError;
                 message := "Simplified sampling handler was removed after being set";
                 data := serverIdData serverId |}
  | Some f =>
      match f serverId request with
      | ReturnsError e => Failure e
      | Returns result =>
          Message {| cm_role := "assistant";
                     cm_content := {| type := "text"; text := content result |};
                     cm_model := orElse (model result) (Js.Str "unknown");
                     cm_stopReason := orElse (stopReason result) (Js.Str "endTurn");
                     cm_usage := usage result |}
      | Throws (ThrownMcpError e) => Failure e
      | Throws (ThrownError msg) =>
          Failure {| code := ErrorCode.InternalError;
                     message := ("Error in sampling handler: " ++ msg)%string;
                     data := serverIdData serverId |}
      | Throws (ThrownOther _) =>
          Failure {| code := ErrorCode.InternalError;
                     message := "Unknown error in sampling handler";
                     data := serverIdData serverId |}
      end
  end.

End Core.

(* ================================================================== *)
(** * src/lib/api.ts                                                    *)
(* ================================================================== *)

Module Api.
Import Types Errors Core.

(** How the promise returned by [setRoots] settles. *)
Inductive SetRootsResult :=
| Resolved
| RejectedHostError (e : McpHostError)
| RejectedAggregate (errors : list McpHostError) (msg : string).

(** What a call of [setRoots] leaves behind: the host, the servers
    whose [sendRootsListChanged] was called, and the settlement. *)
Record SetRootsRun := {
  host : Host;
  notified : list string;
  result : SetRootsResult
}.

Definition setCurrentRoots (roots : list Js.value) (h : Host) : Host :=
  {| clients := clients h;
     aggregatedTools := aggregatedTools h;
     aggregatedResources := aggregatedResources h;
     aggregatedResourceTemplates := aggregatedResourceTemplates h;
     aggregatedPrompts := aggregatedPrompts h;
     currentRoots := roots;
     serverCapabilities := serverCapabilities h |}.

(** [serverCaps?.roots?.listChanged] *)
Definition wantsRoots (client : Client) : bool :=
  match getServerCapabilities client with
  | Some caps => cap_roots_listChanged caps
  | None => false
  end.

(** [e instanceof Error ? e : undefined] *)
Definition causeOf (e : Thrown) : option Thrown :=
  match e with
  | ThrownOther _ => None
  | _ => Some e
  end.

Section Sdk.

(** The [message] property that the SDK's constructor of [McpError]
    gives an error. *)
Variable mcpMessage : McpError -> string.

(** [new McpHostError(`Failed to send roots to server ${serverId}`,
      ErrorCodes.ROOTS_UPDATE_FAILED, { serverId, cause })] *)
Definition rootsError (serverId : string) (e : Thrown) : McpHostError :=
  newMcpHostError mcpMessage
    ("Failed to send roots to server " ++ serverId)%string
    ROOTS_UPDATE_FAILED (Some serverId) (causeOf e).

(** The fan-out over [this.clients.entries()]: the servers notified
    and the errors pushed.  Errors are listed in the order of the
    clients; the code pushes them as the sends fail. *)
Fixpoint notifyAll (cs : list (string * Client))
  : list string * list McpHostError :=
  match cs with
  | [] => ([], [])
  | (serverId, client) :: rest =>
      let '(sent, errors) := notifyAll rest in
      if wantsRoots client then
        match sendRootsListChanged client with
        | None => (serverId :: sent, errors)
        | Some e => (serverId :: sent, rootsError serverId e :: errors)
        end
      else (sent, errors)
  end.

Definition setRoots (roots : Js.value) (h : Host) : SetRootsRun :=
  match roots with
  | Js.Arr items =>
      let h' := setCurrentRoots items h in
      let '(sent, errors) := notifyAll (JsMap.entries (clients h')) in
      {| host := h';
         notified := sent;
         result :=
           if (0 <? List.length errors)%nat
           then RejectedAggregate errors "Failed to update roots on some servers"
           else Resolved |}
  | _ =>
      {| host := h;
         notified := [];
         result := RejectedHostError
                     (newMcpHostError mcpMessage "Roots must be an array"
                                      ROOTS_UPDATE_FAILED None None) |}
  end.

End Sdk.

(** [[...this.currentRoots]] *)
Definition getCurrentRoots (h : Host) : list Js.value := currentRoots h.

End Api.

(* ================================================================== *)
(** * The API server: sessions, event queues and the sampling broker    *)
(* ================================================================== *)

Module ApiServer.
Import Types.

(** [randomUUID()]: the UUIDs are numbered in the order they are
    drawn.  All that is used of them is that no two draws agree.  A
    string a client sends that is no UUID drawn so far is a number at
    or above [nextUuid]. *)
Abbreviation Uuid := nat (only parsing).

(** ** Configuration from the environment *)

(** The two integer variables, already through [parseInt]; [None] is
    an unset (or empty) variable. *)
Record Env := {
  OMCPH_SAMPLING_TIMEOUT_MS : option Z;
  OMCPH_SESSION_TIMEOUT_MS : option Z
}.

(** [parseInt(process.env.X || dflt, 10)] *)
Definition envInt (v : option Z) (dflt : Z) : Z :=
  match v with Some z => z | None => dflt end.

Definition SAMPLING_REQUEST_TIMEOUT_MS (env : Env) : Z :=
  envInt (OMCPH_SAMPLING_TIMEOUT_MS env) 30000.

Definition SESSION_TIMEOUT_MS (env : Env) : Z :=
  envInt (OMCPH_SESSION_TIMEOUT_MS env) 3600000.

(** ** State *)

Inductive EventData :=
| Data (v : Js.value)
| SamplingRequestData (requestId : Uuid) (serverId : string)
                      (params : Js.value).

Record QueuedEvent := {
  ev_id : Z;
  ev_event : string;
  ev_data : EventData
}.

(** [res] is the identity of the response object. *)
Record SseConnection := {
  res : nat;
  lastEventId : Z
}.

(** The callback that comes with a sampling request is the closure
    core.ts builds for that one request; it is named by the UUID the
    broker draws for the request. *)
Abbreviation Callback := nat (only parsing).

(** What a sampling callback is called with. *)
Inductive Completion :=
| Result (v : Js.value)
| Error (e : McpError).

Record Invocation := {
  inv_callback : Callback;
  inv_arg : Completion
}.

Record SessionState := {
  id : Uuid;
  lastActivity : Z;
  sseConnection : option SseConnection;
  eventQueue : list QueuedEvent;
  nextEventId : Z;
  samplingRequests : option (JsMap.t Uuid Callback)
}.

(** The value of [activeConnections] for one socket. *)
Record Connection := {
  conn_id : Uuid;
  subscriptions : list string;
  conn_samplingRequests : JsMap.t Uuid Callback
}.

(** A WebSocket with its connection object; [isOpen] is
    [ws.readyState === WebSocket.OPEN]. *)
Record Peer := {
  isOpen : bool;
  connection : Connection
}.

(** Where a sampling request was registered. *)
Inductive Sink :=
| SinkPeer (ws : Uuid)
| SinkSession (sessionId : Uuid).

(** A pending [setTimeout] of the broker: the variables its closure
    captured and the delay it was armed with. *)
Record Timer := {
  timer_request : Uuid;
  timer_callback : Callback;
  timer_sink : Sink;
  timer_delay : Z
}.

(** The server.  [sessions] and [peers] are the object stores: they
    keep every session and connection object ever made, because timer
    and close handlers hold on to objects that already left
    [activeSessions] or [activeConnections].  The two [active] lists
    are the keys of the two [Map]s, in insertion order.  [calls] is
    the history of callback calls, oldest first. *)
Record Server := {
  nextUuid : nat;
  sessions : JsMap.t Uuid SessionState;
  activeSessions : list Uuid;
  peers : JsMap.t Uuid Peer;
  activeConnections : list Uuid;
  timers : list Timer;
  ended : list nat;
  calls : list Invocation
}.

Definition initial : Server :=
  {| nextUuid := 0; sessions := []; activeSessions := [];
     peers := []; activeConnections := []; timers := [];
     ended := []; calls := [] |}.

(** *** Field updates *)

Definition withNextUuid (n : nat) (s : Server) : Server :=
  {| nextUuid := n; sessions := sessions s;
     activeSessions := activeSessions s; peers := peers s;
     activeConnections := activeConnections s; timers := timers s;
     ended := ended s; calls := calls s |}.

Definition withSessions (m : JsMap.t Uuid SessionState) (s : Server) : Server :=
  {| nextUuid := nextUuid s; sessions := m;
     activeSessions := activeSessions s; peers := peers s;
     activeConnections := activeConnections s; timers := timers s;
     ended := ended s; calls := calls s |}.

Definition withActiveSessions (l : list Uuid) (s : Server) : Server :=
  {| nextUuid := nextUuid s; sessions := sessions s;
     activeSessions := l; peers := peers s;
     activeConnections := activeConnections s; timers := timers s;
     ended := ended s; calls := calls s |}.

Definition withPeers (m : JsMap.t Uuid Peer) (s : Server) : Server :=
  {| nextUuid := nextUuid s; sessions := sessions s;
     activeSessions := activeSessions s; peers := m;
     activeConnections := activeConnections s; timers := timers s;
     ended := ended s; calls := calls s |}.

Definition withActiveConnections (l : list Uuid) (s : Server) : Server :=
  {| nextUuid := nextUuid s; sessions := sessions s;
     activeSessions := activeSessions s; peers := peers s;
     activeConnections := l; timers := timers s;
     ended := ended s; calls := calls s |}.

Definition withTimers (l : list Timer) (s : Server) : Server :=
  {| nextUuid := nextUuid s; sessions := sessions s;
     activeSessions := activeSessions s; peers := peers s;
     activeConnections := activeConnections s; timers := l;
     ended := ended s; calls := calls s |}.

Definition withEnded (l : list nat) (s : Server) : Server :=
  {| nextUuid := nextUuid s; sessions := sessions s;
     activeSessions := activeSessions s; peers := peers s;
     activeConnections := activeConnections s; timers := timers s;
     ended := l; calls := calls s |}.

Definition withCalls (l : list Invocation) (s : Server) : Server :=
  {| nextUuid := nextUuid s; sessions := sessions s;
     activeSessions := activeSessions s; peers := peers s;
     activeConnections := activeConnections s; timers := timers s;
     ended := ended s; calls := l |}.

Definition withLastActivity (t : Z) (o : SessionState) : SessionState :=
  {| id := id o; lastActivity := t; sseConnection := sseConnection o;
     eventQueue := eventQueue o; nextEventId := nextEventId o;
     samplingRequests := samplingRequests o |}.

Definition withSseConnection (c : option SseConnection) (o : SessionState)
  : SessionState :=
  {| id := id o; lastActivity := lastActivity o; sseConnection := c;
     eventQueue := eventQueue o; nextEventId := nextEventId o;
     samplingRequests := samplingRequests o |}.

Definition withEvents (q : list QueuedEvent) (n : Z) (o : SessionState)
  : SessionState :=
  {| id := id o; lastActivity := lastActivity o;
     sseConnection := sseConnection o;
     eventQueue := q; nextEventId := n;
     samplingRequests := samplingRequests o |}.

Definition withSamplingRequests (m : option (JsMap.t Uuid Callback))
           (o : SessionState) : SessionState :=
  {| id := id o; lastActivity := lastActivity o;
     sseConnection := sseConnection o;
     eventQueue := eventQueue o; nextEventId := nextEventId o;
     samplingRequests := m |}.

Definition withConnSamplingRequests (m : JsMap.t Uuid Callback) (p : Peer)
  : Peer :=
  {| isOpen := isOpen p;
     connection := {| conn_id := conn_id (connection p);
                      subscriptions := subscriptions (connection p);
                      conn_samplingRequests := m |} |}.

Definition withSubscriptions (l : list string) (p : Peer) : Peer :=
  {| isOpen := isOpen p;
     connection := {| conn_id := conn_id (connection p);
                      subscriptions := l;
                      conn_samplingRequests :=
                        conn_samplingRequests (connection p) |} |}.

Definition withIsOpen (b : bool) (p : Peer) : Peer :=
  {| isOpen := b; connection := connection p |}.

(** *** Objects *)

(** An assignment to fields of the stored object named [k]. *)
Definition mutate {V : Type} (k : Uuid) (f : V -> V) (m : JsMap.t Uuid V)
  : JsMap.t Uuid V :=
  map (fun kv => if Nat.eqb k (fst kv) then (fst kv, f (snd kv)) else kv) m.

Definition mutateSession (sid : Uuid) (f : SessionState -> SessionState)
           (s : Server) : Server :=
  withSessions (mutate sid f (sessions s)) s.

Definition mutatePeer (ws : Uuid) (f : Peer -> Peer) (s : Server) : Server :=
  withPeers (mutate ws f (peers s)) s.

Definition isActive (k : Uuid) (l : list Uuid) : bool :=
  existsb (Nat.eqb k) l.

Definition dropKey (k : Uuid) (l : list Uuid) : list Uuid :=
  filter (fun k' => negb (Nat.eqb k k')) l.

(** [activeSessions.get(sessionId)] *)
Definition activeSession (s : Server) (sid : Uuid) : option SessionState :=
  if isActive sid (activeSessions s) then JsMap.get sid (sessions s)
  else None.

(** [activeConnections.get(ws)] *)
Definition activeConnection (s : Server) (ws : Uuid) : option Peer :=
  if isActive ws (activeConnections s) then JsMap.get ws (peers s)
  else None.

(** [callback(arg)] *)
Definition invoke (cb : Callback) (arg : Completion) (s : Server) : Server :=
  withCalls (calls s ++ [{| inv_callback := cb; inv_arg := arg |}]) s.

(** [res.writable] *)
Definition writable (s : Server) (r : nat) : bool :=
  negb (existsb (Nat.eqb r) (ended s)).

(** [res.end()] *)
Definition endResponse (r : nat) (s : Server) : Server :=
  withEnded (r :: ended s) s.

(** ** Session management *)

Definition newSession (sessionId : Uuid) (now : Z) : SessionState :=
  {| id := sessionId; lastActivity := now; sseConnection := None;
     eventQueue := []; nextEventId := 1;
     samplingRequests := Some JsMap.empty |}.

Definition createSession (now : Z) (s : Server) : Server * Uuid :=
  let sessionId := nextUuid s in
  let s := withNextUuid (S sessionId) s in
  let s := withSessions
             (JsMap.set sessionId (newSession sessionId now) (sessions s)) s in
  (withActiveSessions (activeSessions s ++ [sessionId]) s, sessionId).

Definition getSession (sessionId : Uuid) (now : Z) (s : Server)
  : Server * option SessionState :=
  match activeSession s sessionId with
  | Some session =>
      (mutateSession sessionId (withLastActivity now) s,
       Some (withLastActivity now session))
  | None => (s, None)
  end.

Definition sessionClosed : Completion :=
  Error {| code := ErrorCode.InternalError;
           message := "Session closed before sampling request could complete";
           data := Js.Undefined |}.

(** The [for ... of requests.entries()] loop that calls every
    callback with the same argument. *)
Definition invokeAll (requests : JsMap.t Uuid Callback) (arg : Completion)
           (s : Server) : Server :=
  fold_left (fun acc kv => invoke (snd kv) arg acc)
            (JsMap.entries requests) s.

Definition deleteSession (sessionId : Uuid) (s : Server) : Server * bool :=
  match activeSession s sessionId with
  | Some session =>
      let s :=
        match sseConnection session with
        | Some sse =>
            let s := endResponse (res sse) s in
            match samplingRequests session with
            | Some requests =>
                let s := invokeAll requests sessionClosed s in
                mutateSession sessionId
                  (withSamplingRequests (Some JsMap.empty)) s
            | None => s
            end
        | None => s
        end in
      (withActiveSessions (dropKey sessionId (activeSessions s)) s, true)
  | None => (s, false)
  end.

(** [eventQueue.push(e); if (eventQueue.length > 100) eventQueue.shift()] *)
Definition enqueue (e : QueuedEvent) (q : list QueuedEvent)
  : list QueuedEvent :=
  let q := q ++ [e] in
  if (100 <? List.length q)%nat then tl q else q.

(** The queueing part of [sendEventToSession], on the session object. *)
Definition pushEvent (eventName : string) (d : EventData)
           (session : SessionState) : SessionState :=
  let eventId := nextEventId session in
  withEvents
    (enqueue {| ev_id := eventId; ev_event := eventName; ev_data := d |}
             (eventQueue session))
    (eventId + 1)%Z session.

(** [writeThrows] tells whether serialising and writing the event to
    the stream throws. *)
Definition sendEventToSession (sessionId : Uuid) (eventName : string)
           (d : EventData) (writeThrows : bool) (s : Server)
  : Server * bool :=
  match activeSession s sessionId with
  | None => (s, false)
  | Some session =>
      let s := mutateSession sessionId (pushEvent eventName d) s in
      match sseConnection session with
      | Some _ =>
          if writeThrows
          then (mutateSession sessionId (withSseConnection None) s, false)
          else (s, true)
      | None => (s, false)
      end
  end.

(** The body of the [setInterval] that reclaims idle sessions. *)
Definition sweep (env : Env) (now : Z) (s : Server) : Server :=
  fold_left
    (fun acc sessionId =>
       match activeSession acc sessionId with
       | Some session =>
           if (SESSION_TIMEOUT_MS env <? now - lastActivity session)%Z
           then fst (deleteSession sessionId acc)
           else acc
       | None => acc
       end)
    (activeSessions s) s.

(** [activeSessions.forEach((_, id) => sendEventToSession(id, name, data))],
    the relay of a host event to every session. *)
Definition broadcast (eventName : string) (d : EventData)
           (writeThrows : Uuid -> bool) (s : Server) : Server :=
  fold_left
    (fun acc sessionId =>
       fst (sendEventToSession sessionId eventName d
                               (writeThrows sessionId) acc))
    (activeSessions s) s.

(** ** The sampling broker *)

Definition samplingTimedOut : Completion :=
  Error {| code := ErrorCode.RequestTimeout;
           message := "Sampling request timed out - no response received";
           data := Js.Undefined |}.

Definition noActiveClient : Completion :=
  Error {| code := ErrorCode.InternalError;
           message := "No active client to handle sampling request";
           data := Js.Undefined |}.

(** The first key of [activeConnections] whose socket is open. *)
Definition findOpenSocket (s : Server) : option Uuid :=
  find (fun ws =>
          match JsMap.get ws (peers s) with
          | Some p => isOpen p
          | None => false
          end)
       (activeConnections s).

(** The first session with a writable SSE connection. *)
Definition findSseSession (s : Server) : option Uuid :=
  find (fun sid =>
          match JsMap.get sid (sessions s) with
          | Some session =>
              match sseConnection session with
              | Some sse => writable s (res sse)
              | None => false
              end
          | None => false
          end)
       (activeSessions s).

(** [if (!m) m = new Map(); m.set(requestId, callback)] *)
Definition register (requestId : Uuid) (cb : Callback)
           (m : option (JsMap.t Uuid Callback))
  : option (JsMap.t Uuid Callback) :=
  match m with
  | Some requests => Some (JsMap.set requestId cb requests)
  | None => Some (JsMap.set requestId cb JsMap.empty)
  end.

(** [o.samplingRequests.delete(requestId)] *)
Definition forget (requestId : Uuid) (o : SessionState) : SessionState :=
  match samplingRequests o with
  | Some requests =>
      withSamplingRequests (Some (JsMap.delete requestId requests)) o
  | None => o
  end.

(** [connection.samplingRequests.delete(requestId)] *)
Definition forgetInPeer (requestId : Uuid) (p : Peer) : Peer :=
  withConnSamplingRequests
    (JsMap.delete requestId (conn_samplingRequests (connection p))) p.

Definition arm (t : Timer) (s : Server) : Server :=
  withTimers (timers s ++ [t]) s.

(** [host.on("samplingRequest", (serverId, params, callback) => ...)].
    The delay of both [setTimeout] calls is the literal [300000]. *)
Definition onSamplingRequest (serverId : string) (params : Js.value)
           (writeThrows : bool) (s : Server) : Server :=
  let requestId := nextUuid s in
  let callback : Callback := requestId in
  let s := withNextUuid (S requestId) s in
  match findOpenSocket s with
  | Some clientWs =>
      let s := mutatePeer clientWs
                 (fun p => withConnSamplingRequests
                             (JsMap.set requestId callback
                                (conn_samplingRequests (connection p))) p) s in
      arm {| timer_request := requestId; timer_callback := callback;
             timer_sink := SinkPeer clientWs; timer_delay := 300000 |} s
  | None =>
      match findSseSession s with
      | Some sid =>
          let s := mutateSession sid
                     (fun o => withSamplingRequests
                                 (register requestId callback
                                           (samplingRequests o)) o) s in
          let s := arm {| timer_request := requestId;
                          timer_callback := callback;
                          timer_sink := SinkSession sid;
                          timer_delay := 300000 |} s in
          fst (sendEventToSession sid "sampling_request"
                 (SamplingRequestData requestId serverId params)
                 writeThrows s)
      | None => invoke callback noActiveClient s
      end
  end.

(** The body of a broker timer, run when the timer fires. *)
Definition timerBody (t : Timer) (s : Server) : Server :=
  match timer_sink t with
  | SinkPeer ws =>
      match JsMap.get ws (peers s) with
      | Some p =>
          if JsMap.has (timer_request t) (conn_samplingRequests (connection p))
          then
            let s := mutatePeer ws (forgetInPeer (timer_request t)) s in
            invoke (timer_callback t) samplingTimedOut s
          else s
      | None => s
      end
  | SinkSession sid =>
      match JsMap.get sid (sessions s) with
      | Some session =>
          match samplingRequests session with
          | Some requests =>
              if JsMap.has (timer_request t) requests then
                let s := mutateSession sid (forget (timer_request t)) s in
                invoke (timer_callback t) samplingTimedOut s
              else s
          | None => s
          end
      | None => s
      end
  end.

(** The timer armed for [requestId] fires: it leaves the pending
    timers and its body runs.  Nothing happens when no such timer is
    pending. *)
Definition fireTimer (requestId : Uuid) (s : Server) : Server :=
  match find (fun t => Nat.eqb (timer_request t) requestId) (timers s) with
  | Some t =>
      timerBody t
        (withTimers
           (filter (fun t' => negb (Nat.eqb (timer_request t') requestId))
                   (timers s)) s)
  | None => s
  end.

(** ** HTTP *)

(** A JSON-RPC response object: its [id] and either [result] or
    [error]. *)
Inductive RpcResult :=
| InitializeResult (protocolVersion : string)
                   (capabilities serverInfo : Js.value)
| ToolsResult (l : list AggregatedTool)
| ResourcesResult (l : list AggregatedResource)
| ResourceTemplatesResult (l : list AggregatedResourceTemplate)
| PromptsResult (l : list AggregatedPrompt)
| ValueResult (v : Js.value).

(** The [error] member of a JSON-RPC error response.
    [createErrorResponse(id, code, message, data)] is called with
    literal arguments, or with the [code], [message] and [data]
    properties of a caught [McpError]; the [message] of that instance
    is the one the SDK's constructor made of its argument. *)
Inductive RpcError :=
| ErrorObject (c : Z) (m : string) (d : Js.value)
| ErrorOfMcpError (e : McpError).

Record Response := {
  rpc_id : Js.value;
  rpc_outcome : RpcResult + RpcError
}.

(** The JSON body of a JSON-RPC answer: one object or an array. *)
Inductive Payload :=
| Single (r : Response)
| Batch (rs : list Response).

Inductive Body :=
| ErrorBody (error msg : string)
| SuccessBody
| MessageBody (msg : string)
| McpErrorBody (e : McpError)
| RpcBody (p : Payload).

(** What a handler answers: a status with no body ([.send()]), a
    status with a JSON body ([.json(x)]), or a [200] event stream
    with the events written while the handler ran. *)
Inductive HttpResponse :=
| Empty (status : Z)
| Json (status : Z) (body : Body)
| EventStream (replayed : list QueuedEvent) (first : option Payload).

Definition statusOf (r : HttpResponse) : Z :=
  match r with
  | Empty st => st
  | Json st _ => st
  | EventStream _ _ => 200
  end.

(** *** Sampling answers over HTTP *)

(** [requestId] of a request body: [None] when missing or falsy. *)
Definition RequestIdField := option Uuid.

(** The lookup and completion shared by both sampling endpoints, once
    the session is found and the body is accepted. *)
Definition completeInSession (sessionId : Uuid) (session : SessionState)
           (requestId : Uuid) (arg : Completion) (s : Server)
  : Server * HttpResponse :=
  match samplingRequests session with
  | None =>
      (s, Json 404 (ErrorBody "not_found"
                      "No sampling requests registered for this session"))
  | Some requests =>
      match JsMap.get requestId requests with
      | None =>
          (s, Json 404 (ErrorBody "not_found"
                          "Request ID not found or already handled"))
      | Some callback =>
          let s := invoke callback arg s in
          let s := mutateSession sessionId (forget requestId) s in
          (s, Json 200 SuccessBody)
      end
  end.

(** [POST /mcp/sampling_response] *)
Definition postSamplingResponse (sessionIdHeader : option Uuid) (now : Z)
           (requestId : RequestIdField) (result : Js.value) (s : Server)
  : Server * HttpResponse :=
  match sessionIdHeader with
  | None => (s, Json 400 (ErrorBody "bad_request"
                            "Mcp-Session-Id header required"))
  | Some sessionId =>
      match getSession sessionId now s with
      | (s, None) => (s, Json 404 (ErrorBody "not_found"
                                     "Invalid or expired session ID"))
      | (s, Some session) =>
          match requestId with
          | Some rid =>
              if Js.truthy result
              then completeInSession sessionId session rid (Result result) s
              else (s, Json 400 (ErrorBody "bad_request"
                     "Invalid request body: requestId and result are required"))
          | None => (s, Json 400 (ErrorBody "bad_request"
                     "Invalid request body: requestId and result are required"))
          end
      end
  end.

(** [!error || typeof error.code !== "number" ||
     typeof error.message !== "string"], negated, with the
    [McpError] built from an accepted [error]. *)
Definition errorOfBody (error : Js.value) : option McpError :=
  if Js.truthy error then
    match Js.get error "code", Js.get error "message" with
    | Js.Num c, Js.Str m =>
        Some {| code := c; message := m;
                data := Js.Obj [("data", Js.get error "data")] |}
    | _, _ => None
    end
  else None.

(** [POST /mcp/sampling_error] *)
Definition postSamplingError (sessionIdHeader : option Uuid) (now : Z)
           (requestId : RequestIdField) (error : Js.value) (s : Server)
  : Server * HttpResponse :=
  match sessionIdHeader with
  | None => (s, Json 400 (ErrorBody "bad_request"
                            "Mcp-Session-Id header required"))
  | Some sessionId =>
      match getSession sessionId now s with
      | (s, None) => (s, Json 404 (ErrorBody "not_found"
                                     "Invalid or expired session ID"))
      | (s, Some session) =>
          match requestId, errorOfBody error with
          | Some rid, Some e =>
              completeInSession sessionId session rid (Error e) s
          | _, _ => (s, Json 400 (ErrorBody "bad_request"
     "Invalid request body: requestId and properly formatted error are required"))
          end
      end
  end.

(** [DELETE /mcp] *)
Definition deleteMcp (sessionIdHeader : option Uuid) (s : Server)
  : Server * HttpResponse :=
  match sessionIdHeader with
  | None => (s, Json 400 (ErrorBody "bad_request"
                            "Mcp-Session-Id header required"))
  | Some sessionId =>
      match deleteSession sessionId s with
      | (s, true) => (s, Empty 204)
      | (s, false) => (s, Json 404 (ErrorBody "not_found"
                                      "Session ID not found"))
      end
  end.

(** [GET /mcp].  [lastEventIdHeader] is the header through
    [parseInt], [None] when absent or not a number; [initialState] is
    what the host's accessors answered. *)
Definition getMcp (sessionIdHeader : option Uuid) (lastEventIdHeader : option Z)
           (acceptsSSE : bool) (r : nat) (initialState : Js.value)
           (writeThrows : bool) (now : Z) (s : Server)
  : Server * HttpResponse :=
  match sessionIdHeader with
  | None => (s, Json 400 (ErrorBody "bad_request"
                            "Mcp-Session-Id header required"))
  | Some sessionId =>
      match getSession sessionId now s with
      | (s, None) => (s, Json 404 (ErrorBody "not_found"
                                     "Invalid or expired session ID"))
      | (s, Some session) =>
          if acceptsSSE then
            let replayed :=
              match lastEventIdHeader with
              | Some n => filter (fun e => (n <? ev_id e)%Z)
                                 (eventQueue session)
              | None => []
              end in
            let s := mutateSession sessionId
                       (withSseConnection
                          (Some {| res := r;
                                   lastEventId := (nextEventId session - 1)%Z |}))
                       s in
            let s := fst (sendEventToSession sessionId "initialState"
                            (Data initialState) writeThrows s) in
            (s, EventStream replayed None)
          else (s, Json 406 (ErrorBody "not_acceptable"
                               "Client must accept text/event-stream"))
      end
  end.

(** [if (o.sseConnection?.res === res) delete o.sseConnection] *)
Definition detach (r : nat) (o : SessionState) : SessionState :=
  match sseConnection o with
  | Some sse => if Nat.eqb (res sse) r then withSseConnection None o else o
  | None => o
  end.

(** The ["close"] handler of a [GET /mcp] request: it holds the
    session object itself. *)
Definition onGetClosed (sessionId : Uuid) (r : nat) (s : Server) : Server :=
  mutateSession sessionId (detach r) s.

(** The ["close"] handler of a [POST /mcp] request answered as a
    stream: it looks the session up again. *)
Definition onPostClosed (sessionId : Uuid) (r : nat) (now : Z) (s : Server)
  : Server :=
  match getSession sessionId now s with
  | (s, Some _) => mutateSession sessionId (detach r) s
  | (s, None) => s
  end.

(** ** WebSocket *)

(** [wss.on("connection")] for an accepted peer: the socket is named
    by the connection id drawn for it. *)
Definition onWsConnection (s : Server) : Server * Uuid :=
  let connectionId := nextUuid s in
  let s := withNextUuid (S connectionId) s in
  let s := withPeers
             (JsMap.set connectionId
                {| isOpen := true;
                   connection := {| conn_id := connectionId;
                                    subscriptions := [];
                                    conn_samplingRequests := JsMap.empty |} |}
                (peers s)) s in
  (withActiveConnections (activeConnections s ++ [connectionId]) s,
   connectionId).

(** [ws.on("close")] *)
Definition onWsClose (ws : Uuid) (s : Server) : Server :=
  let s := mutatePeer ws (withIsOpen false) s in
  withActiveConnections (dropKey ws (activeConnections s)) s.

(** The socket leaves the [OPEN] state before its close handler ran. *)
Definition onWsClosing (ws : Uuid) (s : Server) : Server :=
  mutatePeer ws (withIsOpen false) s.

(** [Set.prototype.add] / [delete] on the subscription topics. *)
Definition addTopic (topic : string) (l : list string) : list string :=
  if existsb (String.eqb topic) l then l else l ++ [topic].

Definition removeTopic (topic : string) (l : list string) : list string :=
  filter (fun t => negb (String.eqb topic t)) l.

(** [!topic || typeof topic !== "string"], negated. *)
Definition topicOf (data : Js.value) : option string :=
  match Js.get data "topic" with
  | Js.Str t => if (t =? "")%string then None else Some t
  | _ => None
  end.

Definition handleSubscribeMessage (ws : Uuid) (data : Js.value) (s : Server)
  : Server :=
  match activeConnection s ws, topicOf data with
  | Some _, Some topic =>
      mutatePeer ws
        (fun p => withSubscriptions
                    (addTopic topic (subscriptions (connection p))) p) s
  | _, _ => s
  end.

Definition handleUnsubscribeMessage (ws : Uuid) (data : Js.value) (s : Server)
  : Server :=
  match activeConnection s ws, topicOf data with
  | Some _, Some topic =>
      mutatePeer ws
        (fun p => withSubscriptions
                    (removeTopic topic (subscriptions (connection p))) p) s
  | _, _ => s
  end.

(** The lookup and completion shared by the two WebSocket sampling
    handlers. *)
Definition completeInPeer (ws : Uuid) (p : Peer) (requestId : Uuid)
           (arg : Completion) (s : Server) : Server :=
  match JsMap.get requestId (conn_samplingRequests (connection p)) with
  | Some callback =>
      let s := invoke callback arg s in
      mutatePeer ws (forgetInPeer requestId) s
  | None => s
  end.

Definition handleSamplingResponseMessage (ws : Uuid)
           (requestId : RequestIdField) (result : Js.value) (s : Server)
  : Server :=
  match activeConnection s ws with
  | Some p =>
      match requestId with
      | Some rid =>
          if Js.truthy result then completeInPeer ws p rid (Result result) s
          else s
      | None => s
      end
  | None => s
  end.

Definition handleSamplingErrorMessage (ws : Uuid)
           (requestId : RequestIdField) (error : Js.value) (s : Server)
  : Server :=
  match activeConnection s ws with
  | Some p =>
      match requestId, errorOfBody error with
      | Some rid, Some e => completeInPeer ws p rid (Error e) s
      | _, _ => s
      end
  | None => s
  end.

(** ** The JSON-RPC endpoint, [POST /mcp] *)

(** [msg && typeof msg.method === "string" && msg.id !== undefined
     && msg.id !== null] *)
Definition isRequest (msg : Js.value) : bool :=
  Js.truthy msg
  && Js.isString (Js.get msg "method")
  && negb (Js.isUndefined (Js.get msg "id"))
  && negb (Js.isNull (Js.get msg "id")).

Definition isNotification (msg : Js.value) : bool :=
  Js.truthy msg
  && Js.isString (Js.get msg "method")
  && Js.isUndefined (Js.get msg "id").

Definition isResponse (msg : Js.value) : bool :=
  Js.truthy msg
  && negb (Js.isUndefined (Js.get msg "id"))
  && (negb (Js.isUndefined (Js.get msg "result"))
      || negb (Js.isUndefined (Js.get msg "error"))).

Definition createErrorResponse (rid : Js.value) (c : Z) (m : string)
           (d : Js.value) : Response :=
  {| rpc_id := rid; rpc_outcome := inr (ErrorObject c m d) |}.

(** [createErrorResponse(id, mcpError.code, mcpError.message,
    mcpError.data)] *)
Definition createErrorResponseOf (rid : Js.value) (mcpError : McpError)
  : Response :=
  {| rpc_id := rid; rpc_outcome := inr (ErrorOfMcpError mcpError) |}.

(** The calls on the host that the router awaits. *)
Inductive HostCall :=
| CallTool (serverId : option string) (toolName : option string)
           (arguments : Js.value)
| ReadResource (serverId : option string) (params : Js.value)
| GetPrompt (serverId : option string) (params : Js.value).

Inductive CallOutcome :=
| CallReturns (v : Js.value)
| CallThrows (t : Thrown).

(** The host as one request sees it: its configuration, its
    aggregated state, and how its calls end. *)
Record HostView := {
  hostCapabilities : Js.value;
  hostInfo : Js.value;
  hostState : Core.Host;
  hostCall : HostCall -> CallOutcome
}.

(** [`${x}`] of an array element that may be missing. *)
Definition interpolate (x : option string) : string :=
  match x with Some v => v | None => "undefined" end.

(** The [switch (message.method)] with its [try]/[catch]. *)
Definition dispatch (hv : HostView) (method : string) (params : Js.value)
  : RpcResult + McpError :=
  let methodParts := Str.split "/" method in
  let serverId := nth_error methodParts 1 in
  let toolName := nth_error methodParts 3 in
  let awaited (c : HostCall) : RpcResult + McpError :=
    match hostCall hv c with
    | CallReturns v => inl (ValueResult v)
    | CallThrows (ThrownMcpError e) => inr e
    | CallThrows (ThrownError m) =>
        inr {| code := ErrorCode.InternalError; message := m;
               data := Js.Undefined |}
    | CallThrows (ThrownOther _) =>
        inr {| code := ErrorCode.InternalError; message := "Unknown error";
               data := Js.Undefined |}
    end in
  if (method =? "tools/list")%string then
    inl (ToolsResult (Core.getTools (hostState hv)))
  else if (method =? "resources/list")%string then
    inl (ResourcesResult (Core.getResources (hostState hv)))
  else if (method =? "resources/templates/list")%string then
    inl (ResourceTemplatesResult (Core.getResourceTemplates (hostState hv)))
  else if (method =? "prompts/list")%string then
    inl (PromptsResult (Core.getPrompts (hostState hv)))
  else if (method =? "servers/" ++ interpolate serverId ++ "/tools/"
                     ++ interpolate toolName ++ "/call")%string then
    awaited (CallTool serverId toolName params)
  else if (method =? "servers/" ++ interpolate serverId
                     ++ "/resource/read")%string then
    awaited (ReadResource serverId params)
  else if (method =? "servers/" ++ interpolate serverId
                     ++ "/prompt/get")%string then
    awaited (GetPrompt serverId params)
  else
    inr {| code := ErrorCode.MethodNotFound;
           message := ("Method not found: " ++ method)%string;
           data := Js.Undefined |}.

Definition methodOf (msg : Js.value) : string :=
  match Js.get msg "method" with Js.Str m => m | _ => "" end.

(** [isRequest(message) ? message.id : null] *)
Definition idOrNull (msg : Js.value) : Js.value :=
  if isRequest msg then Js.get msg "id" else Js.Null.

(** [processSingleMessage]; [None] is the [null] answered for
    notifications and responses. *)
Definition processSingleMessage (hv : HostView) (sessionId : option Uuid)
           (now : Z) (message : Js.value) (s : Server)
  : Server * option Response :=
  if isRequest message && (methodOf message =? "initialize")%string then
    match sessionId with
    | Some _ =>
        (s, Some (createErrorResponse (Js.get message "id") (-32600)
                    "Cannot initialize an existing session" Js.Undefined))
    | None =>
        let '(s, _) := createSession now s in
        (s, Some {| rpc_id := Js.get message "id";
                    rpc_outcome :=
                      inl (InitializeResult "2025-03-26"
                             (Core.orElse (hostCapabilities hv) (Js.Obj []))
                             (hostInfo hv)) |})
    end
  else
    match sessionId with
    | None =>
        (s, Some (createErrorResponse (idOrNull message) (-32600)
                    "Mcp-Session-Id header required after initialization"
                    Js.Undefined))
    | Some sid =>
        match getSession sid now s with
        | (s, None) =>
            (s, Some (createErrorResponse (idOrNull message) (-32600)
                        "Invalid or expired session ID" Js.Undefined))
        | (s, Some _) =>
            if isRequest message then
              (s, Some match dispatch hv (methodOf message)
                                      (Js.get message "params") with
                       | inl result =>
                           {| rpc_id := Js.get message "id";
                              rpc_outcome := inl result |}
                       | inr mcpError =>
                           createErrorResponseOf (Js.get message "id")
                                                 mcpError
                       end)
            else if isNotification message || isResponse message then
              (s, None)
            else
              (s, Some (createErrorResponse Js.Null (-32600)
                          "Invalid JSON-RPC message structure" Js.Undefined))
        end
    end.

(** [Promise.all(body.map(processSingleMessage))]: every call runs up
    to its first [await] before the next one starts, and the session
    table is only touched before that point. *)
Fixpoint processAll (hv : HostView) (sessionId : option Uuid) (now : Z)
         (messages : list Js.value) (s : Server)
  : Server * list (option Response) :=
  match messages with
  | [] => (s, [])
  | m :: rest =>
      let '(s, r) := processSingleMessage hv sessionId now m s in
      let '(s, rs) := processAll hv sessionId now rest s in
      (s, r :: rs)
  end.

(** [responses.filter(r => r !== null)] *)
Fixpoint validOnly (responses : list (option Response)) : list Response :=
  match responses with
  | [] => []
  | Some r :: rest => r :: validOnly rest
  | None :: rest => validOnly rest
  end.

Record PostRequest := {
  post_sessionId : option Uuid;
  post_acceptsSSE : bool;
  post_body : Js.value;
  post_res : nat;
  post_now : Z
}.

(** [acceptsSSE && (body.params?.options?.onprogress !== undefined
     || body.method === "initialize")] *)
Definition preferSSE (acceptsSSE : bool) (body : Js.value) : bool :=
  acceptsSSE
  && (negb (Js.isUndefined
              (Js.get (Js.get (Js.get body "params") "options") "onprogress"))
      || match Js.get body "method" with
         | Js.Str m => (m =? "initialize")%string
         | _ => false
         end).

(** [validResponses.length === 1 && !Array.isArray(body)
     ? validResponses[0] : validResponses] *)
Definition payloadOf (body : Js.value) (validResponses : list Response)
  : Payload :=
  match validResponses, Js.isArray body with
  | [r], false => Single r
  | _, _ => Batch validResponses
  end.

(** The handler of [POST /mcp].  The body is what [express.json()]
    hands over, an object or an array. *)
Definition postMcp (hv : HostView) (req : PostRequest) (s : Server)
  : Server * HttpResponse :=
  let body := post_body req in
  let sessionId := post_sessionId req in
  let '(s, responses, containsRequest) :=
    match body with
    | Js.Arr messages =>
        let '(s, rs) := processAll hv sessionId (post_now req) messages s in
        (s, rs, existsb isRequest messages)
    | _ =>
        let '(s, r) := processSingleMessage hv sessionId (post_now req) body s in
        (s, [r], isRequest body)
    end in
  let validResponses := validOnly responses in
  match preferSSE (post_acceptsSSE req) body, sessionId with
  | true, Some sid =>
      match getSession sid (post_now req) s with
      | (s, Some session) =>
          let first :=
            if (0 <? List.length validResponses)%nat
            then Some (payloadOf body validResponses) else None in
          let s := mutateSession sid
                     (withSseConnection
                        (Some {| res := post_res req;
                                 lastEventId := nextEventId session |})) s in
          (s, EventStream [] first)
      | (s, None) => (s, EventStream [] None)
      end
  | _, _ =>
      if negb containsRequest then (s, Empty 202)
      else if (List.length validResponses =? 0)%nat then (s, Empty 204)
      else (s, Json 200 (RpcBody (payloadOf body validResponses)))
  end.

(** ** [POST /config/roots] *)

(** The test of [validateRoots] on one element. *)
Definition isRoot (root : Js.value) : bool :=
  (Js.typeof root =? "object")%string
  && negb (Js.isNull root)
  && Js.isString (Js.get root "uri")
  && Js.isString (Js.get root "name").

(** The middleware: [None] is [next()], [Some r] the answer it sends. *)
Definition validateRoots (body : Js.value) : option HttpResponse :=
  match body with
  | Js.Arr roots =>
      if forallb isRoot roots then None
      else Some (Json 400 (ErrorBody "invalid_roots"
                   "Each root must have uri and name properties as strings"))
  | _ => Some (Json 400 (ErrorBody "invalid_roots"
                 "Request body must be an array of Root objects"))
  end.

(** [handleHostError] for what [setRoots] can reject with: neither
    rejection is an [McpError], both are [Error]s. *)
Definition handleSetRootsError (r : Api.SetRootsResult) : HttpResponse :=
  match r with
  | Api.Resolved => Json 200 (MessageBody "Roots updated successfully")
  | Api.RejectedHostError e =>
      Json 500 (ErrorBody "internal_server_error" (he_message e))
  | Api.RejectedAggregate _ m =>
      Json 500 (ErrorBody "internal_server_error" m)
  end.

(** [app.post("/config/roots", validateRoots, ...)]: the host
    afterwards, the servers notified, and the answer. *)
Definition postConfigRoots (mcpMessage : McpError -> string)
           (body : Js.value) (h : Core.Host)
  : Core.Host * list string * HttpResponse :=
  match validateRoots body with
  | Some answer => (h, [], answer)
  | None =>
      let run := Api.setRoots mcpMessage body h in
      (Api.host run, Api.notified run, handleSetRootsError (Api.result run))
  end.

(** ** The server as a state machine *)

(** Everything that can happen to the server: HTTP requests,
    WebSocket traffic, host events, and timers coming due. *)
Inductive Input :=
| PostMcp (hv : HostView) (req : PostRequest)
| GetMcp (sessionId : option Uuid) (lastEventIdHeader : option Z)
         (acceptsSSE : bool) (r : nat) (initialState : Js.value)
         (writeThrows : bool) (now : Z)
| GetClosed (sessionId : Uuid) (r : nat)
| PostClosed (sessionId : Uuid) (r : nat) (now : Z)
| DeleteMcp (sessionId : option Uuid)
| PostSamplingResponse (sessionId : option Uuid) (now : Z)
                       (requestId : RequestIdField) (result : Js.value)
| PostSamplingError (sessionId : option Uuid) (now : Z)
                    (requestId : RequestIdField) (error : Js.value)
| Sweep (now : Z)
| HostEvent (eventName : string) (d : Js.value) (writeThrows : Uuid -> bool)
| StreamEnded (r : nat)
| WsConnection
| WsClosing (ws : Uuid)
| WsClose (ws : Uuid)
| WsSubscribe (ws : Uuid) (data : Js.value)
| WsUnsubscribe (ws : Uuid) (data : Js.value)
| WsSamplingResponse (ws : Uuid) (requestId : RequestIdField)
                     (result : Js.value)
| WsSamplingError (ws : Uuid) (requestId : RequestIdField)
                  (error : Js.value)
| SamplingRequest (serverId : string) (params : Js.value)
                  (writeThrows : bool)
| TimerFires (requestId : Uuid).

Definition step (env : Env) (i : Input) (s : Server) : Server :=
  match i with
  | PostMcp hv req => fst (postMcp hv req s)
  | GetMcp sid last acc r st w now => fst (getMcp sid last acc r st w now s)
  | GetClosed sid r => onGetClosed sid r s
  | PostClosed sid r now => onPostClosed sid r now s
  | DeleteMcp sid => fst (deleteMcp sid s)
  | PostSamplingResponse sid now rid result =>
      fst (postSamplingResponse sid now rid result s)
  | PostSamplingError sid now rid error =>
      fst (postSamplingError sid now rid error s)
  | Sweep now => sweep env now s
  | HostEvent name d w => broadcast name (Data d) w s
  | StreamEnded r => endResponse r s
  | WsConnection => fst (onWsConnection s)
  | WsClosing ws => onWsClosing ws s
  | WsClose ws => onWsClose ws s
  | WsSubscribe ws data => handleSubscribeMessage ws data s
  | WsUnsubscribe ws data => handleUnsubscribeMessage ws data s
  | WsSamplingResponse ws rid result =>
      handleSamplingResponseMessage ws rid result s
  | WsSamplingError ws rid error => handleSamplingErrorMessage ws rid error s
  | SamplingRequest serverId params w => onSamplingRequest serverId params w s
  | TimerFires rid => fireTimer rid s
  end.

Definition run (env : Env) (inputs : list Input) (s : Server) : Server :=
  fold_left (fun acc i => step env i acc) inputs s.

(** How often the callback [cb] has been called. *)
Definition timesCalled (cb : Callback) (s : Server) : nat :=
  List.length (filter (fun c => Nat.eqb (inv_callback c) cb) (calls s)).

(** The arguments the callback [cb] has been called with. *)
Definition argsOf (cb : Callback) (s : Server) : list Completion :=
  map inv_arg (filter (fun c => Nat.eqb (inv_callback c) cb) (calls s)).

End ApiServer.

(* ================================================================== *)
(** * src/lib/uri-utils.ts and src/lib/api.ts: suggestions by name      *)
(* ================================================================== *)

Module NameResolvers.
Import Types UriUtils.

(** The entry pushed for an item whose name is the one asked for. *)
Definition nameSuggestion {T : Type} (x : Aggregated T) : ServerSuggestion :=
  {| serverId := Types.serverId x; matchType := name; confidence := 1%Q |}.

Definition resolveToolServer (toolName : string) (tools : list AggregatedTool)
  : list ServerSuggestion :=
  sortByConfidence
    (map nameSuggestion
         (filter (fun t => (tool_name (item t) =? toolName)%string) tools)).

Definition resolvePromptServer (promptName : string)
           (prompts : list AggregatedPrompt) : list ServerSuggestion :=
  sortByConfidence
    (map nameSuggestion
         (filter (fun p => (prompt_name (item p) =? promptName)%string)
                 prompts)).

(** [suggestServerForTool] and [suggestServerForPrompt] of the public
    API. *)
Definition suggestServerForTool (toolName : string) (h : Core.Host)
  : list ServerSuggestion :=
  resolveToolServer toolName (Core.getTools h).

Definition suggestServerForPrompt (promptName : string) (h : Core.Host)
  : list ServerSuggestion :=
  resolvePromptServer promptName (Core.getPrompts h).

End NameResolvers.

(* ================================================================== *)
(** * The requests of core.ts and api.ts                                *)
(* ================================================================== *)

Module Requests.
Import Types Errors Core Api.

(** The requests the host forwards to the SDK client of a server. *)
Inductive ClientRequest :=
| CallToolRequest (params : Js.value)
| ReadResourceRequest (params : Js.value)
| GetPromptRequest (params : Js.value)
| SubscribeRequest (uri : string)
| UnsubscribeRequest (uri : string).

(** How a promise of the host settles: with a value, with what the
    client threw, or with an error of the host's own. *)
Inductive Settled :=
| Fulfils (v : Js.value)
| Rejects (t : Thrown)
| RejectsHost (e : McpHostError).

Section Sdk.

(** The SDK as the host meets it: the [message] property that the
    constructor of [McpError] gives an error, [String(x)] of a thrown
    value that is no [Error], and what the client connected for a
    server answers to a request. *)
Variable mcpMessage : McpError -> string.
Variable stringOf : Js.value -> string.
Variable answer : string -> ClientRequest -> Js.value + Thrown.

(** [error instanceof Error ? error.message : String(error)] *)
Definition describe (e : Thrown) : string :=
  match e with
  | ThrownMcpError m => mcpMessage m
  | ThrownError msg => msg
  | ThrownOther v => stringOf v
  end.

(** [new McpHostError("Server not found", SERVER_NOT_FOUND, { serverId })] *)
Definition serverNotFound (serverId : option string) : McpHostError :=
  newMcpHostError mcpMessage "Server not found" SERVER_NOT_FOUND serverId None.

Definition getClientOrThrow (serverId : string) (h : Host)
  : Client + McpHostError :=
  match JsMap.get serverId (clients h) with
  | Some client => inl client
  | None => inr (serverNotFound (Some serverId))
  end.

(** The body shared by [callTool], [readResource] and [getPrompt]:
    the client is looked up and its promise is returned as it is. *)
Definition forward (serverId : string) (r : ClientRequest) (h : Host)
  : Settled :=
  match getClientOrThrow serverId h with
  | inl _ =>
      match answer serverId r with
      | inl v => Fulfils v
      | inr t => Rejects t
      end
  | inr e => RejectsHost e
  end.

Definition callTool (serverId : string) (params : Js.value) (h : Host)
  : Settled :=
  forward serverId (CallToolRequest params) h.

Definition readResource (serverId : string) (params : Js.value) (h : Host)
  : Settled :=
  forward serverId (ReadResourceRequest params) h.

Definition getPrompt (serverId : string) (params : Js.value) (h : Host)
  : Settled :=
  forward serverId (GetPromptRequest params) h.

(** The lookup is outside the [try]; what the client throws inside it
    is wrapped. *)
Definition subscribeToResource (serverId uri : string) (h : Host) : Settled :=
  match getClientOrThrow serverId h with
  | inl _ =>
      match answer serverId (SubscribeRequest uri) with
      | inl _ => Fulfils Js.Undefined
      | inr error =>
          RejectsHost
            (newMcpHostError mcpMessage
               ("Failed to subscribe to resource: " ++ describe error)%string
               SUBSCRIPTION_FAILED (Some serverId) (causeOf error))
      end
  | inr e => RejectsHost e
  end.

Definition unsubscribeFromResource (serverId uri : string) (h : Host)
  : Settled :=
  match getClientOrThrow serverId h with
  | inl _ =>
      match answer serverId (UnsubscribeRequest uri) with
      | inl _ => Fulfils Js.Undefined
      | inr error =>
          RejectsHost
            (newMcpHostError mcpMessage
               ("Failed to unsubscribe from resource: " ++ describe error)%string
               SUBSCRIPTION_FAILED (Some serverId) (causeOf error))
      end
  | inr e => RejectsHost e
  end.

End Sdk.

End Requests.

(* ================================================================== *)
(** * src/lib/core.ts: the configured servers and a connection attempt  *)
(* ================================================================== *)

Module Connecting.
Import Types Errors Core Api Requests.

(** A [ServerConfig]: its [id], its [transport], the [url] of the
    transports that have one ([""] otherwise); the other properties
    only reach the SDK. *)
Record ServerConfig := {
  sc_id : string;
  sc_transport : string;
  sc_url : string;
  sc_rest : Js.value
}.

(** One round of the constructor's [forEach]: a configuration whose
    id is already known is skipped. *)
Definition addConfig (acc : JsMap.t string ServerConfig) (c : ServerConfig)
  : JsMap.t string ServerConfig :=
  if JsMap.has (sc_id c) acc then acc else JsMap.set (sc_id c) c acc.

(** [serverConfigs] after the constructor ran over [config.servers]. *)
Definition serverConfigs (servers : list ServerConfig)
  : JsMap.t string ServerConfig :=
  fold_left addConfig servers JsMap.empty.

(** [getServerConfig] of the public API. *)
Definition getServerConfig (serverId : string) (servers : list ServerConfig)
  : option ServerConfig :=
  JsMap.get serverId (serverConfigs servers).

Section Attempt.

Variable mcpMessage : McpError -> string.
Variable stringOf : Js.value -> string.

(** [new URL(u)]: [None] when the URL is accepted, else the message
    of the [TypeError] thrown. *)
Variable urlError : string -> option string.

(** What a [catch] clause of the host receives: a value thrown by the
    SDK or the platform, or an [McpHostError] of the host's own. *)
Definition Caught : Type := (Thrown + McpHostError)%type.

(** The [switch] on the transport: [None] when a transport object was
    made, else what is thrown instead. *)
Definition makeTransport (conf : ServerConfig) : option Caught :=
  let serverId := sc_id conf in
  if (sc_transport conf =? "stdio")%string then None
  else if (sc_transport conf =? "sse")%string
          || (sc_transport conf =? "websocket")%string then
    match urlError (sc_url conf) with
    | None => None
    | Some msg => Some (inl (ThrownError msg))
    end
  else if (sc_transport conf =? "streamable-http")%string then
    Some (inr (newMcpHostError mcpMessage
                 ("Failed to load StreamableHttpClientTransport module: "
                  ++ "StreamableHttpClientTransport is not yet available in the current SDK version. "
                  ++ "Please check for updates to @modelcontextprotocol/sdk package.")%string
                 INVALID_TRANSPORT (Some serverId) None))
  else
    Some (inr (newMcpHostError mcpMessage
                 ("Unsupported transport type: " ++ sc_transport conf)%string
                 INVALID_TRANSPORT (Some serverId) None)).

(** [error instanceof Error ? error : new Error(String(error))] *)
Definition asError (error : Thrown) : Thrown :=
  match error with
  | ThrownOther v => ThrownError (stringOf v)
  | _ => error
  end.

(** The wrapping of a caught value that is no [McpHostError]. *)
Definition connectionFailed (serverId : string) (error : Thrown)
  : McpHostError :=
  newMcpHostError mcpMessage
    ("Connection failed for " ++ serverId ++ ": "
     ++ describe mcpMessage stringOf error)%string
    CONNECTION_FAILED (Some serverId) (Some (asError error)).

(** Whether [error.message] can be read: it cannot of [null] and
    [undefined]. *)
Definition readable (error : Thrown) : bool :=
  match error with
  | ThrownOther Js.Null | ThrownOther Js.Undefined => false
  | _ => true
  end.

(** The payload of the ["serverError"] event that the [catch] of
    [connectToServer] emits, if it emits one.  The clause first logs
    [error.message], which throws when that cannot be read: nothing is
    emitted then.  A host error whose [serverId] is falsy gets the id
    assigned and is not emitted. *)
Definition emitted (serverId : string) (caught : Caught)
  : option McpHostError :=
  match caught with
  | inr e =>
      match he_serverId e with
      | Some sid => if (sid =? "")%string then None else Some e
      | None => None
      end
  | inl error =>
      if readable error then Some (connectionFailed serverId error)
      else None
  end.

(** [connectToServer] from its first line: the host afterwards and
    the ["serverError"] emitted.  [connectResult] is how
    [client.connect(transport)] ends, [None] when it resolves; the
    constructors and registrations of the SDK before it do not throw. *)
Definition attempt (conf : ServerConfig) (client : Client)
           (connectResult : option Thrown) (h : Host)
  : Host * option McpHostError :=
  let caught :=
    match makeTransport conf with
    | Some c => Some c
    | None =>
        match connectResult with
        | Some error => Some (inl error)
        | None => None
        end
    end in
  match caught with
  | Some c => (h, emitted (sc_id conf) c)
  | None => (connectToServer (sc_id conf) client h, None)
  end.

End Attempt.

End Connecting.

(* ================================================================== *)
(** * The API server: configuration, authentication, calls on the host  *)
(* ================================================================== *)

Module Gateway.
Import Types ApiServer.

(** ** Configuration *)

Record McpHostConfig := {
  cfg_hostInfo : Js.value;
  cfg_hostCapabilities : Js.value;
  cfg_servers : Js.value
}.

Definition defaultConfig : McpHostConfig :=
  {| cfg_hostInfo := Js.Obj [("name", Js.Str "OMCPH API Host");
                             ("version", Js.Str "0.1.0")];
     cfg_hostCapabilities :=
       Js.Obj [("sampling", Js.Obj []);
               ("roots", Js.Obj [("listChanged", Js.Bool true)])];
     cfg_servers := Js.Arr [] |}.

(** [loadConfig].  [configPath] is [OMCPH_CONFIG_PATH]; [readConfig p]
    is [JSON.parse(fs.readFileSync(p, "utf8"))], [None] when either
    call throws.  Reading a property of [null] throws as well. *)
Definition loadConfig (configPath : option string)
           (readConfig : string -> option Js.value) : McpHostConfig :=
  match configPath with
  | None => defaultConfig
  | Some p =>
      if (p =? "")%string then defaultConfig
      else
        match readConfig p with
        | None | Some Js.Null | Some Js.Undefined => defaultConfig
        | Some fileConfig =>
            {| cfg_hostInfo :=
                 Core.orElse (Js.get fileConfig "hostInfo")
                             (cfg_hostInfo defaultConfig);
               cfg_hostCapabilities :=
                 Core.orElse (Js.get fileConfig "hostCapabilities")
                             (cfg_hostCapabilities defaultConfig);
               cfg_servers :=
                 Core.orElse (Js.get fileConfig "servers") (Js.Arr []) |}
        end
  end.

(** ** Authentication *)

Record AuthEnv := {
  OMCPH_API_KEYS : option string;
  OMCPH_AUTH_REQUIRED : option string
}.

(** [new Set(process.env.OMCPH_API_KEYS
             ? process.env.OMCPH_API_KEYS.split(",") : [])] *)
Definition apiKeys (env : AuthEnv) : list string :=
  match OMCPH_API_KEYS env with
  | Some v =>
      if (v =? "")%string then []
      else fold_left (fun acc k => UriUtils.setAdd k acc) (Str.split "," v) []
  | None => []
  end.

(** [process.env.OMCPH_AUTH_REQUIRED !== "false" && apiKeys.size > 0] *)
Definition authRequired (env : AuthEnv) : bool :=
  negb match OMCPH_AUTH_REQUIRED env with
       | Some v => (v =? "false")%string
       | None => false
       end
  && (0 <? List.length (apiKeys env))%nat.

Definition unauthorized : HttpResponse :=
  Json 401 (ErrorBody "unauthorized" "Invalid or missing API key").

(** [!apiKey || !apiKeys.has(apiKey)], negated. *)
Definition validKey (env : AuthEnv) (apiKey : option string) : bool :=
  match apiKey with
  | Some k => negb (k =? "")%string && existsb (String.eqb k) (apiKeys env)
  | None => false
  end.

(** The middleware [authenticate]: [None] is [next()], [Some r] the
    answer it sends.  [apiKey] is the [x-api-key] header. *)
Definition authenticate (env : AuthEnv) (apiKey : option string)
  : option HttpResponse :=
  if negb (authRequired env) then None
  else if validKey env apiKey then None
  else Some unauthorized.

(** [queryApiKey || headerApiKey] *)
Definition wsApiKey (queryApiKey headerApiKey : option string)
  : option string :=
  match queryApiKey with
  | Some q => if (q =? "")%string then headerApiKey else Some q
  | None => headerApiKey
  end.

(** Whether [wss.on("connection")] keeps the socket: [false] is the
    branch that sends the error and closes with 1008. *)
Definition wsAccepted (env : AuthEnv) (queryApiKey headerApiKey : option string)
  : bool :=
  if authRequired env then validKey env (wsApiKey queryApiKey headerApiKey)
  else true.

(** ** The host behind the router *)

Section Sdk.

Variable mcpMessage : McpError -> string.
Variable stringOf : Js.value -> string.
Variable answer : string -> Requests.ClientRequest -> Js.value + Thrown.

(** How an awaited promise of the host ends for the router: an
    [McpHostError] is an [Error] and no [McpError]. *)
Definition settle (r : Requests.Settled) : CallOutcome :=
  match r with
  | Requests.Fulfils v => CallReturns v
  | Requests.Rejects t => CallThrows t
  | Requests.RejectsHost e => CallThrows (ThrownError (he_message e))
  end.

(** [methodParts[i]] as a property value. *)
Definition part (x : option string) : Js.value :=
  match x with Some v => Js.Str v | None => Js.Undefined end.

(** The three calls of the router on the host [h]; a missing
    [methodParts[1]] is [undefined], which names no client. *)
Definition callOnHost (h : Core.Host) (c : HostCall) : CallOutcome :=
  let missing :=
    CallThrows (ThrownError
                  (he_message (Requests.serverNotFound mcpMessage None))) in
  match c with
  | CallTool (Some serverId) toolName arguments =>
      settle (Requests.callTool mcpMessage answer serverId
                (Js.Obj [("name", part toolName); ("arguments", arguments)]) h)
  | ReadResource (Some serverId) params =>
      settle (Requests.readResource mcpMessage answer serverId params h)
  | GetPrompt (Some serverId) params =>
      settle (Requests.getPrompt mcpMessage answer serverId params h)
  | _ => missing
  end.

Definition hostView (config : McpHostConfig) (h : Core.Host) : HostView :=
  {| hostCapabilities := cfg_hostCapabilities config;
     hostInfo := cfg_hostInfo config;
     hostState := h;
     hostCall := callOnHost h |}.

End Sdk.

End Gateway.

(* ================================================================== *)
(** * The API server: host events sent to the WebSockets                *)
(* ================================================================== *)

Module Broadcasts.
Import Types ApiServer.

(** [connection.subscriptions.has(topic)] *)
Definition subscribed (topic : string) (p : Peer) : bool :=
  existsb (String.eqb topic) (subscriptions (connection p)).

(** The test of the ["resourceUpdated"] relay on one connection. *)
Definition wantsResource (serverId uri : string) (p : Peer) : bool :=
  subscribed "resources" p
  || subscribed ("resource:" ++ uri) p
  || subscribed ("server:" ++ serverId) p.

(** [host.on("resourceUpdated", (serverId, uri) => ...)]: the sockets
    the loop over [activeConnections.entries()] sends the message to. *)
Definition resourceUpdatedRecipients (serverId uri : string) (s : Server)
  : list Uuid :=
  filter (fun ws =>
            match JsMap.get ws (peers s) with
            | Some p => wantsResource serverId uri p && isOpen p
            | None => false
            end)
         (activeConnections s).

End Broadcasts.

(* ================================================================== *)
(** * Properties of the resolver                                        *)
(* ================================================================== *)

Module UriUtilsFacts.
Import Types UriUtils.

(** Non-increasing confidence: every entry is at least as confident
    as all entries after it. *)
Definition nonIncreasing (l : list ServerSuggestion) : Prop :=
  StronglySorted (fun a b => (confidence b <= confidence a)%Q) l.

Lemma before_true (a b : ServerSuggestion) :
  before a b = true <-> (confidence b <= confidence a)%Q.
Proof. unfold before. apply Qle_bool_iff. Qed.

Lemma before_false (a b : ServerSuggestion) :
  before a b = false -> (confidence a <= confidence b)%Q.
Proof.
  intros Hf. destruct (Qlt_le_dec (confidence a) (confidence b)) as [Hlt | Hle].
  - now apply Qlt_le_weak.
  - apply before_true in Hle. congruence.
Qed.

Lemma insertByConfidence_In x l y :
  In y (insertByConfidence x l) -> y = x \/ In y l.
Proof.
  induction l as [| z rest IH]; simpl.
  - intros [<- | []]. now left.
  - destruct (before z x).
    + intros [<- | Hin]; [right; now left |].
      destruct (IH Hin) as [-> | Hin']; [now left | right; now right].
    + intros [<- | Hin]; [now left | now right].
Qed.

Lemma insertByConfidence_sorted x l :
  nonIncreasing l -> nonIncreasing (insertByConfidence x l).
Proof.
  unfold nonIncreasing.
  induction l as [| z rest IH]; simpl; intros Hs.
  - constructor; [constructor | constructor].
  - inversion Hs as [| ? ? Hrest Hall]; subst.
    destruct (before z x) eqn:Hb.
    + constructor; [now apply IH |].
      apply Forall_forall. intros y Hy.
      apply insertByConfidence_In in Hy. destruct Hy as [-> | Hy].
      * now apply before_true.
      * rewrite Forall_forall in Hall. now apply Hall.
    + apply before_false in Hb.
      constructor; [assumption |].
      constructor; [assumption |].
      rewrite Forall_forall in Hall |- *. intros y Hy.
      eapply Qle_trans; [apply Hall, Hy | exact Hb].
Qed.

Lemma fold_insert_sorted l acc :
  nonIncreasing acc ->
  nonIncreasing (fold_left (fun a x => insertByConfidence x a) l acc).
Proof.
  revert acc. induction l as [| x rest IH]; simpl; intros acc Hacc.
  - exact Hacc.
  - apply IH. now apply insertByConfidence_sorted.
Qed.

Lemma sortByConfidence_sorted l : nonIncreasing (sortByConfidence l).
Proof. apply fold_insert_sorted. constructor. Qed.

(** The sort is stable: entries of equal confidence keep their order. *)
Lemma insertByConfidence_last x l :
  Forall (fun y => before y x = true) l ->
  insertByConfidence x l = l ++ [x].
Proof.
  induction 1 as [| y rest Hy _ IH]; simpl; [reflexivity |].
  now rewrite Hy, IH.
Qed.

Lemma fold_insert_constant (c : Q) l acc :
  Forall (fun y => confidence y = c) acc ->
  Forall (fun y => confidence y = c) l ->
  fold_left (fun a x => insertByConfidence x a) l acc = acc ++ l.
Proof.
  revert acc. induction l as [| x rest IH]; simpl; intros acc Hacc Hl.
  - now rewrite app_nil_r.
  - inversion Hl as [| ? ? Hx Hrest]; subst.
    rewrite insertByConfidence_last.
    + rewrite IH; [now rewrite <- app_assoc | | assumption].
      apply Forall_app. split; [assumption | now constructor].
    + eapply Forall_impl; [| exact Hacc]. simpl. intros y Hy.
      apply before_true. rewrite Hy. apply Qle_refl.
Qed.

Lemma sortByConfidence_constant (c : Q) l :
  Forall (fun y => confidence y = c) l -> sortByConfidence l = l.
Proof.
  intros H. unfold sortByConfidence.
  now rewrite (fold_insert_constant c) by (constructor || assumption).
Qed.

Definition isExactEntry (x : ServerSuggestion) : Prop :=
  matchType x = exact /\ confidence x = 1%Q.

Lemma exactMatches_exact uri resources :
  Forall isExactEntry (exactMatches uri resources).
Proof.
  unfold exactMatches. apply Forall_forall. intros x Hx.
  apply in_map_iff in Hx. destruct Hx as [r [<- _]]. now split.
Qed.

Lemma exactMatches_nonempty uri (resources : list AggregatedResource) :
  existsb (fun r => (resource_uri (item r) =? uri)%string) resources = true ->
  (0 <? List.length (exactMatches uri resources))%nat = true.
Proof.
  unfold exactMatches. induction resources as [| r rest IH]; simpl.
  - discriminate.
  - destruct (resource_uri (item r) =? uri)%string; simpl; [reflexivity |].
    exact IH.
Qed.

Lemma exactMatches_empty uri (resources : list AggregatedResource) :
  (0 <? List.length (exactMatches uri resources))%nat = false ->
  existsb (fun r => (resource_uri (item r) =? uri)%string) resources = false.
Proof.
  intros H.
  match goal with |- ?e = false => destruct e eqn:He end; [| reflexivity].
  apply exactMatches_nonempty in He. congruence.
Qed.

Section Ranking.

Variable regexTest : string -> string -> option bool.

Lemma templateMatches_None uri templates :
  templateMatches regexTest uri templates = None ->
  exists t, In t templates /\
            canMatchTemplate regexTest uri (template_uriTemplate (item t)) = None.
Proof.
  induction templates as [| t rest IH]; simpl; [discriminate |].
  destruct (template_uriTemplate (item t) =? "")%string.
  - intros H. destruct (IH H) as [t' [Hin Ht']]. exists t'. auto.
  - destruct (canMatchTemplate regexTest uri (template_uriTemplate (item t)))
      as [hit |] eqn:Hc.
    + destruct (templateMatches regexTest uri rest) eqn:Hr; [discriminate |].
      intros _. destruct (IH eq_refl) as [t' [Hin Ht']]. exists t'. auto.
    + intros _. exists t. auto.
Qed.

(** X24.  Resolver ranking.  Whenever [resolveResourceServer]
    returns, the list is sorted by non-increasing confidence.  If some
    resource has exactly the target URI it does return, and the list
    is the exact entries alone (match type [exact], confidence 1), one
    per matching resource in their order, with no template or scheme
    entry.  It throws only when no resource matches exactly and the
    regular-expression engine rejects the pattern built from one of
    the templates. *)
Theorem resolveResourceServer_ranking uri resources templates :
  match resolveResourceServer regexTest uri resources templates with
  | Some results =>
      nonIncreasing results
      /\ (existsb (fun r => (resource_uri (item r) =? uri)%string) resources
          = true ->
          results = exactMatches uri resources
          /\ Forall isExactEntry results
          /\ List.length results
             = List.length
                 (filter (fun r => (resource_uri (item r) =? uri)%string)
                         resources))
  | None =>
      existsb (fun r => (resource_uri (item r) =? uri)%string) resources
      = false
      /\ exists t, In t templates /\
           canMatchTemplate regexTest uri (template_uriTemplate (item t))
           = None
  end.
Proof.
  unfold resolveResourceServer.
  destruct (0 <? List.length (exactMatches uri resources))%nat eqn:Hex.
  - split; [apply sortByConfidence_sorted |].
    intros _.
    assert (Hc : Forall (fun y => confidence y = 1%Q)
                        (exactMatches uri resources)).
    { eapply Forall_impl; [| apply exactMatches_exact].
      intros a [_ Ha]. exact Ha. }
    rewrite (sortByConfidence_constant _ _ Hc).
    split; [reflexivity |]. split; [apply exactMatches_exact |].
    unfold exactMatches. apply length_map.
  - apply exactMatches_empty in Hex.
    destruct (templateMatches regexTest uri templates) as [found |] eqn:Ht.
    + split; [apply sortByConfidence_sorted |].
      intros Habs. congruence.
    + split; [assumption |]. now apply templateMatches_None.
Qed.

End Ranking.

(** A template whose literal text is not a regular expression. *)
Definition starTemplate : AggregatedResourceTemplate :=
  {| Types.serverId := "T";
     item := {| template_id := "all"; template_name := "all";
                template_uriTemplate := "x://**";
                template_rest := Js.Null |} |}.

(** C5.  The code does not return a list for every input.  For the
    target [x://a], no resource and the one template [x://**], which
    has no placeholder, [canMatchTemplate] hands the pattern
    [^x://**$] to [new RegExp]; the pattern has a [*] with nothing to
    repeat, the constructor throws, and the [SyntaxError] leaves
    [resolveResourceServer] whatever the engine answers on other
    patterns. *)
Theorem resolveResourceServer_throws :
  replacePlaceholders "x://**" None = "x://**"
  /\ nothingToRepeat "^x://**$" = true
  /\ exactMatches "x://a" [] = []
  /\ forall engine,
       canMatchTemplate (regExp engine) "x://a" "x://**" = None
       /\ resolveResourceServer (regExp engine) "x://a" [] [starTemplate]
          = None.
Proof.
  split; [reflexivity |]. split; [reflexivity |]. split; [reflexivity |].
  intros engine. split; reflexivity.
Qed.

End UriUtilsFacts.

(* ================================================================== *)
(** * Properties of the host: sampling handler, roots, aggregation      *)
(* ================================================================== *)

Module HostFacts.
Import Types Core Api.

(** C10.  With a simplified handler installed, the callback receives:
    for a returned result, a message with role "assistant", content
    [{type: "text", text: result.content}], the result's model or
    "unknown" when it is absent, its stop reason or "endTurn" when it
    is absent, and its usage; a returned [McpError] unchanged; a thrown
    [McpError] unchanged; and for anything else thrown an [McpError]
    with code [InternalError]. *)
Theorem samplingListener_adapts (handler : SimplifiedSamplingHandler)
        (serverId : string) (request : Js.value) :
  match handler serverId request with
  | Returns r =>
      exists m,
        samplingListener (Some handler) serverId request = Message m
        /\ cm_role m = "assistant"
        /\ cm_content m = {| type := "text"; text := content r |}
        /\ cm_model m = (if Js.truthy (model r) then model r
                         else Js.Str "unknown")
        /\ cm_stopReason m = (if Js.truthy (stopReason r) then stopReason r
                              else Js.Str "endTurn")
        /\ cm_usage m = usage r
        /\ (model r = Js.Undefined -> cm_model m = Js.Str "unknown")
        /\ (stopReason r = Js.Undefined -> cm_stopReason m = Js.Str "endTurn")
  | ReturnsError e =>
      samplingListener (Some handler) serverId request = Failure e
  | Throws (ThrownMcpError e) =>
      samplingListener (Some handler) serverId request = Failure e
  | Throws _ =>
      exists e,
        samplingListener (Some handler) serverId request = Failure e
        /\ code e = ErrorCode.InternalError
        /\ data e = serverIdData serverId
  end.
Proof.
  unfold samplingListener.
  destruct (handler serverId request) as [r | e | [e | msg | v]].
  - eexists. split; [reflexivity |]. simpl. unfold orElse.
    repeat split; try reflexivity.
    + intros ->. reflexivity.
    + intros ->. reflexivity.
  - reflexivity.
  - reflexivity.
  - eexists. repeat split.
  - eexists. repeat split.
Qed.

(** C2.  After [setRoots] was called with an array [r], whether its
    promise resolves or rejects with the aggregate of the per-server
    failures, [getCurrentRoots] answers [r]; those two are the only
    ways the call ends. *)
Theorem setRoots_roots_visible (mcpMessage : McpError -> string)
        (r : list Js.value) (h : Host) :
  getCurrentRoots (host (setRoots mcpMessage (Js.Arr r) h)) = r
  /\ (result (setRoots mcpMessage (Js.Arr r) h) = Resolved
      \/ exists errors msg,
           result (setRoots mcpMessage (Js.Arr r) h) = RejectedAggregate errors msg
           /\ errors <> []
           /\ Forall (fun e => he_code e = ROOTS_UPDATE_FAILED) errors).
Proof.
  unfold setRoots.
  destruct (notifyAll mcpMessage (JsMap.entries (clients (setCurrentRoots r h))))
    as [sent errors] eqn:Hn.
  simpl. split; [reflexivity |].
  destruct errors as [| e rest]; simpl; [now left |].
  right. exists (e :: rest). eexists. split; [reflexivity |].
  split; [discriminate |].
  assert (Hall : forall cs, Forall (fun e => he_code e = ROOTS_UPDATE_FAILED)
                                   (snd (notifyAll mcpMessage cs))).
  { induction cs as [| [sid c] cs IH]; simpl; [constructor |].
    destruct (notifyAll mcpMessage cs) as [s' e'] eqn:Hcs. simpl in IH.
    destruct (wantsRoots c); [| exact IH].
    destruct (sendRootsListChanged c); simpl; [| exact IH].
    constructor; [reflexivity | exact IH]. }
  specialize (Hall (JsMap.entries (clients (setCurrentRoots r h)))).
  now rewrite Hn in Hall.
Qed.

(** ** Aggregation across servers *)

Definition toolClient (names : list string) : Client :=
  {| getServerCapabilities :=
       Some {| cap_tools := true; cap_resources := false;
               cap_resources_templates := false; cap_prompts := false;
               cap_roots_listChanged := false |};
     listTools :=
       Some (map (fun n => {| tool_name := n; tool_rest := Js.Null |}) names);
     listResources := None;
     listResourceTemplates := None;
     listPrompts := None;
     sendRootsListChanged := None |}.

(** C4 at servers ["a"] and ["a/b"]: the tool ["b/c"] of the first
    and the tool ["c"] of the second get the same key ["a/b/c"].
    With both connected only the second server's tool is listed, and
    once the second disconnects no tool is listed although the first
    is still connected and lists one. *)
Theorem aggregation_key_collision :
  let hA := connectToServer "a" (toolClient ["b/c"]) newHost in
  let hAB := connectToServer "a/b" (toolClient ["c"]) hA in
  getTools hA
  = [{| serverId := "a"; item := {| tool_name := "b/c"; tool_rest := Js.Null |} |}]
  /\ getTools hAB
     = [{| serverId := "a/b"; item := {| tool_name := "c"; tool_rest := Js.Null |} |}]
  /\ getTools (handleServerDisconnection "a/b" hAB) = []
  /\ JsMap.has "a" (clients (handleServerDisconnection "a/b" hAB)) = true.
Proof. vm_compute. repeat split. Qed.

End HostFacts.

(* ================================================================== *)
(** * Properties of the HTTP endpoints                                  *)
(* ================================================================== *)

Module EndpointFacts.
Import Types ApiServer.

(** ** Roots validation *)

(** A non-null array of objects with a string [uri] and a string
    [name]. *)
Definition wellFormedRoots (v : Js.value) : bool :=
  match v with
  | Js.Arr roots => forallb isRoot roots
  | _ => false
  end.

Definition malformedRoots : Js.value :=
  Js.Arr [Js.Obj [("uri", Js.Num 42)]].

(** C7 as stated fails: an array whose element has no string [uri]
    and no [name] is not rejected by [setRoots]; the promise resolves
    and the array becomes the current roots. *)
Lemma setRoots_accepts_malformed_elements :
  wellFormedRoots malformedRoots = false
  /\ Api.result (Api.setRoots message malformedRoots Core.newHost) = Api.Resolved
  /\ Api.getCurrentRoots (Api.host (Api.setRoots message malformedRoots Core.newHost))
     = [Js.Obj [("uri", Js.Num 42)]]
  /\ Api.getCurrentRoots (Api.host (Api.setRoots message malformedRoots Core.newHost))
     <> Api.getCurrentRoots Core.newHost.
Proof. vm_compute. repeat split. discriminate. Qed.

(** C7, amended.  [setRoots] rejects every input that is not an array
    with a [ROOTS_UPDATE_FAILED] host error, changing nothing and
    notifying no server.  The check of the elements is the HTTP
    endpoint's: [POST /config/roots] answers 400 to every body that is
    not a well-formed roots array, and then [setRoots] is not called,
    the host is unchanged and no server is notified. *)
Theorem setRoots_input_validation (mcpMessage : McpError -> string)
        (v : Js.value) (h : Core.Host) :
  (Js.isArray v = false ->
   Api.host (Api.setRoots mcpMessage v h) = h
   /\ Api.notified (Api.setRoots mcpMessage v h) = []
   /\ exists e, Api.result (Api.setRoots mcpMessage v h) = Api.RejectedHostError e
                /\ he_code e = ROOTS_UPDATE_FAILED)
  /\ (wellFormedRoots v = false ->
      exists m, postConfigRoots mcpMessage v h
                = (h, [], Json 400 (ErrorBody "invalid_roots" m))).
Proof.
  split.
  - intros Hv. destruct v; try discriminate; simpl;
      (split; [reflexivity | split; [reflexivity |]]);
      eexists; split; reflexivity.
  - intros Hv. unfold postConfigRoots, validateRoots.
    destruct v; try (eexists; reflexivity).
    simpl in Hv. rewrite Hv. eexists; reflexivity.
Qed.

Lemma setRoots_input_validation_witness :
  (Api.host (Api.setRoots message Js.Null Core.newHost) = Core.newHost
   /\ Api.notified (Api.setRoots message Js.Null Core.newHost) = []
   /\ exists e, Api.result (Api.setRoots message Js.Null Core.newHost)
                = Api.RejectedHostError e
                /\ he_code e = ROOTS_UPDATE_FAILED)
  /\ exists m, postConfigRoots message malformedRoots Core.newHost
               = (Core.newHost, [], Json 400 (ErrorBody "invalid_roots" m)).
Proof.
  split.
  - apply (proj1 (setRoots_input_validation message Js.Null Core.newHost)).
    reflexivity.
  - apply (proj2 (setRoots_input_validation message malformedRoots Core.newHost)).
    reflexivity.
Defined.

(** ** Status of [POST /mcp] *)

(** [Array.isArray(body) ? body.some(isRequest) : isRequest(body)] *)
Definition containsRequest (body : Js.value) : bool :=
  match body with
  | Js.Arr messages => existsb isRequest messages
  | _ => isRequest body
  end.

(** The guard [preferSSE && sessionId] of the streaming branch. *)
Definition upgradesToSSE (req : PostRequest) : bool :=
  preferSSE (post_acceptsSSE req) (post_body req)
  && match post_sessionId req with Some _ => true | None => false end.

Lemma processSingleMessage_request hv sid now m s :
  isRequest m = true ->
  exists r, snd (processSingleMessage hv sid now m s) = Some r.
Proof.
  intros Hm. unfold processSingleMessage. rewrite Hm. simpl.
  destruct (methodOf m =? "initialize")%string.
  - destruct sid; [eexists; reflexivity |].
    destruct (createSession now s). eexists; reflexivity.
  - destruct sid as [sid |]; [| eexists; reflexivity].
    destruct (getSession sid now s) as [s' [o |]]; eexists; reflexivity.
Qed.

Lemma processAll_request hv sid now ms s :
  existsb isRequest ms = true ->
  validOnly (snd (processAll hv sid now ms s)) <> [].
Proof.
  revert s. induction ms as [| m rest IH]; simpl; intros s H; [discriminate |].
  destruct (processSingleMessage hv sid now m s) as [s1 r] eqn:H1.
  destruct (processAll hv sid now rest s1) as [s2 rs] eqn:H2.
  simpl. destruct (isRequest m) eqn:Hm.
  - destruct (processSingleMessage_request hv sid now m s Hm) as [r' Hr'].
    rewrite H1 in Hr'. simpl in Hr'. subst r. simpl. discriminate.
  - simpl in H. specialize (IH s1 H). rewrite H2 in IH. simpl in IH.
    destruct r; simpl; [discriminate | exact IH].
Qed.


Definition quietHost : HostView :=
  {| hostCapabilities := Js.Obj [];
     hostInfo := Js.Obj [];
     hostState := Core.newHost;
     hostCall := fun _ => CallReturns Js.Null |}.

Definition initializeRequest : PostRequest :=
  {| post_sessionId := None;
     post_acceptsSSE := false;
     post_body := Js.Obj [("jsonrpc", Js.Str "2.0"); ("id", Js.Str "1");
                          ("method", Js.Str "initialize")];
     post_res := 1;
     post_now := 0 |}.


(** The responses of [postMcp], before the [null]s are dropped, and
    the server after they were computed. *)
Definition responsesOf (hv : HostView) (req : PostRequest) (s : Server)
  : list (option Response) :=
  match post_body req with
  | Js.Arr messages =>
      snd (processAll hv (post_sessionId req) (post_now req) messages s)
  | b => [snd (processSingleMessage hv (post_sessionId req) (post_now req) b s)]
  end.

Definition processed (hv : HostView) (req : PostRequest) (s : Server)
  : Server :=
  match post_body req with
  | Js.Arr messages =>
      fst (processAll hv (post_sessionId req) (post_now req) messages s)
  | b => fst (processSingleMessage hv (post_sessionId req) (post_now req) b s)
  end.

(** [postMcp] by cases on its guard. *)
Lemma postMcp_cases hv req s :
  snd (postMcp hv req s)
  = let valid := validOnly (responsesOf hv req s) in
    if upgradesToSSE req then
      match post_sessionId req with
      | Some sid =>
          match getSession sid (post_now req) (processed hv req s) with
          | (_, Some _) =>
              EventStream []
                (if (0 <? List.length valid)%nat
                 then Some (payloadOf (post_body req) valid) else None)
          | (_, None) => EventStream [] None
          end
      | None => Empty 202
      end
    else if negb (containsRequest (post_body req)) then Empty 202
    else if (List.length valid =? 0)%nat then Empty 204
    else Json 200 (RpcBody (payloadOf (post_body req) valid)).
Proof.
  destruct req as [sid acc body r now].
  unfold postMcp, upgradesToSSE, responsesOf, processed, containsRequest.
  simpl.
  remember (preferSSE acc body) as p eqn:Hp. clear Hp.
  assert (Hgo : forall (s1 : Server) (rs : list (option Response)) (c : bool),
    snd (match p, sid with
         | true, Some sid0 =>
             let (s2, o) := getSession sid0 now s1 in
             match o with
             | Some session =>
                 (mutateSession sid0
                    (withSseConnection
                       (Some {| res := r;
                                lastEventId := nextEventId session |})) s2,
                  EventStream []
                    (if (0 <? List.length (validOnly rs))%nat
                     then Some (payloadOf body (validOnly rs)) else None))
             | None => (s2, EventStream [] None)
             end
         | _, _ =>
             if negb c then (s1, Empty 202)
             else if (List.length (validOnly rs) =? 0)%nat
                  then (s1, Empty 204)
                  else (s1, Json 200 (RpcBody (payloadOf body (validOnly rs))))
         end)
    = if p && match sid with Some _ => true | None => false end then
        match sid with
        | Some sid0 =>
            match getSession sid0 now s1 with
            | (_, Some _) =>
                EventStream []
                  (if (0 <? List.length (validOnly rs))%nat
                   then Some (payloadOf body (validOnly rs)) else None)
            | (_, None) => EventStream [] None
            end
        | None => Empty 202
        end
      else if negb c then Empty 202
      else if (List.length (validOnly rs) =? 0)%nat then Empty 204
      else Json 200 (RpcBody (payloadOf body (validOnly rs)))).
  { intros s1 rs c. destruct p; destruct sid as [sid0 |]; simpl.
    - destruct (getSession sid0 now s1) as [s2 [o |]]; reflexivity.
    - destruct (negb c); [reflexivity |].
      destruct (List.length (validOnly rs) =? 0)%nat; reflexivity.
    - destruct (negb c); [reflexivity |].
      destruct (List.length (validOnly rs) =? 0)%nat; reflexivity.
    - destruct (negb c); [reflexivity |].
      destruct (List.length (validOnly rs) =? 0)%nat; reflexivity. }
  destruct body as [| | bb | n | str | items | props];
    try (destruct (processSingleMessage hv sid now _ s) as [s1 r1];
         cbv beta iota zeta; apply Hgo).
  destruct (processAll hv sid now items s) as [s1 rs].
  cbv beta iota zeta. apply Hgo.
Qed.

End EndpointFacts.

(* ================================================================== *)
(** * The broker on concrete runs                                       *)
(* ================================================================== *)

Module BrokerRuns.
Import Types ApiServer EndpointFacts.

Definition defaultEnv : Env :=
  {| OMCPH_SAMPLING_TIMEOUT_MS := None; OMCPH_SESSION_TIMEOUT_MS := None |}.

Definition shortTimeoutEnv : Env :=
  {| OMCPH_SAMPLING_TIMEOUT_MS := Some 5000%Z;
     OMCPH_SESSION_TIMEOUT_MS := None |}.

(** A session is initialised (it gets UUID 0), opens its event
    stream on response 7, and a sampling request (UUID 1) is handed
    to it. *)
Definition sessionWithRequest : list Input :=
  [PostMcp quietHost initializeRequest;
   GetMcp (Some 0%nat) None true 7 Js.Null false 10;
   SamplingRequest "srv" Js.Null false].

End BrokerRuns.

(* ================================================================== *)
(** * Invariants of the running server                                  *)
(* ================================================================== *)

Module ServerInvariants.
Import Types ApiServer.

(** ** Maps and stores *)

Section MapFacts.

Context {V : Type}.
Implicit Types (m : JsMap.t Uuid V) (k : Uuid).

Lemma get_set k k' (v : V) m :
  JsMap.get k (JsMap.set k' v m)
  = if Nat.eqb k k' then Some v else JsMap.get k m.
Proof.
  induction m as [| [k0 v0] rest IH]; simpl.
  - destruct (Nat.eqb_spec k k'); reflexivity.
  - destruct (Nat.eqb_spec k' k0) as [-> | Hne]; simpl.
    + destruct (Nat.eqb_spec k k0); reflexivity.
    + destruct (Nat.eqb_spec k k0) as [-> | Hne'].
      * destruct (Nat.eqb_spec k0 k'); [congruence | reflexivity].
      * exact IH.
Qed.

Lemma get_delete k k' m :
  JsMap.get k (JsMap.delete k' m)
  = if Nat.eqb k k' then None else JsMap.get k m.
Proof.
  unfold JsMap.delete.
  induction m as [| [k0 v0] rest IH]; simpl in *.
  - destruct (Nat.eqb k k'); reflexivity.
  - destruct (Nat.eqb_spec k' k0) as [-> | Hne]; simpl in *.
    + rewrite IH. destruct (Nat.eqb_spec k k0); reflexivity.
    + destruct (Nat.eqb_spec k k0) as [-> | Hne'].
      * destruct (Nat.eqb_spec k0 k'); [congruence | reflexivity].
      * exact IH.
Qed.

Lemma get_mutate k k' (f : V -> V) m :
  JsMap.get k (mutate k' f m)
  = match JsMap.get k m with
    | Some v => Some (if Nat.eqb k' k then f v else v)
    | None => None
    end.
Proof.
  unfold mutate.
  induction m as [| [k0 v0] rest IH]; simpl; [reflexivity |].
  destruct (Nat.eqb_spec k' k0) as [-> | Hne]; simpl.
  - destruct (Nat.eqb_spec k k0) as [-> | Hne'].
    + now rewrite Nat.eqb_refl.
    + exact IH.
  - destruct (Nat.eqb_spec k k0) as [-> | Hne'].
    + destruct (Nat.eqb_spec k' k0); [congruence | reflexivity].
    + exact IH.
Qed.

Lemma get_In k m (v : V) : JsMap.get k m = Some v -> In (k, v) m.
Proof.
  induction m as [| [k0 v0] rest IH]; simpl; [discriminate |].
  destruct (Nat.eqb_spec k k0) as [-> | Hne].
  - intros [= ->]. now left.
  - intros H. right. now apply IH.
Qed.

Lemma has_In k m : JsMap.has k m = true <-> In k (JsMap.keys m).
Proof.
  unfold JsMap.has, JsMap.keys.
  induction m as [| [k0 v0] rest IH]; simpl.
  - split; [discriminate | intros []].
  - destruct (Nat.eqb_spec k k0) as [-> | Hne].
    + split; [now left | reflexivity].
    + rewrite IH. split; [now right |]. intros [Heq | Hin]; [congruence | exact Hin].
Qed.

Lemma has_get k m :
  JsMap.has k m = match JsMap.get k m with Some _ => true | None => false end.
Proof. reflexivity. Qed.

Lemma keys_set_In k k' (v : V) m :
  In k (JsMap.keys (JsMap.set k' v m)) <-> k = k' \/ In k (JsMap.keys m).
Proof.
  rewrite <- !has_In, !has_get, get_set.
  destruct (Nat.eqb_spec k k') as [-> | Hne].
  - split; [now left | reflexivity].
  - split; [now right |]. intros [Heq | H]; [congruence | exact H].
Qed.

Lemma keys_set_NoDup k (v : V) m :
  NoDup (JsMap.keys m) -> NoDup (JsMap.keys (JsMap.set k v m)).
Proof.
  unfold JsMap.keys.
  induction m as [| [k0 v0] rest IH]; simpl; intros Hnd.
  - constructor; [intros [] | constructor].
  - inversion Hnd as [| ? ? Hnotin Hrest]; subst.
    destruct (Nat.eqb_spec k k0) as [-> | Hne]; simpl.
    + now constructor.
    + constructor; [| now apply IH].
      intros Hin. apply Hnotin.
      apply (keys_set_In k0 k v rest) in Hin.
      destruct Hin as [Heq | Hin]; [congruence | exact Hin].
Qed.

Lemma keys_delete_NoDup k m :
  NoDup (JsMap.keys m) -> NoDup (JsMap.keys (JsMap.delete k m)).
Proof.
  unfold JsMap.keys, JsMap.delete.
  induction m as [| [k0 v0] rest IH]; simpl; intros Hnd; [constructor |].
  inversion Hnd as [| ? ? Hnotin Hrest]; subst.
  destruct (Nat.eqb k k0); simpl; [now apply IH |].
  constructor; [| now apply IH].
  intros Hin. apply Hnotin.
  apply in_map_iff in Hin. destruct Hin as [[k1 v1] [Hk Hin]].
  apply filter_In in Hin. destruct Hin as [Hin _].
  apply in_map_iff. exists (k1, v1). split; assumption.
Qed.

Lemma In_set k k' (v v' : V) m :
  In (k, v) (JsMap.set k' v' m) -> (k = k' /\ v = v') \/ In (k, v) m.
Proof.
  induction m as [| [k0 v0] rest IH]; simpl.
  - intros [[= <- <-] | []]. now left.
  - destruct (Nat.eqb k' k0); simpl.
    + intros [[= <- <-] | Hin]; [now left | right; now right].
    + intros [Heq | Hin]; [right; now left |].
      destruct (IH Hin) as [H | H]; [now left | right; now right].
Qed.

Lemma In_delete k k' (v : V) m :
  In (k, v) (JsMap.delete k' m) -> In (k, v) m.
Proof. unfold JsMap.delete. intros H. now apply filter_In in H. Qed.

End MapFacts.

(** ** What is kept true of every stored object *)

(** A map of pending requests is a [Map] (no key twice) whose callback
    for a request is the one named by that request. *)
Definition okMap (m : JsMap.t Uuid Callback) : Prop :=
  NoDup (JsMap.keys m) /\ forall k cb, In (k, cb) m -> cb = k.

Definition okRequests (m : option (JsMap.t Uuid Callback)) : Prop :=
  match m with Some requests => okMap requests | None => True end.

(** The ids [start], [start + 1], ..., [n] of them. *)
Definition idsFrom (start : Z) (n : nat) : list Z :=
  map (fun i => (start + Z.of_nat i)%Z) (seq 0 n).

(** The queue of a session that has issued the ids [1] to
    [nextEventId - 1] holds the last [min 100 (nextEventId - 1)] of
    them, in order. *)
Definition queueInv (o : SessionState) : Prop :=
  (1 <= nextEventId o)%Z
  /\ List.length (eventQueue o) = Nat.min 100 (Z.to_nat (nextEventId o - 1))
  /\ map ev_id (eventQueue o)
     = idsFrom (nextEventId o - Z.of_nat (List.length (eventQueue o)))
               (List.length (eventQueue o)).

Definition sessionOk (o : SessionState) : Prop :=
  okRequests (samplingRequests o) /\ queueInv o.

Definition peerOk (p : Peer) : Prop :=
  okMap (conn_samplingRequests (connection p)).

(** Every stored object is well formed and was named by a UUID
    already drawn. *)
Definition StoreInv (s : Server) : Prop :=
  (forall sid o, JsMap.get sid (sessions s) = Some o ->
                 sessionOk o /\ sid < nextUuid s)
  /\ (forall ws p, JsMap.get ws (peers s) = Some p ->
                   peerOk p /\ ws < nextUuid s).

(** A later state of a session: ids issued in between are at or above
    the earlier [nextEventId]. *)
Definition extends (o o' : SessionState) : Prop :=
  (nextEventId o <= nextEventId o')%Z
  /\ forall e, In e (eventQueue o') ->
               In e (eventQueue o) \/ (nextEventId o <= ev_id e)%Z.

(** A later state of the server: objects stay, UUIDs and the call
    history only grow. *)
Definition Evolves (s s' : Server) : Prop :=
  nextUuid s <= nextUuid s'
  /\ (forall sid o, JsMap.get sid (sessions s) = Some o ->
        exists o', JsMap.get sid (sessions s') = Some o' /\ extends o o')
  /\ (exists more, calls s' = calls s ++ more).

(** ** The broker's bookkeeping *)

Definition pendingIn (m : option (JsMap.t Uuid Callback)) (r : Uuid) : bool :=
  match m with Some requests => JsMap.has r requests | None => false end.

(** Request [r] is registered in the object of [sink]. *)
Definition pendingAt (s : Server) (sink : Sink) (r : Uuid) : bool :=
  match sink with
  | SinkSession sid =>
      match JsMap.get sid (sessions s) with
      | Some o => pendingIn (samplingRequests o) r
      | None => false
      end
  | SinkPeer ws =>
      match JsMap.get ws (peers s) with
      | Some p => JsMap.has r (conn_samplingRequests (connection p))
      | None => false
      end
  end.

Definition armedFor (s : Server) (r : Uuid) (sink : Sink) : Prop :=
  exists t, In t (timers s) /\ timer_request t = r /\ timer_sink t = sink.

(** No callback is called twice; a registered request has not been
    answered and its timer is pending; a pending timer was armed with
    a delay of 300000 ms and belongs to a request that is still
    registered where the timer looks, or that has been answered
    once. *)
Definition BrokerInv (s : Server) : Prop :=
  (forall r, timesCalled r s <= 1)
  /\ (forall sink r, pendingAt s sink r = true ->
        timesCalled r s = 0 /\ armedFor s r sink)
  /\ NoDup (map timer_request (timers s))
  /\ (forall t, In t (timers s) ->
        (timer_callback t = timer_request t
         /\ timer_delay t = 300000%Z)
        /\ timer_request t < nextUuid s
        /\ (pendingAt s (timer_sink t) (timer_request t) = true
            \/ timesCalled (timer_request t) s = 1))
  /\ (forall c, In c (calls s) -> inv_callback c < nextUuid s).

(** The request's callback has been called, or its timer is pending. *)
Definition Settling (r : Uuid) (s : Server) : Prop :=
  timesCalled r s = 1 \/ In r (map timer_request (timers s)).

(** One input, or one part of its handling, keeps all of the above. *)
Definition Sound (s s' : Server) : Prop :=
  StoreInv s -> BrokerInv s ->
  StoreInv s' /\ BrokerInv s' /\ Evolves s s'
  /\ (forall r, Settling r s -> Settling r s').

(** ** Composition *)

Lemma extends_refl o : extends o o.
Proof. split; [lia | intros e He; now left]. Qed.

Lemma extends_trans o1 o2 o3 :
  extends o1 o2 -> extends o2 o3 -> extends o1 o3.
Proof.
  intros [Hn12 Hq12] [Hn23 Hq23]. split; [lia |].
  intros e He. destruct (Hq23 e He) as [Hin | Hge].
  - apply Hq12, Hin.
  - right. lia.
Qed.

Lemma Evolves_refl s : Evolves s s.
Proof.
  split; [lia |]. split.
  - intros sid o Ho. exists o. split; [exact Ho | apply extends_refl].
  - exists []. now rewrite app_nil_r.
Qed.

Lemma Evolves_trans s1 s2 s3 :
  Evolves s1 s2 -> Evolves s2 s3 -> Evolves s1 s3.
Proof.
  intros [Hn12 [Ho12 [m12 Hc12]]] [Hn23 [Ho23 [m23 Hc23]]].
  split; [lia |]. split.
  - intros sid o Ho. destruct (Ho12 sid o Ho) as [o2 [Ho2 He2]].
    destruct (Ho23 sid o2 Ho2) as [o3 [Ho3 He3]].
    exists o3. split; [exact Ho3 | eapply extends_trans; eassumption].
  - exists (m12 ++ m23). now rewrite Hc23, Hc12, app_assoc.
Qed.

Lemma Sound_refl s : Sound s s.
Proof.
  intros HS HB. split; [exact HS |]. split; [exact HB |].
  split; [apply Evolves_refl | auto].
Qed.

Lemma Sound_trans s1 s2 s3 : Sound s1 s2 -> Sound s2 s3 -> Sound s1 s3.
Proof.
  intros H12 H23 HS HB.
  destruct (H12 HS HB) as [HS2 [HB2 [HE2 HD2]]].
  destruct (H23 HS2 HB2) as [HS3 [HB3 [HE3 HD3]]].
  split; [exact HS3 |]. split; [exact HB3 |].
  split; [eapply Evolves_trans; eassumption | auto].
Qed.

(** ** Counting calls *)

Lemma timesCalled_app r s more :
  timesCalled r (withCalls (calls s ++ more) s)
  = timesCalled r s
    + List.length (filter (fun c => Nat.eqb (inv_callback c) r) more).
Proof. unfold timesCalled. simpl. now rewrite filter_app, length_app. Qed.

Lemma timesCalled_invoke r cb arg s :
  timesCalled r (invoke cb arg s)
  = timesCalled r s + (if Nat.eqb cb r then 1 else 0).
Proof.
  unfold invoke. rewrite timesCalled_app. simpl.
  destruct (Nat.eqb cb r); reflexivity.
Qed.

Lemma timesCalled_same r s s' :
  calls s' = calls s -> timesCalled r s' = timesCalled r s.
Proof. unfold timesCalled. now intros ->. Qed.

Lemma timesCalled_mono r s s' :
  Evolves s s' -> timesCalled r s <= timesCalled r s'.
Proof.
  intros [_ [_ [more Hc]]]. unfold timesCalled. rewrite Hc, filter_app, length_app.
  lia.
Qed.

Lemma timesCalled_fresh s r :
  BrokerInv s -> nextUuid s <= r -> timesCalled r s = 0.
Proof.
  intros [_ [_ [_ [_ HB5]]]] Hr. unfold timesCalled.
  induction (calls s) as [| c rest IH]; simpl; [reflexivity |].
  destruct (Nat.eqb_spec (inv_callback c) r) as [Heq | Hne].
  - specialize (HB5 c (or_introl eq_refl)). lia.
  - apply IH. intros c' Hc'. apply HB5. now right.
Qed.

(** ** Inputs that leave the broker's bookkeeping alone *)

Definition Neutral (s s' : Server) : Prop :=
  (forall sink r, pendingAt s' sink r = pendingAt s sink r)
  /\ timers s' = timers s
  /\ calls s' = calls s.

Lemma Sound_neutral s s' :
  (StoreInv s -> StoreInv s' /\ Evolves s s' /\ Neutral s s') ->
  Sound s s'.
Proof.
  intros H HS HB. destruct (H HS) as [HS' [HE [Hp [Ht Hc]]]].
  split; [exact HS' |]. split; [| split; [exact HE |]].
  - destruct HB as [B1 [B2 [B3 [B4 B5]]]].
    destruct HE as [Hn _].
    split; [| split; [| split; [| split]]].
    + intros r. rewrite (timesCalled_same r s s' Hc). apply B1.
    + intros sink r Hpend. rewrite Hp in Hpend.
      destruct (B2 sink r Hpend) as [Hz [t [Ht1 [Ht2 Ht3]]]].
      split; [now rewrite (timesCalled_same r s s' Hc) |].
      exists t. rewrite Ht. auto.
    + now rewrite Ht.
    + intros t Hin. rewrite Ht in Hin.
      destruct (B4 t Hin) as [Hcb [Hlt Hor]].
      split; [exact Hcb |]. split; [lia |].
      rewrite Hp, (timesCalled_same _ s s' Hc). exact Hor.
    + intros c Hin. rewrite Hc in Hin. specialize (B5 c Hin). lia.
  - intros r [H1 | H2]; [left | right].
    + now rewrite (timesCalled_same r s s' Hc).
    + now rewrite Ht.
Qed.

(** Updates of fields that no invariant reads. *)
Lemma Sound_same s s' :
  nextUuid s' = nextUuid s -> sessions s' = sessions s ->
  peers s' = peers s -> timers s' = timers s -> calls s' = calls s ->
  Sound s s'.
Proof.
  intros Hn Hs Hp Ht Hc. apply Sound_neutral. intros [HS1 HS2].
  split; [| split].
  - split.
    + intros sid o Ho. rewrite Hs in Ho. rewrite Hn. now apply HS1.
    + intros ws p Hpp. rewrite Hp in Hpp. rewrite Hn. now apply HS2.
  - split; [lia |]. split.
    + intros sid o Ho. exists o. rewrite Hs. split; [exact Ho | apply extends_refl].
    + exists []. now rewrite Hc, app_nil_r.
  - split; [| split; assumption].
    intros sink r. unfold pendingAt. now rewrite Hs, Hp.
Qed.

Lemma Sound_withActiveSessions l s : Sound s (withActiveSessions l s).
Proof. now apply Sound_same. Qed.

Lemma Sound_withActiveConnections l s : Sound s (withActiveConnections l s).
Proof. now apply Sound_same. Qed.

Lemma Sound_endResponse r s : Sound s (endResponse r s).
Proof. now apply Sound_same. Qed.

(** A field assignment on a session that keeps its pending requests. *)
Lemma Sound_mutateSession_quiet sid (f : SessionState -> SessionState) s :
  (forall o, samplingRequests (f o) = samplingRequests o) ->
  (forall o, queueInv o -> queueInv (f o)) ->
  (forall o, extends o (f o)) ->
  Sound s (mutateSession sid f s).
Proof.
  intros Hsame Hq Hext. apply Sound_neutral. intros [HS1 HS2].
  split; [| split].
  - split; [| exact HS2].
    intros k o Ho. simpl in Ho. rewrite get_mutate in Ho.
    destruct (JsMap.get k (sessions s)) as [o0 |] eqn:Hk; [| discriminate].
    injection Ho as <-. destruct (HS1 k o0 Hk) as [[Hok Hqi] Hlt].
    split; [| exact Hlt].
    destruct (Nat.eqb sid k); [| now split].
    split; [now rewrite Hsame | now apply Hq].
  - split; [simpl; lia |]. split.
    + intros k o Ho. simpl. rewrite get_mutate, Ho.
      eexists. split; [reflexivity |].
      destruct (Nat.eqb sid k); [apply Hext | apply extends_refl].
    + exists []. simpl. now rewrite app_nil_r.
  - split; [| split; reflexivity].
    intros [ws | k] r; simpl; [reflexivity |].
    rewrite get_mutate.
    destruct (JsMap.get k (sessions s)) as [o0 |]; [| reflexivity].
    destruct (Nat.eqb sid k); [now rewrite Hsame | reflexivity].
Qed.

(** A field assignment on a peer that keeps its pending requests. *)
Lemma Sound_mutatePeer_quiet ws (f : Peer -> Peer) s :
  (forall p, conn_samplingRequests (connection (f p))
             = conn_samplingRequests (connection p)) ->
  Sound s (mutatePeer ws f s).
Proof.
  intros Hsame. apply Sound_neutral. intros [HS1 HS2].
  split; [| split].
  - split; [exact HS1 |].
    intros k p Hp. simpl in Hp. rewrite get_mutate in Hp.
    destruct (JsMap.get k (peers s)) as [p0 |] eqn:Hk; [| discriminate].
    injection Hp as <-. destruct (HS2 k p0 Hk) as [Hok Hlt].
    split; [| exact Hlt].
    destruct (Nat.eqb ws k); [| exact Hok].
    unfold peerOk. now rewrite Hsame.
  - split; [simpl; lia |]. split.
    + intros k o Ho. exists o. split; [exact Ho | apply extends_refl].
    + exists []. simpl. now rewrite app_nil_r.
  - split; [| split; reflexivity].
    intros [k | sid] r; simpl; [| reflexivity].
    rewrite get_mutate.
    destruct (JsMap.get k (peers s)) as [p0 |]; [| reflexivity].
    destruct (Nat.eqb ws k); [now rewrite Hsame | reflexivity].
Qed.

(** ** The event queue *)

Lemma idsFrom_length a n : List.length (idsFrom a n) = n.
Proof. unfold idsFrom. now rewrite length_map, length_seq. Qed.

Lemma idsFrom_snoc a n :
  idsFrom a n ++ [(a + Z.of_nat n)%Z] = idsFrom a (S n).
Proof. unfold idsFrom. now rewrite seq_S, map_app. Qed.

Lemma idsFrom_cons a n :
  idsFrom a (S n) = a :: idsFrom (a + 1) n.
Proof.
  unfold idsFrom. simpl. f_equal; [lia |].
  rewrite <- seq_shift, map_map. apply map_ext. intros i. lia.
Qed.

Lemma idsFrom_In a n x :
  In x (idsFrom a n) -> (a <= x < a + Z.of_nat n)%Z.
Proof.
  unfold idsFrom. intros H. apply in_map_iff in H.
  destruct H as [i [<- Hi]]. apply in_seq in Hi. lia.
Qed.

Lemma idsFrom_sorted a n : StronglySorted Z.lt (idsFrom a n).
Proof.
  revert a. induction n as [| n IH]; intros a.
  - constructor.
  - rewrite idsFrom_cons. constructor; [apply IH |].
    apply Forall_forall. intros x Hx. apply idsFrom_In in Hx. lia.
Qed.

Lemma map_tl {A B : Type} (f : A -> B) (l : list A) :
  map f (tl l) = tl (map f l).
Proof. destruct l; reflexivity. Qed.

Lemma idsFrom_shift a n :
  tl (idsFrom a n ++ [(a + Z.of_nat n)%Z]) = idsFrom (a + 1) n.
Proof. now rewrite idsFrom_snoc, idsFrom_cons. Qed.

Local Arguments idsFrom : simpl never.
Local Arguments Nat.min : simpl never.
Local Arguments Z.sub : simpl never.
Local Arguments Z.add : simpl never.
Local Arguments Z.of_nat : simpl never.
Local Arguments Z.to_nat : simpl never.

Lemma queueInv_pushEvent eventName d o :
  queueInv o -> queueInv (pushEvent eventName d o).
Proof.
  unfold queueInv, pushEvent, enqueue. simpl.
  intros [H1 [Hlen Hids]].
  set (q := eventQueue o) in *. set (N := nextEventId o) in *.
  rewrite length_app. simpl.
  destruct (Nat.ltb_spec 100 (List.length q + 1)) as [Hfull | Hroom].
  - assert (Hq : List.length q = 100) by lia.
    assert (Hl : List.length (tl (q ++ [{| ev_id := N; ev_event := eventName;
                                           ev_data := d |}])) = 100).
    { destruct q as [| e0 q0]; [discriminate |]. simpl in *.
      rewrite length_app. simpl. lia. }
    split; [lia |]. split; [rewrite Hl; lia |].
    rewrite Hl, map_tl, map_app, Hids, Hq. cbn [map ev_id].
    replace (N - Z.of_nat 100)%Z with (N - 100)%Z by lia.
    replace [N] with [((N - 100) + Z.of_nat 100)%Z] by (f_equal; lia).
    rewrite idsFrom_shift. f_equal. lia.
  - split; [lia |]. rewrite length_app. simpl.
    split; [lia |].
    rewrite map_app, Hids. simpl.
    replace N with ((N - Z.of_nat (List.length q))
                    + Z.of_nat (List.length q))%Z at 2 by lia.
    rewrite idsFrom_snoc. f_equal; lia.
Qed.

Lemma extends_pushEvent eventName d o : extends o (pushEvent eventName d o).
Proof.
  unfold extends, pushEvent, enqueue. simpl. split; [lia |].
  intros e He.
  assert (Hin : In e (eventQueue o ++ [{| ev_id := nextEventId o;
                                          ev_event := eventName;
                                          ev_data := d |}])).
  { destruct (100 <? _)%nat; [| exact He].
    destruct (eventQueue o ++ _) as [| e0 rest]; [exact He | now right]. }
  apply in_app_or in Hin. destruct Hin as [Hin | [<- | []]].
  - now left.
  - right. simpl. lia.
Qed.

Lemma queueInv_facts o :
  queueInv o ->
  (List.length (eventQueue o) <= 100)%nat
  /\ StronglySorted Z.lt (map ev_id (eventQueue o))
  /\ Forall (fun e => (1 <= ev_id e < nextEventId o)%Z) (eventQueue o).
Proof.
  intros [H1 [Hlen Hids]]. split; [lia |]. split.
  - rewrite Hids. apply idsFrom_sorted.
  - apply Forall_forall. intros e He.
    assert (Hid : In (ev_id e) (map ev_id (eventQueue o))) by now apply in_map.
    rewrite Hids in Hid. apply idsFrom_In in Hid. lia.
Qed.

(** ** Handlers that only touch sessions, sockets and streams *)

Ltac quiet_session :=
  apply Sound_mutateSession_quiet;
  [ intros o; try reflexivity
  | intros o Hq; try exact Hq
  | intros o; try exact (extends_refl o) ].

Lemma Sound_touch sid now s :
  Sound s (mutateSession sid (withLastActivity now) s).
Proof. quiet_session. Qed.

Lemma Sound_setSse sid c s :
  Sound s (mutateSession sid (withSseConnection c) s).
Proof. quiet_session. Qed.

Lemma Sound_detach sid r s : Sound s (mutateSession sid (detach r) s).
Proof.
  quiet_session; unfold detach;
    destruct (sseConnection o) as [sse |]; try destruct (Nat.eqb (res sse) r);
    try reflexivity; try assumption; exact (extends_refl o).
Qed.

Lemma Sound_pushEvent sid eventName d s :
  Sound s (mutateSession sid (pushEvent eventName d) s).
Proof.
  quiet_session.
  - now apply queueInv_pushEvent.
  - apply extends_pushEvent.
Qed.

Lemma Sound_getSession sid now s : Sound s (fst (getSession sid now s)).
Proof.
  unfold getSession. destruct (activeSession s sid); simpl.
  - apply Sound_touch.
  - apply Sound_refl.
Qed.

Lemma Sound_sendEventToSession sid eventName d w s :
  Sound s (fst (sendEventToSession sid eventName d w s)).
Proof.
  unfold sendEventToSession. destruct (activeSession s sid) as [o |]; simpl.
  - destruct (sseConnection o); [destruct w |]; simpl;
      try apply Sound_pushEvent.
    eapply Sound_trans; [apply Sound_pushEvent | apply Sound_setSse].
  - apply Sound_refl.
Qed.

Lemma Sound_fold {A : Type} (f : Server -> A -> Server) (l : list A) s :
  (forall a x, Sound a (f a x)) -> Sound s (fold_left f l s).
Proof.
  intros Hf. revert s. induction l as [| x rest IH]; simpl; intros s.
  - apply Sound_refl.
  - eapply Sound_trans; [apply Hf | apply IH].
Qed.

Lemma Sound_broadcast eventName d w s : Sound s (broadcast eventName d w s).
Proof.
  unfold broadcast. apply Sound_fold. intros a x.
  apply Sound_sendEventToSession.
Qed.

Lemma queueInv_newSession sid now : queueInv (newSession sid now).
Proof. unfold queueInv. simpl. repeat split. lia. Qed.

Lemma okMap_empty : okMap JsMap.empty.
Proof. split; [constructor | intros k cb []]. Qed.

Lemma Sound_createSession now s : Sound s (fst (createSession now s)).
Proof.
  unfold createSession. simpl. apply Sound_neutral. intros [HS1 HS2].
  assert (Hfresh : JsMap.get (nextUuid s) (sessions s) = None).
  { destruct (JsMap.get (nextUuid s) (sessions s)) as [o |] eqn:Ho;
      [| reflexivity].
    destruct (HS1 _ _ Ho) as [_ Hlt]. lia. }
  split; [| split].
  - split; simpl.
    + intros k o Ho. rewrite get_set in Ho.
      destruct (Nat.eqb_spec k (nextUuid s)) as [-> | Hne].
      * injection Ho as <-. split; [| lia].
        split; [apply okMap_empty | apply queueInv_newSession].
      * destruct (HS1 k o Ho) as [Hok Hlt]. split; [exact Hok | lia].
    + intros k p Hp. destruct (HS2 k p Hp) as [Hok Hlt].
      split; [exact Hok | lia].
  - split; [simpl; lia |]. split; simpl.
    + intros k o Ho. exists o. split; [| apply extends_refl].
      rewrite get_set.
      destruct (Nat.eqb_spec k (nextUuid s)) as [-> | Hne];
        [exfalso; destruct (HS1 _ _ Ho) as [_ Hlt]; lia | exact Ho].
    + exists []. now rewrite app_nil_r.
  - split; [| split; reflexivity].
    intros [ws | k] r; simpl; [reflexivity |].
    rewrite get_set.
    destruct (Nat.eqb_spec k (nextUuid s)) as [-> | Hne]; [| reflexivity].
    now rewrite Hfresh.
Qed.

Lemma Sound_onWsConnection s : Sound s (fst (onWsConnection s)).
Proof.
  unfold onWsConnection. simpl. apply Sound_neutral. intros [HS1 HS2].
  assert (Hfresh : JsMap.get (nextUuid s) (peers s) = None).
  { destruct (JsMap.get (nextUuid s) (peers s)) as [p |] eqn:Hp;
      [| reflexivity].
    destruct (HS2 _ _ Hp) as [_ Hlt]. lia. }
  split; [| split].
  - split; simpl.
    + intros k o Ho. destruct (HS1 k o Ho) as [Hok Hlt].
      split; [exact Hok | lia].
    + intros k p Hp. rewrite get_set in Hp.
      destruct (Nat.eqb_spec k (nextUuid s)) as [-> | Hne].
      * injection Hp as <-. split; [apply okMap_empty | lia].
      * destruct (HS2 k p Hp) as [Hok Hlt]. split; [exact Hok | lia].
  - split; [simpl; lia |]. split; simpl.
    + intros k o Ho. exists o. split; [exact Ho | apply extends_refl].
    + exists []. now rewrite app_nil_r.
  - split; [| split; reflexivity].
    intros [k | sid] r; simpl; [| reflexivity].
    rewrite get_set.
    destruct (Nat.eqb_spec k (nextUuid s)) as [-> | Hne]; [| reflexivity].
    now rewrite Hfresh.
Qed.

Lemma Sound_onWsClose ws s : Sound s (onWsClose ws s).
Proof.
  unfold onWsClose.
  apply Sound_trans with (mutatePeer ws (withIsOpen false) s).
  - apply Sound_mutatePeer_quiet. reflexivity.
  - apply Sound_withActiveConnections.
Qed.

Lemma Sound_onWsClosing ws s : Sound s (onWsClosing ws s).
Proof. apply Sound_mutatePeer_quiet. reflexivity. Qed.

Lemma Sound_handleSubscribeMessage ws data s :
  Sound s (handleSubscribeMessage ws data s).
Proof.
  unfold handleSubscribeMessage.
  destruct (activeConnection s ws); [| apply Sound_refl].
  destruct (topicOf data); [| apply Sound_refl].
  apply Sound_mutatePeer_quiet. reflexivity.
Qed.

Lemma Sound_handleUnsubscribeMessage ws data s :
  Sound s (handleUnsubscribeMessage ws data s).
Proof.
  unfold handleUnsubscribeMessage.
  destruct (activeConnection s ws); [| apply Sound_refl].
  destruct (topicOf data); [| apply Sound_refl].
  apply Sound_mutatePeer_quiet. reflexivity.
Qed.

Lemma Sound_onGetClosed sid r s : Sound s (onGetClosed sid r s).
Proof. apply Sound_detach. Qed.

Lemma Sound_onPostClosed sid r now s : Sound s (onPostClosed sid r now s).
Proof.
  unfold onPostClosed.
  pose proof (Sound_getSession sid now s) as Hg.
  destruct (getSession sid now s) as [s1 [o |]]; simpl in Hg.
  - eapply Sound_trans; [exact Hg | apply Sound_detach].
  - exact Hg.
Qed.

(** ** Completing requests *)

Definition sink_eqb (a b : Sink) : bool :=
  match a, b with
  | SinkPeer x, SinkPeer y => Nat.eqb x y
  | SinkSession x, SinkSession y => Nat.eqb x y
  | _, _ => false
  end.

Lemma sink_eqb_spec a b : reflect (a = b) (sink_eqb a b).
Proof.
  destruct a as [x | x], b as [y | y]; simpl;
    try (constructor; discriminate);
    destruct (Nat.eqb_spec x y) as [-> | Hne]; constructor;
    congruence.
Qed.

Lemma NoDup_map_inj {A B : Type} (f : A -> B) (l : list A) a b :
  NoDup (map f l) -> In a l -> In b l -> f a = f b -> a = b.
Proof.
  induction l as [| x rest IH]; simpl; [intros _ [] |].
  intros Hnd Ha Hb Hf. inversion Hnd as [| ? ? Hnotin Hrest]; subst.
  destruct Ha as [<- | Ha], Hb as [<- | Hb].
  - reflexivity.
  - exfalso. apply Hnotin. rewrite Hf. now apply in_map.
  - exfalso. apply Hnotin. rewrite <- Hf. now apply in_map.
  - now apply IH.
Qed.

Lemma filtered_timers_distinct (keep : Timer -> bool) (pending : list Timer) :
  NoDup (map timer_request pending) ->
  NoDup (map timer_request (filter keep pending)).
Proof.
  intros Hnd. induction pending as [| t rest IH]; simpl; [constructor |].
  inversion Hnd as [| ? ? Hnotin Hrest]; subst.
  destruct (keep t); simpl; [| now apply IH].
  constructor; [| now apply IH].
  intros Hin. apply Hnotin. apply in_map_iff in Hin.
  destruct Hin as [t' [Ht' Hin]]. apply filter_In in Hin.
  apply in_map_iff. exists t'. tauto.
Qed.

Lemma count_NoDup (l : list nat) r :
  NoDup l ->
  List.length (filter (fun x => Nat.eqb x r) l)
  = if existsb (Nat.eqb r) l then 1 else 0.
Proof.
  induction l as [| x rest IH]; simpl; intros Hnd; [reflexivity |].
  inversion Hnd as [| ? ? Hnotin Hrest]; subst.
  rewrite (Nat.eqb_sym r x).
  destruct (Nat.eqb_spec x r) as [-> | Hne]; simpl.
  - rewrite IH by assumption.
    destruct (existsb (Nat.eqb r) rest) eqn:He; [| reflexivity].
    exfalso. apply Hnotin. apply existsb_exists in He.
    destruct He as [y [Hy Heq]]. apply Nat.eqb_eq in Heq. now subst.
  - now apply IH.
Qed.

Lemma filter_callbacks (more : list Invocation) r :
  List.length (filter (fun c => Nat.eqb (inv_callback c) r) more)
  = List.length (filter (fun x => Nat.eqb x r) (map inv_callback more)).
Proof.
  induction more as [| c rest IH]; simpl; [reflexivity |].
  destruct (Nat.eqb (inv_callback c) r); simpl; now rewrite IH.
Qed.

Lemma existsb_In (l : list nat) r :
  existsb (Nat.eqb r) l = true <-> In r l.
Proof.
  rewrite existsb_exists. split.
  - intros [y [Hy Heq]]. apply Nat.eqb_eq in Heq. now subst.
  - intros H. exists r. split; [exact H | apply Nat.eqb_refl].
Qed.

Lemma pending_unique s sink1 sink2 r :
  BrokerInv s ->
  pendingAt s sink1 r = true -> pendingAt s sink2 r = true ->
  sink1 = sink2.
Proof.
  intros [_ [B2 [B3 _]]] H1 H2.
  destruct (B2 _ _ H1) as [_ [t1 [Hin1 [Hr1 Hs1]]]].
  destruct (B2 _ _ H2) as [_ [t2 [Hin2 [Hr2 Hs2]]]].
  assert (t1 = t2) by (eapply NoDup_map_inj; eauto; congruence).
  congruence.
Qed.

(** The effect shared by every completion: the requests [K], all
    registered in [sink], are answered once each and leave [sink];
    timers of requests that are registered nowhere afterwards may be
    dropped. *)
Lemma completions_sound s s' sink (K : list nat) (dropped : nat -> bool)
      (more : list Invocation) :
  StoreInv s -> BrokerInv s ->
  nextUuid s <= nextUuid s' ->
  (forall sid o, JsMap.get sid (sessions s) = Some o ->
     exists o', JsMap.get sid (sessions s') = Some o' /\ extends o o') ->
  calls s' = calls s ++ more ->
  map inv_callback more = K ->
  NoDup K ->
  (forall r, In r K -> pendingAt s sink r = true) ->
  (forall sink' r', pendingAt s' sink' r'
                    = if sink_eqb sink' sink && existsb (Nat.eqb r') K
                      then false else pendingAt s sink' r') ->
  timers s' = filter (fun t => negb (dropped (timer_request t))) (timers s) ->
  (forall r sink', dropped r = true -> pendingAt s' sink' r = false) ->
  BrokerInv s' /\ Evolves s s' /\ (forall r, Settling r s -> Settling r s').
Proof.
  intros HS HB Hnext Hobj Hcalls Hmore HK Hpend Heff Htimers Hdrop.
  pose proof HB as [B1 [B2 [B3 [B4 B5]]]].
  assert (Hcount : forall r, timesCalled r s'
                             = timesCalled r s
                               + if existsb (Nat.eqb r) K then 1 else 0).
  { intros r. unfold timesCalled. rewrite Hcalls, filter_app, length_app.
    f_equal. rewrite filter_callbacks, Hmore. now apply count_NoDup. }
  assert (HinK : forall r, existsb (Nat.eqb r) K = true ->
                           timesCalled r s = 0 /\ armedFor s r sink).
  { intros r Hr. apply existsb_In in Hr. apply B2. now apply Hpend. }
  assert (HnotK : forall r, 0 < timesCalled r s ->
                            existsb (Nat.eqb r) K = false).
  { intros r Hr. destruct (existsb (Nat.eqb r) K) eqn:He; [| reflexivity].
    destruct (HinK r He) as [Hz _]. lia. }
  split; [| split].
  - split; [| split; [| split; [| split]]].
    + intros r. rewrite Hcount.
      destruct (existsb (Nat.eqb r) K) eqn:He.
      * destruct (HinK r He) as [Hz _]. lia.
      * specialize (B1 r). lia.
    + intros sink' r' Hp'. rewrite Heff in Hp'.
      destruct (sink_eqb sink' sink && existsb (Nat.eqb r') K) eqn:Hc;
        [discriminate |].
      destruct (B2 _ _ Hp') as [Hz [t [Hin [Hr Hs]]]].
      assert (HrK : existsb (Nat.eqb r') K = false).
      { destruct (existsb (Nat.eqb r') K) eqn:He; [| reflexivity].
        assert (Hps : pendingAt s sink r' = true)
          by (apply Hpend; now apply existsb_In).
        assert (Hsk : sink' = sink) by (eapply pending_unique; eauto).
        rewrite Hsk in Hc.
        destruct (sink_eqb_spec sink sink); [discriminate | congruence]. }
      split; [rewrite Hcount, HrK; lia |].
      exists t. split; [| now split].
      rewrite Htimers. apply filter_In. split; [exact Hin |].
      destruct (dropped (timer_request t)) eqn:Hd; [| reflexivity].
      rewrite Hr in Hd. specialize (Hdrop r' sink' Hd).
      rewrite Heff, Hc in Hdrop. congruence.
    + rewrite Htimers. now apply filtered_timers_distinct.
    + intros t Hin. rewrite Htimers in Hin. apply filter_In in Hin.
      destruct Hin as [Hin Hd]. destruct (B4 t Hin) as [Hcb [Hlt Hor]].
      split; [exact Hcb |]. split; [lia |].
      rewrite Heff, Hcount.
      destruct (existsb (Nat.eqb (timer_request t)) K) eqn:He.
      * right. destruct (HinK _ He) as [Hz _]. lia.
      * rewrite andb_false_r. destruct Hor as [Hp | Hone]; [now left |].
        right. lia.
    + intros c Hin. rewrite Hcalls in Hin. apply in_app_or in Hin.
      destruct Hin as [Hin | Hin].
      * specialize (B5 c Hin). lia.
      * assert (HcK : In (inv_callback c) K)
          by (rewrite <- Hmore; now apply in_map).
        destruct (B2 _ _ (Hpend _ HcK)) as [_ [t [Hint [Hr _]]]].
        destruct (B4 t Hint) as [_ [Hlt _]]. lia.
  - split; [exact Hnext |]. split; [exact Hobj |]. now exists more.
  - intros r [Hone | Hin].
    + left. rewrite Hcount, (HnotK r) by lia. lia.
    + apply in_map_iff in Hin. destruct Hin as [t [Hr Hin]].
      destruct (dropped r) eqn:Hd.
      * left. destruct (B4 t Hin) as [_ [_ Hor]]. rewrite Hr in Hor.
        rewrite Hcount.
        destruct (existsb (Nat.eqb r) K) eqn:He.
        -- destruct (HinK r He) as [Hz _]. lia.
        -- destruct Hor as [Hp | Hone]; [| lia].
           specialize (Hdrop r (timer_sink t) Hd).
           rewrite Heff, He, andb_false_r in Hdrop. congruence.
      * right. apply in_map_iff. exists t. split; [exact Hr |].
        rewrite Htimers. apply filter_In. split; [exact Hin |].
        now rewrite Hr, Hd.
Qed.

Lemma StoreInv_mutateSession sid (f : SessionState -> SessionState) s :
  (forall o, sessionOk o -> sessionOk (f o)) ->
  StoreInv s -> StoreInv (mutateSession sid f s).
Proof.
  intros Hf [HS1 HS2]. split; [| exact HS2].
  intros k o Ho. simpl in Ho. rewrite get_mutate in Ho.
  destruct (JsMap.get k (sessions s)) as [o0 |] eqn:Hk; [| discriminate].
  injection Ho as <-. destruct (HS1 k o0 Hk) as [Hok Hlt].
  split; [| exact Hlt]. destruct (Nat.eqb sid k); [now apply Hf | exact Hok].
Qed.

Lemma StoreInv_mutatePeer ws (f : Peer -> Peer) s :
  (forall p, peerOk p -> peerOk (f p)) ->
  StoreInv s -> StoreInv (mutatePeer ws f s).
Proof.
  intros Hf [HS1 HS2]. split; [exact HS1 |].
  intros k p Hp. simpl in Hp. rewrite get_mutate in Hp.
  destruct (JsMap.get k (peers s)) as [p0 |] eqn:Hk; [| discriminate].
  injection Hp as <-. destruct (HS2 k p0 Hk) as [Hok Hlt].
  split; [| exact Hlt]. destruct (Nat.eqb ws k); [now apply Hf | exact Hok].
Qed.

Lemma StoreInv_fields s s' :
  sessions s' = sessions s -> peers s' = peers s ->
  nextUuid s <= nextUuid s' ->
  StoreInv s -> StoreInv s'.
Proof.
  intros Hs Hp Hn [HS1 HS2]. split.
  - intros k o Ho. rewrite Hs in Ho. destruct (HS1 k o Ho). split; [assumption | lia].
  - intros k p Hk. rewrite Hp in Hk. destruct (HS2 k p Hk). split; [assumption | lia].
Qed.

Lemma sessions_evolve_mutate k (f : SessionState -> SessionState) s :
  (forall o, extends o (f o)) ->
  forall sid o, JsMap.get sid (sessions s) = Some o ->
    exists o', JsMap.get sid (sessions (mutateSession k f s)) = Some o'
               /\ extends o o'.
Proof.
  intros Hf sid o Ho. simpl. rewrite get_mutate, Ho.
  eexists. split; [reflexivity |].
  destruct (Nat.eqb k sid); [apply Hf | apply extends_refl].
Qed.

Lemma sessions_evolve_same s s' :
  sessions s' = sessions s ->
  forall sid o, JsMap.get sid (sessions s) = Some o ->
    exists o', JsMap.get sid (sessions s') = Some o' /\ extends o o'.
Proof.
  intros Hs sid o Ho. exists o. rewrite Hs. split; [exact Ho | apply extends_refl].
Qed.

Lemma filter_all {A : Type} (l : list A) : filter (fun _ => true) l = l.
Proof. induction l as [| x rest IH]; simpl; [reflexivity | now rewrite IH]. Qed.

Lemma okMap_delete r m : okMap m -> okMap (JsMap.delete r m).
Proof.
  intros [Hnd Hcb]. split; [now apply keys_delete_NoDup |].
  intros k cb Hin. apply Hcb. eapply In_delete. exact Hin.
Qed.

Lemma okMap_set r m : okMap m -> okMap (JsMap.set r r m).
Proof.
  intros [Hnd Hcb]. split; [now apply keys_set_NoDup |].
  intros k cb Hin. apply In_set in Hin.
  destruct Hin as [[-> ->] | Hin]; [reflexivity | now apply Hcb].
Qed.

Lemma has_delete r r' (m : JsMap.t nat nat) :
  JsMap.has r' (JsMap.delete r m)
  = if Nat.eqb r' r then false else JsMap.has r' m.
Proof.
  rewrite !has_get, get_delete. destruct (Nat.eqb r' r); reflexivity.
Qed.

Lemma has_set r r' cb (m : JsMap.t nat nat) :
  JsMap.has r' (JsMap.set r cb m)
  = if Nat.eqb r' r then true else JsMap.has r' m.
Proof.
  rewrite !has_get, get_set. destruct (Nat.eqb r' r); reflexivity.
Qed.

Lemma sessionOk_forget r o : sessionOk o -> sessionOk (forget r o).
Proof.
  unfold sessionOk, forget. intros [Hok Hq].
  destruct (samplingRequests o) as [m |] eqn:Hm; simpl.
  - split; [now apply okMap_delete | exact Hq].
  - rewrite Hm. split; [exact I | exact Hq].
Qed.

Lemma extends_forget r o : extends o (forget r o).
Proof.
  unfold forget. destruct (samplingRequests o); exact (extends_refl o).
Qed.

Lemma pendingIn_forget r r' o :
  pendingIn (samplingRequests (forget r o)) r'
  = if Nat.eqb r' r then false else pendingIn (samplingRequests o) r'.
Proof.
  unfold forget. destruct (samplingRequests o) as [m |] eqn:Hm; simpl.
  - apply has_delete.
  - rewrite Hm. simpl. destruct (Nat.eqb r' r); reflexivity.
Qed.

(** A response, an error or a timeout completes a request registered
    in a session. *)
Lemma Sound_complete_session sid o m r cb arg s :
  JsMap.get sid (sessions s) = Some o ->
  samplingRequests o = Some m ->
  JsMap.get r m = Some cb ->
  Sound s (mutateSession sid (forget r) (invoke cb arg s)).
Proof.
  intros Ho Hm Hr HS HB.
  assert (Hcb : cb = r).
  { destruct HS as [HS1 _]. destruct (HS1 sid o Ho) as [[Hok _] _].
    rewrite Hm in Hok. destruct Hok as [_ Hok]. apply Hok.
    now apply get_In. }
  subst cb.
  assert (HS' : StoreInv (mutateSession sid (forget r) (invoke r arg s))).
  { apply StoreInv_mutateSession; [intros; now apply sessionOk_forget |].
    now apply (StoreInv_fields s). }
  split; [exact HS' |].
  apply (completions_sound s _ (SinkSession sid) [r] (fun _ => false)
           [{| inv_callback := r; inv_arg := arg |}]); auto.
  - intros k o0 Hk.
    apply (sessions_evolve_mutate sid (forget r) (invoke r arg s));
      [apply extends_forget | exact Hk].
  - constructor; [intros [] | constructor].
  - intros r0 [<- | []]. simpl. rewrite Ho. simpl. rewrite Hm. simpl.
    now rewrite has_get, Hr.
  - intros [ws | k] r'; simpl; [reflexivity |].
    rewrite get_mutate.
    destruct (JsMap.get k (sessions s)) as [o0 |] eqn:Hk;
      [| now destruct (Nat.eqb k sid && _)].
    rewrite (Nat.eqb_sym sid k).
    destruct (Nat.eqb_spec k sid) as [-> | Hne]; simpl; [| reflexivity].
    rewrite pendingIn_forget, orb_false_r. reflexivity.
  - simpl. now rewrite filter_all.
  - discriminate.
Qed.

Lemma peerOk_forget r p : peerOk p -> peerOk (forgetInPeer r p).
Proof. unfold peerOk, forgetInPeer. simpl. apply okMap_delete. Qed.

(** The same for a request registered with a WebSocket peer. *)
Lemma Sound_complete_peer ws p r cb arg s :
  JsMap.get ws (peers s) = Some p ->
  JsMap.get r (conn_samplingRequests (connection p)) = Some cb ->
  Sound s (mutatePeer ws (forgetInPeer r) (invoke cb arg s)).
Proof.
  intros Hp Hr HS HB.
  assert (Hcb : cb = r).
  { destruct HS as [_ HS2]. destruct (HS2 ws p Hp) as [[_ Hok] _].
    apply Hok. now apply get_In. }
  subst cb.
  assert (HS' : StoreInv (mutatePeer ws (forgetInPeer r) (invoke r arg s))).
  { apply StoreInv_mutatePeer; [intros; now apply peerOk_forget |].
    now apply (StoreInv_fields s). }
  split; [exact HS' |].
  apply (completions_sound s _ (SinkPeer ws) [r] (fun _ => false)
           [{| inv_callback := r; inv_arg := arg |}]); auto.
  - now apply sessions_evolve_same.
  - constructor; [intros [] | constructor].
  - intros r0 [<- | []]. simpl. rewrite Hp. now rewrite has_get, Hr.
  - intros [k | sid] r'; simpl; [| reflexivity].
    rewrite get_mutate.
    destruct (JsMap.get k (peers s)) as [p0 |] eqn:Hk;
      [| now destruct (Nat.eqb k ws && _)].
    rewrite (Nat.eqb_sym ws k).
    destruct (Nat.eqb_spec k ws) as [-> | Hne]; simpl; [| reflexivity].
    rewrite has_delete, orb_false_r. reflexivity.
  - simpl. now rewrite filter_all.
  - discriminate.
Qed.

(** ** Destroying a session *)

Lemma invokeAll_fields m arg s :
  nextUuid (invokeAll m arg s) = nextUuid s
  /\ sessions (invokeAll m arg s) = sessions s
  /\ peers (invokeAll m arg s) = peers s
  /\ timers (invokeAll m arg s) = timers s
  /\ activeSessions (invokeAll m arg s) = activeSessions s
  /\ calls (invokeAll m arg s)
     = calls s ++ map (fun kv => {| inv_callback := snd kv; inv_arg := arg |}) m.
Proof.
  unfold invokeAll, JsMap.entries. revert s.
  induction m as [| kv rest IH]; intros s; simpl.
  - now rewrite app_nil_r.
  - destruct (IH (invoke (snd kv) arg s)) as [H1 [H2 [H3 [H4 [H5 H6]]]]].
    rewrite H1, H2, H3, H4, H5, H6. simpl. rewrite <- app_assoc.
    repeat split.
Qed.

Lemma Sound_flush sid o m arg s :
  JsMap.get sid (sessions s) = Some o ->
  samplingRequests o = Some m ->
  Sound s (mutateSession sid (withSamplingRequests (Some JsMap.empty))
                         (invokeAll m arg s)).
Proof.
  intros Ho Hm HS HB.
  destruct (invokeAll_fields m arg s) as [F1 [F2 [F3 [F4 [_ F6]]]]].
  assert (Hok : okMap m).
  { destruct HS as [HS1 _]. destruct (HS1 sid o Ho) as [[Hok _] _].
    now rewrite Hm in Hok. }
  assert (HS' : StoreInv (mutateSession sid
                            (withSamplingRequests (Some JsMap.empty))
                            (invokeAll m arg s))).
  { apply StoreInv_mutateSession.
    - intros o0 [_ Hq]. split; [apply okMap_empty | exact Hq].
    - apply (StoreInv_fields s); auto. lia. }
  split; [exact HS' |].
  apply (completions_sound s _ (SinkSession sid) (JsMap.keys m)
           (fun _ => false)
           (map (fun kv => {| inv_callback := snd kv; inv_arg := arg |}) m)).
  - exact HS.
  - exact HB.
  - simpl. lia.
  - intros k o0 Hk. simpl. rewrite F2, get_mutate, Hk.
    eexists. split; [reflexivity |].
    destruct (Nat.eqb sid k); exact (extends_refl o0).
  - simpl. exact F6.
  - rewrite map_map. unfold JsMap.keys. simpl.
    destruct Hok as [_ Hcb]. apply map_ext_in. intros [k cb] Hin. simpl.
    now apply Hcb.
  - apply Hok.
  - intros r Hr. simpl. rewrite Ho. simpl. rewrite Hm. simpl.
    now apply has_In.
  - intros [ws | k] r'; simpl; [now rewrite F3 |].
    rewrite F2, get_mutate.
    destruct (JsMap.get k (sessions s)) as [o0 |] eqn:Hk;
      [| now destruct (Nat.eqb k sid && _)].
    rewrite (Nat.eqb_sym sid k).
    destruct (Nat.eqb_spec k sid) as [-> | Hne]; simpl; [| reflexivity].
    rewrite Ho in Hk. injection Hk as <-. rewrite Hm. simpl.
    destruct (existsb (Nat.eqb r') (JsMap.keys m)) eqn:He; [reflexivity |].
    destruct (JsMap.has r' m) eqn:Hh; [| reflexivity].
    apply has_In, existsb_In in Hh. congruence.
  - simpl. now rewrite F4, filter_all.
  - discriminate.
Qed.

Lemma Sound_deleteSession sid s : Sound s (fst (deleteSession sid s)).
Proof.
  unfold deleteSession, activeSession.
  destruct (isActive sid (activeSessions s)); [| apply Sound_refl].
  destruct (JsMap.get sid (sessions s)) as [o |] eqn:Ho; [| apply Sound_refl].
  simpl.
  destruct (sseConnection o) as [sse |];
    [| apply Sound_withActiveSessions].
  destruct (samplingRequests o) as [m |] eqn:Hm.
  - eapply Sound_trans; [| apply Sound_withActiveSessions].
    eapply Sound_trans; [apply (Sound_endResponse (res sse)) |].
    apply (Sound_flush sid o m); assumption.
  - eapply Sound_trans; [| apply Sound_withActiveSessions].
    apply Sound_endResponse.
Qed.

Lemma Sound_deleteMcp sid s : Sound s (fst (deleteMcp sid s)).
Proof.
  unfold deleteMcp. destruct sid as [sid |]; [| apply Sound_refl].
  pose proof (Sound_deleteSession sid s) as H.
  destruct (deleteSession sid s) as [s1 [|]]; exact H.
Qed.

Lemma Sound_sweep env now s : Sound s (sweep env now s).
Proof.
  unfold sweep. apply Sound_fold. intros a sid.
  destruct (activeSession a sid) as [o |]; [| apply Sound_refl].
  destruct (SESSION_TIMEOUT_MS env <? now - lastActivity o)%Z;
    [apply Sound_deleteSession | apply Sound_refl].
Qed.

(** ** Answers from the sink *)

Lemma Sound_completeInSession sid o r arg s :
  JsMap.get sid (sessions s) = Some o ->
  Sound s (fst (completeInSession sid o r arg s)).
Proof.
  intros Ho. unfold completeInSession.
  destruct (samplingRequests o) as [m |] eqn:Hm; [| apply Sound_refl].
  destruct (JsMap.get r m) as [cb |] eqn:Hr; [| apply Sound_refl].
  simpl. now apply (Sound_complete_session sid o m).
Qed.

(** What [getSession] hands out is the stored object. *)
Lemma getSession_stored sid now s s1 o :
  getSession sid now s = (s1, Some o) ->
  JsMap.get sid (sessions s1) = Some o.
Proof.
  unfold getSession, activeSession.
  destruct (isActive sid (activeSessions s)); [| discriminate].
  destruct (JsMap.get sid (sessions s)) as [o0 |] eqn:Ho; [| discriminate].
  intros [= <- <-]. simpl. rewrite get_mutate, Ho.
  now rewrite Nat.eqb_refl.
Qed.

Lemma Sound_postSamplingResponse sid now rid result s :
  Sound s (fst (postSamplingResponse sid now rid result s)).
Proof.
  unfold postSamplingResponse. destruct sid as [sid |]; [| apply Sound_refl].
  pose proof (Sound_getSession sid now s) as Hg.
  destruct (getSession sid now s) as [s1 [o |]] eqn:Hgs; simpl in Hg;
    [| exact Hg].
  destruct rid as [r |]; [| exact Hg].
  destruct (Js.truthy result); [| exact Hg].
  eapply Sound_trans; [exact Hg |].
  apply Sound_completeInSession. eapply getSession_stored; eassumption.
Qed.

Lemma Sound_postSamplingError sid now rid error s :
  Sound s (fst (postSamplingError sid now rid error s)).
Proof.
  unfold postSamplingError. destruct sid as [sid |]; [| apply Sound_refl].
  pose proof (Sound_getSession sid now s) as Hg.
  destruct (getSession sid now s) as [s1 [o |]] eqn:Hgs; simpl in Hg;
    [| exact Hg].
  destruct rid as [r |]; [| exact Hg].
  destruct (errorOfBody error); [| exact Hg].
  eapply Sound_trans; [exact Hg |].
  apply Sound_completeInSession. eapply getSession_stored; eassumption.
Qed.

Lemma Sound_completeInPeer ws p r arg s :
  JsMap.get ws (peers s) = Some p ->
  Sound s (completeInPeer ws p r arg s).
Proof.
  intros Hp. unfold completeInPeer.
  destruct (JsMap.get r (conn_samplingRequests (connection p))) as [cb |] eqn:Hr;
    [| apply Sound_refl].
  now apply (Sound_complete_peer ws p).
Qed.

Lemma activeConnection_stored s ws p :
  activeConnection s ws = Some p -> JsMap.get ws (peers s) = Some p.
Proof.
  unfold activeConnection. now destruct (isActive ws (activeConnections s)).
Qed.

Lemma Sound_handleSamplingResponseMessage ws rid result s :
  Sound s (handleSamplingResponseMessage ws rid result s).
Proof.
  unfold handleSamplingResponseMessage.
  destruct (activeConnection s ws) as [p |] eqn:Hp; [| apply Sound_refl].
  destruct rid as [r |]; [| apply Sound_refl].
  destruct (Js.truthy result); [| apply Sound_refl].
  apply Sound_completeInPeer. now apply activeConnection_stored.
Qed.

Lemma Sound_handleSamplingErrorMessage ws rid error s :
  Sound s (handleSamplingErrorMessage ws rid error s).
Proof.
  unfold handleSamplingErrorMessage.
  destruct (activeConnection s ws) as [p |] eqn:Hp; [| apply Sound_refl].
  destruct rid as [r |]; [| apply Sound_refl].
  destruct (errorOfBody error); [| apply Sound_refl].
  apply Sound_completeInPeer. now apply activeConnection_stored.
Qed.

(** ** Timers *)

Lemma timer_found r s t :
  find (fun t => Nat.eqb (timer_request t) r) (timers s) = Some t ->
  In t (timers s) /\ timer_request t = r.
Proof.
  intros H. apply find_some in H. destruct H as [Hin Heq].
  split; [exact Hin | now apply Nat.eqb_eq].
Qed.

(** Dropping the timer of a request that is registered nowhere. *)
Lemma Sound_dropTimer r s :
  (forall sink, pendingAt s sink r = false) ->
  Sound s (withTimers
             (filter (fun t => negb (Nat.eqb (timer_request t) r)) (timers s))
             s).
Proof.
  intros Hnone HS HB.
  split; [now apply (StoreInv_fields s) |].
  apply (completions_sound s _ (SinkPeer 0) [] (fun x => Nat.eqb x r) []);
    auto.
  - now apply sessions_evolve_same.
  - simpl. now rewrite app_nil_r.
  - constructor.
  - intros sink' r'. simpl. now rewrite andb_false_r.
  - intros r0 sink' Hr0. apply Nat.eqb_eq in Hr0. subst r0. apply Hnone.
Qed.

Lemma Sound_fireTimer r s : Sound s (fireTimer r s).
Proof.
  unfold fireTimer.
  destruct (find (fun t => Nat.eqb (timer_request t) r) (timers s))
    as [t |] eqn:Hfind; [| apply Sound_refl].
  destruct (timer_found r s t Hfind) as [Hin Hreq].
  intros HS HB.
  pose proof HB as [B1 [B2 [B3 [B4 B5]]]].
  destruct (B4 t Hin) as [[Hcb _] [Hlt Hor]].
  assert (Honly : forall sink, pendingAt s sink r = true ->
                               sink = timer_sink t).
  { intros sink Hp. destruct (B2 _ _ Hp) as [_ [t' [Hin' [Hr' Hs']]]].
    assert (t' = t) by (eapply NoDup_map_inj; eauto; congruence).
    congruence. }
  destruct (pendingAt s (timer_sink t) r) eqn:Hpend.
  - (* still registered: the body completes it *)
    assert (Hgoal :
      forall s', StoreInv s' ->
        nextUuid s' = nextUuid s ->
        (forall sid o, JsMap.get sid (sessions s) = Some o ->
           exists o', JsMap.get sid (sessions s') = Some o' /\ extends o o') ->
        calls s' = calls s ++ [{| inv_callback := r;
                                  inv_arg := samplingTimedOut |}] ->
        (forall sink' r', pendingAt s' sink' r'
           = if sink_eqb sink' (timer_sink t) && (Nat.eqb r' r || false)
             then false else pendingAt s sink' r') ->
        timers s' = filter (fun t' => negb (Nat.eqb (timer_request t') r))
                           (timers s) ->
        StoreInv s' /\ BrokerInv s' /\ Evolves s s'
        /\ (forall r0, Settling r0 s -> Settling r0 s')).
    { intros s' HS' Hn Hobj Hcalls Heff Htim. split; [exact HS' |].
      apply (completions_sound s s' (timer_sink t) [r]
               (fun x => Nat.eqb x r)
               [{| inv_callback := r; inv_arg := samplingTimedOut |}]);
        auto.
      - lia.
      - constructor; [intros [] | constructor].
      - intros r0 [<- | []]. exact Hpend.
      - intros r0 sink' Hr0. apply Nat.eqb_eq in Hr0. subst r0.
        rewrite Heff, Nat.eqb_refl. simpl.
        destruct (sink_eqb_spec sink' (timer_sink t)) as [-> | Hne];
          [reflexivity |]. simpl.
        destruct (pendingAt s sink' r) eqn:Hp'; [| reflexivity].
        elim Hne. now apply Honly. }
    unfold timerBody. rewrite Hreq, Hcb, Hreq.
    destruct (timer_sink t) as [ws | sid] eqn:Hsink; simpl in *.
    + destruct (JsMap.get ws (peers s)) as [p |] eqn:Hp; [| discriminate].
      rewrite Hpend.
      apply Hgoal; simpl; auto.
      * apply (StoreInv_fields (mutatePeer ws (forgetInPeer r) s)); auto.
        apply StoreInv_mutatePeer; [intros; now apply peerOk_forget |].
        exact HS.
      * intros k o0 Hk. exists o0. split; [exact Hk | apply extends_refl].
      * intros [k | k] r'; simpl; [| reflexivity].
        rewrite get_mutate.
        destruct (JsMap.get k (peers s)) as [p0 |] eqn:Hk;
          [| now destruct (Nat.eqb k ws && _)].
        rewrite (Nat.eqb_sym ws k).
        destruct (Nat.eqb_spec k ws) as [-> | Hne]; simpl; [| reflexivity].
        rewrite has_delete, orb_false_r. reflexivity.
    + destruct (JsMap.get sid (sessions s)) as [o |] eqn:Ho; [| discriminate].
      destruct (samplingRequests o) as [m |] eqn:Hm; [| discriminate].
      simpl in Hpend. rewrite Hpend.
      apply Hgoal; simpl; auto.
      * apply (StoreInv_fields (mutateSession sid (forget r) s)); auto.
        apply StoreInv_mutateSession; [intros; now apply sessionOk_forget |].
        exact HS.
      * intros k o0 Hk. rewrite get_mutate, Hk.
        eexists. split; [reflexivity |].
        destruct (Nat.eqb sid k); [apply extends_forget | apply extends_refl].
      * intros [k | k] r'; simpl; [reflexivity |].
        rewrite get_mutate.
        destruct (JsMap.get k (sessions s)) as [o0 |] eqn:Hk;
          [| now destruct (Nat.eqb k sid && _)].
        rewrite (Nat.eqb_sym sid k).
        destruct (Nat.eqb_spec k sid) as [-> | Hne]; simpl; [| reflexivity].
        rewrite pendingIn_forget, orb_false_r. reflexivity.
  - (* already answered: the body does nothing *)
    assert (Hnone : forall sink, pendingAt s sink r = false).
    { intros sink. destruct (pendingAt s sink r) eqn:Hp; [| reflexivity].
      rewrite (Honly sink Hp) in Hp. congruence. }
    assert (Hbody :
      timerBody t (withTimers
                     (filter (fun t' => negb (Nat.eqb (timer_request t') r))
                             (timers s)) s)
      = withTimers
          (filter (fun t' => negb (Nat.eqb (timer_request t') r)) (timers s))
          s).
    { unfold timerBody. rewrite Hreq.
      destruct (timer_sink t) as [ws | sid]; simpl in *.
      - destruct (JsMap.get ws (peers s)) as [p |]; [| reflexivity].
        now rewrite Hpend.
      - destruct (JsMap.get sid (sessions s)) as [o |]; [| reflexivity].
        destruct (samplingRequests o) as [m |]; [| reflexivity].
        simpl in Hpend. now rewrite Hpend. }
    rewrite Hbody. now apply Sound_dropTimer.
Qed.

(** ** A new sampling request *)

(** The request numbered [nextUuid s] is registered in [sink] and its
    timer is armed. *)
Lemma registration_sound s s' sink :
  StoreInv s -> BrokerInv s ->
  StoreInv s' ->
  nextUuid s' = S (nextUuid s) ->
  (forall sid o, JsMap.get sid (sessions s) = Some o ->
     exists o', JsMap.get sid (sessions s') = Some o' /\ extends o o') ->
  calls s' = calls s ->
  timers s' = timers s ++ [{| timer_request := nextUuid s;
                              timer_callback := nextUuid s;
                              timer_sink := sink;
                              timer_delay := 300000 |}] ->
  (forall sink' r', pendingAt s' sink' r'
                    = if sink_eqb sink' sink && Nat.eqb r' (nextUuid s)
                      then true else pendingAt s sink' r') ->
  StoreInv s' /\ BrokerInv s' /\ Evolves s s'
  /\ (forall r, Settling r s -> Settling r s').
Proof.
  intros HS HB HS' Hn Hobj Hcalls Htimers Heff.
  pose proof HB as [B1 [B2 [B3 [B4 B5]]]].
  remember (nextUuid s) as r eqn:Er in *.
  assert (Hold : forall t, In t (timers s) -> timer_request t <> r).
  { intros t Hin. destruct (B4 t Hin) as [_ [Hlt _]]. lia. }
  split; [exact HS' |]. split; [| split].
  - split; [| split; [| split; [| split]]].
    + intros r0. rewrite (timesCalled_same r0 s s' Hcalls). apply B1.
    + intros sink' r' Hp. rewrite Heff in Hp.
      rewrite (timesCalled_same r' s s' Hcalls).
      destruct (sink_eqb_spec sink' sink) as [-> | Hne]; simpl in Hp.
      * destruct (Nat.eqb_spec r' r) as [Heq | Hne'].
        -- rewrite Heq. split; [apply timesCalled_fresh; [exact HB | lia] |].
           eexists. split; [rewrite Htimers; apply in_or_app; right; now left |].
           split; reflexivity.
        -- destruct (B2 _ _ Hp) as [Hz [t [Hin [Hr Hs]]]].
           split; [exact Hz |]. exists t.
           split; [rewrite Htimers; apply in_or_app; now left | now split].
      * destruct (B2 _ _ Hp) as [Hz [t [Hin [Hr Hs]]]].
        split; [exact Hz |]. exists t.
        split; [rewrite Htimers; apply in_or_app; now left | now split].
    + rewrite Htimers, map_app. simpl.
      apply NoDup_app; [exact B3 | constructor; [intros [] | constructor] |].
      intros x Hx [<- | []]. apply in_map_iff in Hx.
      destruct Hx as [t [Hr Hin]]. now apply (Hold t).
    + intros t Hin. rewrite Htimers in Hin. apply in_app_or in Hin.
      rewrite Heff, (timesCalled_same _ s s' Hcalls), Hn.
      destruct Hin as [Hin | [<- | []]].
      * destruct (B4 t Hin) as [Hcb [Hlt Hor]].
        split; [exact Hcb |]. split; [lia |].
        destruct (sink_eqb (timer_sink t) sink && Nat.eqb (timer_request t) r);
          [now left | exact Hor].
      * simpl. split; [split; reflexivity |]. split; [lia |].
        left. destruct (sink_eqb_spec sink sink); [| congruence].
        now rewrite Nat.eqb_refl.
    + intros c Hin. rewrite Hcalls in Hin. specialize (B5 c Hin). lia.
  - split; [lia |]. split; [exact Hobj |].
    exists []. now rewrite Hcalls, app_nil_r.
  - intros r0 [Hone | Hin]; [left | right].
    + now rewrite (timesCalled_same r0 s s' Hcalls).
    + rewrite Htimers, map_app. apply in_or_app. now left.
Qed.

(** No sink: the callback of the request numbered [nextUuid s] is
    called at once. *)
Lemma Sound_refuse arg s :
  Sound s (invoke (nextUuid s) arg (withNextUuid (S (nextUuid s)) s)).
Proof.
  intros HS HB. pose proof HB as [B1 [B2 [B3 [B4 B5]]]].
  remember (nextUuid s) as r eqn:Er in *.
  assert (Hfresh : timesCalled r s = 0)
    by (apply timesCalled_fresh; [exact HB | lia]).
  assert (Hcount : forall r0, timesCalled r0 (invoke r arg (withNextUuid (S r) s))
                              = timesCalled r0 s + if Nat.eqb r r0 then 1 else 0).
  { intros r0. now rewrite timesCalled_invoke. }
  assert (Hpend : forall sink r0, pendingAt s sink r0 = true -> r0 <> r).
  { intros sink r0 Hp. destruct (B2 _ _ Hp) as [_ [t [Hin [Hr _]]]].
    destruct (B4 t Hin) as [_ [Hlt _]]. lia. }
  split; [apply (StoreInv_fields s); simpl; auto; lia |].
  split; [| split].
  - split; [| split; [| split; [| split]]].
    + intros r0. rewrite Hcount. destruct (Nat.eqb_spec r r0) as [<- | Hne].
      * lia.
      * specialize (B1 r0). lia.
    + intros sink r0 Hp. change (pendingAt s sink r0 = true) in Hp.
      destruct (B2 _ _ Hp) as [Hz Harm]. split; [| exact Harm].
      rewrite Hcount. destruct (Nat.eqb_spec r r0) as [<- | Hne]; [| lia].
      now elim (Hpend sink r Hp).
    + exact B3.
    + intros t Hin. change (In t (timers s)) in Hin.
      destruct (B4 t Hin) as [Hcb [Hlt Hor]].
      split; [exact Hcb |]. split; [simpl; lia |].
      rewrite Hcount.
      destruct (Nat.eqb_spec r (timer_request t)) as [Heq | Hne];
        [lia |].
      change (pendingAt s (timer_sink t) (timer_request t) = true
              \/ timesCalled (timer_request t) s + 0 = 1).
      destruct Hor; [now left | right; lia].
    + intros c Hin. simpl in Hin. apply in_app_or in Hin.
      destruct Hin as [Hin | [<- | []]]; simpl.
      * specialize (B5 c Hin). lia.
      * lia.
  - split; [simpl; lia |]. split.
    + now apply sessions_evolve_same.
    + eexists. reflexivity.
  - intros r0 [Hone | Hin]; [left | right; exact Hin].
    rewrite Hcount. destruct (Nat.eqb_spec r r0) as [<- | Hne]; lia.
Qed.

Lemma findOpenSocket_stored s ws :
  findOpenSocket s = Some ws -> exists p, JsMap.get ws (peers s) = Some p.
Proof.
  unfold findOpenSocket. intros H. apply find_some in H. destruct H as [_ H].
  destruct (JsMap.get ws (peers s)) as [p |]; [now exists p | discriminate].
Qed.

Lemma findSseSession_stored s sid :
  findSseSession s = Some sid -> exists o, JsMap.get sid (sessions s) = Some o.
Proof.
  unfold findSseSession. intros H. apply find_some in H. destruct H as [_ H].
  destruct (JsMap.get sid (sessions s)) as [o |]; [now exists o | discriminate].
Qed.

Lemma pendingIn_register r r' m :
  pendingIn (register r r m) r'
  = if Nat.eqb r' r then true else pendingIn m r'.
Proof.
  destruct m as [m |]; unfold pendingIn, register.
  - apply has_set.
  - rewrite has_set. reflexivity.
Qed.

Lemma okRequests_register r m : okRequests m -> okRequests (register r r m).
Proof.
  destruct m as [m |]; intros H.
  - now apply okMap_set.
  - exact (okMap_set r JsMap.empty okMap_empty).
Qed.

Lemma Sound_onSamplingRequest serverId params w s :
  Sound s (onSamplingRequest serverId params w s).
Proof.
  unfold onSamplingRequest.
  change (findOpenSocket (withNextUuid (S (nextUuid s)) s))
    with (findOpenSocket s).
  change (findSseSession (withNextUuid (S (nextUuid s)) s))
    with (findSseSession s).
  destruct (findOpenSocket s) as [ws |] eqn:Hws.
  - destruct (findOpenSocket_stored s ws Hws) as [p Hp].
    intros HS HB.
    apply (registration_sound s _ (SinkPeer ws) HS HB); simpl; auto.
    + apply (StoreInv_fields
               (mutatePeer ws
                  (fun p => withConnSamplingRequests
                              (JsMap.set (nextUuid s) (nextUuid s)
                                 (conn_samplingRequests (connection p))) p)
                  s)); simpl; auto.
      apply StoreInv_mutatePeer; [| exact HS].
      intros p0 Hok. unfold peerOk. simpl. now apply okMap_set.
    + intros k o Hk. exists o. split; [exact Hk | apply extends_refl].
    + intros [k | k] r'; simpl; [| reflexivity].
      rewrite get_mutate.
      destruct (JsMap.get k (peers s)) as [p0 |] eqn:Hk.
      * rewrite (Nat.eqb_sym ws k).
        destruct (Nat.eqb_spec k ws) as [-> | Hne]; simpl; [| reflexivity].
        apply has_set.
      * destruct (Nat.eqb_spec k ws) as [-> | Hne]; [congruence | reflexivity].
  - destruct (findSseSession s) as [sid |] eqn:Hsid.
    + destruct (findSseSession_stored s sid Hsid) as [o Ho].
      eapply Sound_trans; [| apply Sound_sendEventToSession].
      intros HS HB.
      apply (registration_sound s _ (SinkSession sid) HS HB);
        simpl; auto.
      * apply (StoreInv_fields
                 (mutateSession sid
                    (fun o => withSamplingRequests
                                (register (nextUuid s) (nextUuid s)
                                          (samplingRequests o)) o)
                    s)); simpl; auto.
        apply StoreInv_mutateSession; [| exact HS].
        intros o0 [Hok Hq]. split; [| exact Hq]. simpl.
        now apply okRequests_register.
      * intros k o0 Hk. rewrite get_mutate, Hk.
        eexists. split; [reflexivity |].
        destruct (Nat.eqb sid k); exact (extends_refl o0).
      * intros [k | k] r'; simpl; [reflexivity |].
        rewrite get_mutate.
        destruct (JsMap.get k (sessions s)) as [o0 |] eqn:Hk.
        -- rewrite (Nat.eqb_sym sid k).
           destruct (Nat.eqb_spec k sid) as [-> | Hne]; simpl; [| reflexivity].
           apply pendingIn_register.
        -- destruct (Nat.eqb_spec k sid) as [-> | Hne];
             [congruence | reflexivity].
    + apply Sound_refuse.
Qed.

(** ** The endpoints of [/mcp] *)

Lemma Sound_getMcp sid last acc r st w now s :
  Sound s (fst (getMcp sid last acc r st w now s)).
Proof.
  unfold getMcp. destruct sid as [sid |]; [| apply Sound_refl].
  pose proof (Sound_getSession sid now s) as Hg.
  destruct (getSession sid now s) as [s1 [o |]]; simpl in Hg; [| exact Hg].
  destruct acc; [| exact Hg]. simpl.
  eapply Sound_trans; [exact Hg |].
  eapply Sound_trans; [| apply Sound_sendEventToSession].
  apply Sound_setSse.
Qed.

Lemma Sound_processSingleMessage hv sid now m s :
  Sound s (fst (processSingleMessage hv sid now m s)).
Proof.
  unfold processSingleMessage.
  destruct (isRequest m && (methodOf m =? "initialize")%string).
  - destruct sid as [sid |]; [apply Sound_refl |].
    pose proof (Sound_createSession now s) as Hc.
    destruct (createSession now s) as [s1 k]. exact Hc.
  - destruct sid as [sid |]; [| apply Sound_refl].
    pose proof (Sound_getSession sid now s) as Hg.
    destruct (getSession sid now s) as [s1 [o |]]; simpl in Hg; [| exact Hg].
    destruct (isRequest m); [exact Hg |].
    destruct (isNotification m || isResponse m); exact Hg.
Qed.

Lemma Sound_processAll hv sid now ms s :
  Sound s (fst (processAll hv sid now ms s)).
Proof.
  revert s. induction ms as [| m rest IH]; intros s; simpl.
  - apply Sound_refl.
  - pose proof (Sound_processSingleMessage hv sid now m s) as H1.
    destruct (processSingleMessage hv sid now m s) as [s1 r1].
    pose proof (IH s1) as H2.
    destruct (processAll hv sid now rest s1) as [s2 rs].
    simpl in *. eapply Sound_trans; eassumption.
Qed.

Lemma Sound_postMcp hv req s : Sound s (fst (postMcp hv req s)).
Proof.
  destruct req as [sid acc body r now].
  unfold postMcp. cbn [post_body post_sessionId post_now post_res
                       post_acceptsSSE].
  assert (Htail : forall s1 (rs : list (option Response)) (c : bool),
    Sound s s1 ->
    Sound s
      (fst (match preferSSE acc body, sid with
            | true, Some sid0 =>
                let (s2, o) := getSession sid0 now s1 in
                match o with
                | Some session =>
                    (mutateSession sid0
                       (withSseConnection
                          (Some {| res := r;
                                   lastEventId := nextEventId session |})) s2,
                     EventStream []
                       (if (0 <? List.length (validOnly rs))%nat
                        then Some (payloadOf body (validOnly rs)) else None))
                | None => (s2, EventStream [] None)
                end
            | _, _ =>
                if negb c then (s1, Empty 202)
                else if (List.length (validOnly rs) =? 0)%nat
                     then (s1, Empty 204)
                     else (s1, Json 200
                                 (RpcBody (payloadOf body (validOnly rs))))
            end))).
  { intros s1 rs c H1.
    assert (Hplain :
      Sound s (fst (if negb c then (s1, Empty 202)
                    else if (List.length (validOnly rs) =? 0)%nat
                         then (s1, Empty 204)
                         else (s1, Json 200
                                     (RpcBody (payloadOf body (validOnly rs))))))).
    { destruct (negb c); [exact H1 |].
      destruct (List.length (validOnly rs) =? 0)%nat; exact H1. }
    destruct (preferSSE acc body); [| exact Hplain].
    destruct sid as [sid0 |]; [| exact Hplain].
    pose proof (Sound_getSession sid0 now s1) as Hg.
    destruct (getSession sid0 now s1) as [s2 [o |]]; simpl in *.
    - eapply Sound_trans; [exact H1 |].
      eapply Sound_trans; [exact Hg | apply Sound_setSse].
    - exact (Sound_trans _ _ _ H1 Hg). }
  destruct body as [| | bb | n | str | items | props];
    try (match goal with
         | |- context [processSingleMessage hv sid now ?b s] =>
             pose proof (Sound_processSingleMessage hv sid now b s) as H1;
             destruct (processSingleMessage hv sid now b s) as [s1 r1];
             cbv beta iota zeta; apply Htail; exact H1
         end).
  pose proof (Sound_processAll hv sid now items s) as H1.
  destruct (processAll hv sid now items s) as [s1 rs].
  cbv beta iota zeta. apply Htail. exact H1.
Qed.

(** ** Every input keeps the invariants *)

Theorem Sound_step env i s : Sound s (step env i s).
Proof.
  destruct i; simpl.
  - apply Sound_postMcp.
  - apply Sound_getMcp.
  - apply Sound_onGetClosed.
  - apply Sound_onPostClosed.
  - apply Sound_deleteMcp.
  - apply Sound_postSamplingResponse.
  - apply Sound_postSamplingError.
  - apply Sound_sweep.
  - apply Sound_broadcast.
  - apply Sound_endResponse.
  - apply Sound_onWsConnection.
  - apply Sound_onWsClosing.
  - apply Sound_onWsClose.
  - apply Sound_handleSubscribeMessage.
  - apply Sound_handleUnsubscribeMessage.
  - apply Sound_handleSamplingResponseMessage.
  - apply Sound_handleSamplingErrorMessage.
  - apply Sound_onSamplingRequest.
  - apply Sound_fireTimer.
Qed.

Lemma Sound_run env inputs s : Sound s (run env inputs s).
Proof. unfold run. apply Sound_fold. intros a x. apply Sound_step. Qed.

Lemma run_app env l1 l2 s :
  run env (l1 ++ l2) s = run env l2 (run env l1 s).
Proof. unfold run. apply fold_left_app. Qed.

Lemma StoreInv_initial : StoreInv initial.
Proof. split; intros k x H; discriminate. Qed.

Lemma BrokerInv_initial : BrokerInv initial.
Proof.
  split; [| split; [| split; [| split]]].
  - intros r. unfold timesCalled. simpl. lia.
  - intros [k | k] r H; discriminate.
  - constructor.
  - intros t [].
  - intros c [].
Qed.

Lemma reachable_invariants env inputs :
  StoreInv (run env inputs initial) /\ BrokerInv (run env inputs initial).
Proof.
  destruct (Sound_run env inputs initial StoreInv_initial BrokerInv_initial)
    as [HS [HB _]].
  now split.
Qed.

(** What [sendEventToSession] leaves in the object of an active
    session, whether or not anything is written to a stream. *)
Lemma send_self sid eventName d w s o :
  activeSession s sid = Some o ->
  exists o',
    JsMap.get sid (sessions (fst (sendEventToSession sid eventName d w s)))
    = Some o'
    /\ eventQueue o'
       = enqueue {| ev_id := nextEventId o; ev_event := eventName;
                    ev_data := d |} (eventQueue o)
    /\ nextEventId o' = (nextEventId o + 1)%Z.
Proof.
  intros Ho. unfold sendEventToSession. rewrite Ho.
  assert (Hstored : JsMap.get sid (sessions s) = Some o).
  { unfold activeSession in Ho.
    destruct (isActive sid (activeSessions s)); [exact Ho | discriminate]. }
  destruct (sseConnection o); [destruct w |]; cbn [fst];
    cbn [sessions mutateSession withSessions];
    rewrite ?get_mutate, Hstored, ?Nat.eqb_refl;
    eexists; (split; [reflexivity |]); split; reflexivity.
Qed.

End ServerInvariants.

(* ================================================================== *)
(** * The sampling broker and the event queue on every run              *)
(* ================================================================== *)

Module BrokerFacts.
Import Types ApiServer ServerInvariants.

Lemma sendEventToSession_timers sid eventName d w s :
  timers (fst (sendEventToSession sid eventName d w s)) = timers s.
Proof.
  unfold sendEventToSession. destruct (activeSession s sid) as [o |];
    [| reflexivity].
  destruct (sseConnection o); [destruct w |]; reflexivity.
Qed.

(** Right after a sampling request arrived, its callback has been
    called (no sink) or its timer is pending. *)
Lemma onSamplingRequest_settling serverId params w s :
  BrokerInv s ->
  Settling (nextUuid s) (onSamplingRequest serverId params w s).
Proof.
  intros HB. unfold onSamplingRequest, Settling.
  destruct (findOpenSocket _) as [ws |].
  - right. simpl. rewrite map_app. apply in_or_app. right. now left.
  - destruct (findSseSession _) as [sid |].
    + right. rewrite sendEventToSession_timers. simpl.
      rewrite map_app. apply in_or_app. right. now left.
    + left. rewrite timesCalled_invoke, Nat.eqb_refl.
      rewrite (timesCalled_same _ s) by reflexivity.
      rewrite (timesCalled_fresh s (nextUuid s) HB) by lia. reflexivity.
Qed.

Lemma timerBody_timers t s : timers (timerBody t s) = timers s.
Proof.
  unfold timerBody. destruct (timer_sink t) as [ws | sid].
  - destruct (JsMap.get ws (peers s)) as [p |]; [| reflexivity].
    destruct (JsMap.has _ _); reflexivity.
  - destruct (JsMap.get sid (sessions s)) as [o |]; [| reflexivity].
    destruct (samplingRequests o) as [m |]; [| reflexivity].
    destruct (JsMap.has _ _); reflexivity.
Qed.

Lemma fireTimer_disarms r s :
  ~ In r (map timer_request (timers (fireTimer r s))).
Proof.
  unfold fireTimer.
  destruct (find (fun t => Nat.eqb (timer_request t) r) (timers s))
    as [t |] eqn:Hfind.
  - rewrite timerBody_timers. simpl. intros Hin.
    apply in_map_iff in Hin. destruct Hin as [t' [Hr Hin]].
    apply filter_In in Hin. destruct Hin as [_ Hne].
    rewrite Hr, Nat.eqb_refl in Hne. discriminate.
  - intros Hin. apply in_map_iff in Hin. destruct Hin as [t' [Hr Hin]].
    apply (find_none _ _ Hfind) in Hin. rewrite Hr, Nat.eqb_refl in Hin.
    discriminate.
Qed.

(** C1.  Take any run of the server, a sampling request arriving
    after it, and any inputs afterwards (answers and errors from
    sinks, timers firing, sessions deleted or swept, sockets closing,
    in any order).  The request's callback had not been called before
    the request arrived, it is never called more than once, and from
    the moment the request's timer has fired it has been called
    exactly once, whichever of the paths made the call.  On no run is
    any callback called twice. *)
Theorem sampling_callback_exactly_once (env : Env) (before : list Input)
        (serverId : string) (params : Js.value) (w : bool)
        (between after : list Input) :
  let s0 := run env before initial in
  let r := nextUuid s0 in
  let s1 := step env (SamplingRequest serverId params w) s0 in
  (forall cb, timesCalled cb s0 <= 1)
  /\ timesCalled r s0 = 0
  /\ timesCalled r (run env between s1) <= 1
  /\ timesCalled r
       (run env after (step env (TimerFires r) (run env between s1))) = 1.
Proof.
  intros s0 r s1.
  destruct (reachable_invariants env before) as [HS0 HB0].
  fold s0 in HS0, HB0.
  destruct (Sound_step env (SamplingRequest serverId params w) s0 HS0 HB0)
    as [HS1 [HB1 _]].
  fold s1 in HS1, HB1.
  assert (Hset1 : Settling r s1)
    by (apply onSamplingRequest_settling; exact HB0).
  destruct (Sound_run env between s1 HS1 HB1) as [HS2 [HB2 [_ Hkeep2]]].
  set (s2 := run env between s1) in *.
  destruct (Sound_step env (TimerFires r) s2 HS2 HB2) as [HS3 [HB3 [_ Hkeep3]]].
  set (s3 := step env (TimerFires r) s2) in *.
  destruct (Sound_run env after s3 HS3 HB3) as [_ [HB4 [Hev4 _]]].
  split; [apply HB0 |].
  split; [apply timesCalled_fresh; [exact HB0 | unfold r; lia] |].
  split; [apply HB2 |].
  assert (Hone : timesCalled r s3 = 1).
  { destruct (Hkeep3 r (Hkeep2 r Hset1)) as [Hone | Hin]; [exact Hone |].
    elim (fireTimer_disarms r s2). exact Hin. }
  pose proof (timesCalled_mono r s3 _ Hev4) as Hmono.
  destruct HB4 as [B1 _]. specialize (B1 r). lia.
Qed.

Lemma timeout_delivers_RequestTimeout s t :
  BrokerInv s ->
  In t (timers s) ->
  pendingAt s (timer_sink t) (timer_request t) = true ->
  calls (fireTimer (timer_request t) s)
  = calls s ++ [{| inv_callback := timer_request t;
                   inv_arg := samplingTimedOut |}].
Proof.
  intros HB Hin Hpend. pose proof HB as [_ [_ [B3 [B4 _]]]].
  unfold fireTimer.
  destruct (find (fun t' => Nat.eqb (timer_request t') (timer_request t))
                 (timers s)) as [t' |] eqn:Hfind.
  - destruct (timer_found _ s t' Hfind) as [Hin' Hreq].
    assert (t' = t) by (eapply NoDup_map_inj; eauto). subst t'.
    destruct (B4 t Hin) as [[Hcb _] _].
    unfold timerBody. rewrite Hcb.
    destruct (timer_sink t) as [ws | sid]; simpl in *.
    + destruct (JsMap.get ws (peers s)) as [p |]; [| discriminate].
      now rewrite Hpend.
    + destruct (JsMap.get sid (sessions s)) as [o |]; [| discriminate].
      destruct (samplingRequests o) as [m |]; [| discriminate].
      simpl in Hpend. now rewrite Hpend.
  - apply (find_none _ _ Hfind) in Hin. now rewrite Nat.eqb_refl in Hin.
Qed.

(** C3.  Whatever the environment sets, on every run every pending
    timer of the broker was armed with a delay of 300000 ms; the
    constant read from the environment is not consulted (with the
    variable set to 5000 the constant is 5000 and the armed delay is
    300000, with the variable unset the constant is 30000).  When a
    timer fires while its request is still registered, the callback is
    called with the [RequestTimeout] error. *)
Theorem sampling_deadline_ignores_configured_timeout :
  (forall env inputs,
     Forall (fun t => timer_delay t = 300000%Z)
            (timers (run env inputs initial)))
  /\ (forall env inputs t,
        In t (timers (run env inputs initial)) ->
        pendingAt (run env inputs initial) (timer_sink t) (timer_request t)
        = true ->
        calls (step env (TimerFires (timer_request t))
                    (run env inputs initial))
        = calls (run env inputs initial)
          ++ [{| inv_callback := timer_request t;
                 inv_arg := samplingTimedOut |}])
  /\ SAMPLING_REQUEST_TIMEOUT_MS BrokerRuns.defaultEnv = 30000%Z
  /\ SAMPLING_REQUEST_TIMEOUT_MS BrokerRuns.shortTimeoutEnv = 5000%Z
  /\ map timer_delay
         (timers (run BrokerRuns.shortTimeoutEnv
                      BrokerRuns.sessionWithRequest initial))
     = [300000%Z]
  /\ match samplingTimedOut with
     | Error e => code e = ErrorCode.RequestTimeout
     | Result _ => False
     end.
Proof.
  split; [| split].
  - intros env inputs.
    destruct (reachable_invariants env inputs) as [_ [_ [_ [_ [B4 _]]]]].
    apply Forall_forall. intros t Hin. now destruct (B4 t Hin) as [[_ Hd] _].
  - intros env inputs t Hin Hpend. simpl.
    destruct (reachable_invariants env inputs) as [_ HB].
    now apply timeout_delivers_RequestTimeout.
  - vm_compute. repeat split.
Qed.

Lemma deleteSession_calls sid o s :
  activeSession s sid = Some o ->
  calls (fst (deleteSession sid s))
  = match sseConnection o, samplingRequests o with
    | Some _, Some requests =>
        calls s ++ map (fun kv => {| inv_callback := snd kv;
                                     inv_arg := sessionClosed |}) requests
    | _, _ => calls s
    end.
Proof.
  intros Ho. unfold deleteSession. rewrite Ho. simpl.
  destruct (sseConnection o) as [sse |]; [| reflexivity].
  destruct (samplingRequests o) as [m |]; [| reflexivity].
  simpl.
  now destruct (invokeAll_fields m sessionClosed (endResponse (res sse) s))
    as [_ [_ [_ [_ [_ ->]]]]].
Qed.

(** C6.  Deleting a session calls its pending callbacks, each with
    the [InternalError] of the session closure, only if the session
    has an SSE connection; otherwise no callback is called.  So for a
    session whose stream closed before it is deleted, [DELETE /mcp]
    removes the session and calls nothing, and so does the idle sweep;
    the pending callback is called only when its timer fires, with
    [RequestTimeout].  With the stream still open the callback gets
    the session-closure error. *)
Theorem deleteSession_without_stream_skips_callbacks :
  (forall s sid o,
     activeSession s sid = Some o ->
     calls (fst (deleteSession sid s))
     = match sseConnection o, samplingRequests o with
       | Some _, Some requests =>
           calls s ++ map (fun kv => {| inv_callback := snd kv;
                                        inv_arg := sessionClosed |}) requests
       | _, _ => calls s
       end)
  /\ let closed := BrokerRuns.sessionWithRequest ++ [GetClosed 0 7] in
     let deleted := run BrokerRuns.defaultEnv
                        (closed ++ [DeleteMcp (Some 0)]) initial in
     let swept := run BrokerRuns.defaultEnv
                      (closed ++ [Sweep 4000000]) initial in
     pendingAt (run BrokerRuns.defaultEnv closed initial) (SinkSession 0) 1
     = true
     /\ activeSessions deleted = []
     /\ calls deleted = []
     /\ activeSessions swept = []
     /\ calls swept = []
     /\ calls (step BrokerRuns.defaultEnv (TimerFires 1) deleted)
        = [{| inv_callback := 1; inv_arg := samplingTimedOut |}]
     /\ calls (run BrokerRuns.defaultEnv
                   (BrokerRuns.sessionWithRequest ++ [DeleteMcp (Some 0)])
                   initial)
        = [{| inv_callback := 1; inv_arg := sessionClosed |}].
Proof.
  split; [intros s sid o; apply deleteSession_calls |].
  vm_compute. repeat split.
Qed.

(** The state of session 0 after it was initialised, opened its
    stream and was handed a sampling request. *)
Definition sampleSession : SessionState :=
  Eval vm_compute in
    match JsMap.get 0 (sessions (run BrokerRuns.defaultEnv
                                     BrokerRuns.sessionWithRequest initial))
    with
    | Some o => o
    | None => newSession 0 0
    end.

(** C9.  On every run and for every session ever created: the queue
    holds at most 100 events; their ids are strictly increasing and
    below [nextEventId]; they are exactly the last
    [min 100 (nextEventId - 1)] ids issued.  Every event sent to the
    session while it is active is queued last, under the id
    [nextEventId], which then goes up by one; the events queued
    before stay in their order, except that the oldest one leaves
    when the queue already held 100: so the queue always keeps the
    most recent events.  And whatever happens later, the session
    still exists, its [nextEventId] has not decreased, and every event
    queued later that was not already in the queue has an id at or
    above the earlier [nextEventId], so no id is issued twice. *)
Theorem event_queue_discipline (env : Env) (inputs more : list Input)
        (sid : nat) (o : SessionState) :
  let s := run env inputs initial in
  JsMap.get sid (sessions s) = Some o ->
  (List.length (eventQueue o) <= 100)%nat
  /\ StronglySorted Z.lt (map ev_id (eventQueue o))
  /\ Forall (fun e => (1 <= ev_id e < nextEventId o)%Z) (eventQueue o)
  /\ List.length (eventQueue o) = Nat.min 100 (Z.to_nat (nextEventId o - 1))
  /\ map ev_id (eventQueue o)
     = idsFrom (nextEventId o - Z.of_nat (List.length (eventQueue o)))
               (List.length (eventQueue o))
  /\ (forall eventName d w,
        In sid (activeSessions s) ->
        let e := {| ev_id := nextEventId o; ev_event := eventName;
                    ev_data := d |} in
        exists o1,
          JsMap.get sid
            (sessions (fst (sendEventToSession sid eventName d w s)))
          = Some o1
          /\ nextEventId o1 = (nextEventId o + 1)%Z
          /\ eventQueue o1
             = (if (List.length (eventQueue o) <? 100)%nat
                then eventQueue o else tl (eventQueue o)) ++ [e])
  /\ exists o',
       JsMap.get sid (sessions (run env (inputs ++ more) initial)) = Some o'
       /\ (nextEventId o <= nextEventId o')%Z
       /\ forall e, In e (eventQueue o') ->
                    In e (eventQueue o) \/ (nextEventId o <= ev_id e)%Z.
Proof.
  intros s Ho.
  destruct (reachable_invariants env inputs) as [HS HB].
  pose proof HS as [HS1 _].
  destruct (HS1 sid o Ho) as [[_ Hq] _].
  destruct (queueInv_facts o Hq) as [Hlen [Hsorted Hbound]].
  destruct Hq as [_ [Hmin Hids]].
  repeat (split; [assumption |]).
  split.
  - intros eventName d w Hin e.
    assert (Hact : activeSession s sid = Some o).
    { unfold activeSession.
      replace (isActive sid (activeSessions s)) with true; [exact Ho |].
      symmetry. apply existsb_exists. exists sid.
      split; [exact Hin | apply Nat.eqb_refl]. }
    destruct (send_self sid eventName d w s o Hact) as [o1 [Ho1 [Hq1 Hn1]]].
    exists o1. split; [exact Ho1 |]. split; [exact Hn1 |].
    rewrite Hq1. unfold enqueue. rewrite length_app. cbn [List.length].
    destruct (eventQueue o) as [| x rest] eqn:Hqueue; [reflexivity |].
    cbn [List.length] in *.
    destruct (Nat.ltb_spec 100 (S (List.length rest) + 1)),
             (Nat.ltb_spec (S (List.length rest)) 100);
      try lia; reflexivity.
  - unfold s in *. rewrite run_app.
    destruct (Sound_run env more _ HS HB) as [_ [_ [[_ [Hobj _]] _]]].
    destruct (Hobj sid o Ho) as [o' [Ho' [Hn Hnew]]].
    exists o'. repeat split; assumption.
Qed.

Lemma event_queue_discipline_witness :
  JsMap.get 0 (sessions (run BrokerRuns.defaultEnv
                             BrokerRuns.sessionWithRequest initial))
  = Some sampleSession
  /\ (List.length (eventQueue sampleSession) <= 100)%nat
  /\ StronglySorted Z.lt (map ev_id (eventQueue sampleSession))
  /\ exists o1,
       JsMap.get 0
         (sessions (fst (sendEventToSession 0 "resourceUpdated"
                           (Data (Js.Str "file:///a")) false
                           (run BrokerRuns.defaultEnv
                                BrokerRuns.sessionWithRequest initial))))
       = Some o1
       /\ nextEventId o1 = (nextEventId sampleSession + 1)%Z
       /\ eventQueue o1
          = eventQueue sampleSession
            ++ [{| ev_id := nextEventId sampleSession;
                   ev_event := "resourceUpdated";
                   ev_data := Data (Js.Str "file:///a") |}].
Proof.
  assert (H : JsMap.get 0 (sessions (run BrokerRuns.defaultEnv
                                         BrokerRuns.sessionWithRequest
                                         initial))
              = Some sampleSession) by (vm_compute; reflexivity).
  split; [exact H |].
  pose proof (event_queue_discipline BrokerRuns.defaultEnv
                BrokerRuns.sessionWithRequest
                [HostEvent "capabilitiesUpdated" (Js.Obj []) (fun _ => false)]
                0 sampleSession H)
    as [Hlen [Hsorted [_ [_ [_ [Hsend _]]]]]].
  split; [exact Hlen |]. split; [exact Hsorted |].
  destruct (Hsend "resourceUpdated" (Data (Js.Str "file:///a")) false)
    as [o1 [Ho1 [Hn1 Hq1]]]; [vm_compute; auto |].
  exists o1. split; [exact Ho1 |]. split; [exact Hn1 |]. exact Hq1.
Defined.

End BrokerFacts.

(* ================================================================== *)
(** * Aggregation: what holds of the keyed maps                         *)
(* ================================================================== *)

Module AggregationFacts.
Import Types Core.

Section OneKind.

Context {T : Type} (field : T -> string).

Definition entryOf (serverId : string) (it : T)
  : string * Aggregated T :=
  (keyOf serverId (field it), {| Types.serverId := serverId; item := it |}).

Definition ownedBy (serverId : string) (kv : string * Aggregated T) : bool :=
  (Types.serverId (snd kv) =? serverId)%string.

Lemma delete_twice (ks : list string) (m : JsMap.t string (Aggregated T)) :
  deleteKeys ks m
  = filter (fun kv => negb (existsb (fun k => (k =? fst kv)%string) ks)) m.
Proof.
  unfold deleteKeys. revert m.
  induction ks as [| k rest IH]; intros m; simpl.
  - induction m as [| kv m IHm]; simpl; [reflexivity | now rewrite <- IHm].
  - rewrite IH. unfold JsMap.delete. simpl.
    induction m as [| kv m IHm]; simpl; [reflexivity |].
    destruct (k =? fst kv)%string; simpl; [exact IHm |].
    destruct (existsb (fun k0 => (k0 =? fst kv)%string) rest); simpl;
      [exact IHm | now rewrite IHm].
Qed.

Lemma key_owner (m : JsMap.t string (Aggregated T)) kv kv' :
  NoDup (JsMap.keys m) -> In kv m -> In kv' m -> fst kv = fst kv' ->
  kv = kv'.
Proof.
  unfold JsMap.keys.
  induction m as [| x rest IH]; simpl; [intros _ [] |].
  intros Hnd H1 H2 Hk. inversion Hnd as [| ? ? Hnotin Hrest]; subst.
  destruct H1 as [<- | H1], H2 as [<- | H2].
  - reflexivity.
  - elim Hnotin. rewrite Hk. now apply in_map.
  - elim Hnotin. rewrite <- Hk. now apply in_map.
  - now apply IH.
Qed.

(** [removeServerCapabilities] on one map: exactly the entries of the
    server go. *)
Lemma removeFrom_exact serverId (m : JsMap.t string (Aggregated T)) :
  NoDup (JsMap.keys m) ->
  removeFrom serverId m = filter (fun kv => negb (ownedBy serverId kv)) m.
Proof.
  intros Hnd. unfold removeFrom. rewrite delete_twice.
  apply filter_ext_in. intros kv Hin. f_equal.
  unfold keysToDelete, JsMap.entries.
  destruct (ownedBy serverId kv) eqn:Hown.
  - apply existsb_exists. exists (fst kv). split; [| apply String.eqb_refl].
    apply in_map. apply filter_In. split; assumption.
  - destruct (existsb _ _) eqn:He; [| reflexivity].
    apply existsb_exists in He. destruct He as [k [Hk Heq]].
    apply String.eqb_eq in Heq. subst k.
    apply in_map_iff in Hk. destruct Hk as [kv' [Hfst Hin']].
    apply filter_In in Hin'. destruct Hin' as [Hin' Hown'].
    assert (kv' = kv) by (eapply key_owner; eauto). subst kv'.
    unfold ownedBy in *. congruence.
Qed.

Lemma keys_filter_distinct (p : string * Aggregated T -> bool)
      (m : JsMap.t string (Aggregated T)) :
  NoDup (JsMap.keys m) -> NoDup (JsMap.keys (filter p m)).
Proof.
  unfold JsMap.keys. intros Hnd.
  induction m as [| x rest IH]; simpl; [constructor |].
  inversion Hnd as [| ? ? Hnotin Hrest]; subst.
  destruct (p x); simpl; [| now apply IH].
  constructor; [| now apply IH].
  intros Hin. apply Hnotin. apply in_map_iff in Hin.
  destruct Hin as [y [Hy Hin]]. apply filter_In in Hin.
  apply in_map_iff. exists y. tauto.
Qed.

Lemma set_new_key k (v : Aggregated T) (m : JsMap.t string (Aggregated T)) :
  ~ In k (JsMap.keys m) -> JsMap.set k v m = m ++ [(k, v)].
Proof.
  unfold JsMap.keys.
  induction m as [| [k0 v0] rest IH]; simpl; intros Hnot; [reflexivity |].
  destruct (String.eqb_spec k k0) as [-> | Hne].
  - elim Hnot. now left.
  - rewrite IH; [reflexivity |]. intros Hin. apply Hnot. now right.
Qed.

Lemma keyOf_name serverId a b : keyOf serverId a = keyOf serverId b -> a = b.
Proof.
  unfold keyOf. induction serverId as [| c rest IH]; simpl.
  - now intros [= ->].
  - intros [= H]. now apply IH.
Qed.

(** Ids without a slash give disjoint key spaces. *)
Lemma keyOf_server a b x y :
  Str.contains "/" a = false -> Str.contains "/" b = false ->
  keyOf a x = keyOf b y -> a = b.
Proof.
  unfold keyOf. revert b.
  induction a as [| c rest IH]; intros [| d rest']; simpl; intros Ha Hb Hk.
  - reflexivity.
  - injection Hk as Hc _. subst d. simpl in Hb. discriminate.
  - injection Hk as Hc _. subst c. simpl in Ha. discriminate.
  - injection Hk as Hc Hrest. subst d.
    apply orb_false_elim in Ha, Hb. destruct Ha as [_ Ha], Hb as [_ Hb].
    f_equal. now apply (IH rest').
Qed.

(** Adding a listing whose keys are all new appends it in order. *)
Lemma addAll_new serverId (items : list T)
      (m : JsMap.t string (Aggregated T)) :
  NoDup (map field items) ->
  (forall it, In it items -> ~ In (keyOf serverId (field it)) (JsMap.keys m)) ->
  addAll field serverId items m = m ++ map (entryOf serverId) items.
Proof.
  unfold addAll. revert m.
  induction items as [| it rest IH]; intros m Hnd Hnew; simpl.
  - now rewrite app_nil_r.
  - inversion Hnd as [| ? ? Hnotin Hrest]; subst.
    rewrite set_new_key by (apply Hnew; now left).
    rewrite IH; [now rewrite <- app_assoc | exact Hrest |].
    intros it' Hin' Hk. unfold JsMap.keys in Hk.
    rewrite map_app in Hk. apply in_app_or in Hk.
    destruct Hk as [Hk | [Hk | []]].
    + apply (Hnew it'); [now right | exact Hk].
    + simpl in Hk. apply keyOf_name in Hk. apply Hnotin. rewrite Hk.
      now apply in_map.
Qed.

Lemma ownedBy_entries serverId other (items : list T) :
  serverId <> other ->
  filter (fun kv => negb (ownedBy other kv)) (map (entryOf serverId) items)
  = map (entryOf serverId) items.
Proof.
  intros Hne. induction items as [| it rest IH]; simpl; [reflexivity |].
  unfold ownedBy at 1. simpl.
  destruct (String.eqb_spec serverId other); [congruence |]. simpl.
  now rewrite IH.
Qed.

Lemma ownedBy_own serverId (items : list T) :
  filter (fun kv => negb (ownedBy serverId kv)) (map (entryOf serverId) items)
  = [].
Proof.
  induction items as [| it rest IH]; simpl; [reflexivity |].
  unfold ownedBy at 1. simpl. now rewrite String.eqb_refl.
Qed.

Lemma entries_distinct serverId (items : list T) :
  NoDup (map field items) ->
  NoDup (JsMap.keys (map (entryOf serverId) items)).
Proof.
  unfold JsMap.keys. rewrite map_map. simpl.
  induction items as [| it rest IH]; simpl; intros Hnd; [constructor |].
  inversion Hnd as [| ? ? Hnotin Hrest]; subst.
  constructor; [| now apply IH].
  intros Hin. apply in_map_iff in Hin. destruct Hin as [it' [Hk Hin]].
  apply keyOf_name in Hk. apply Hnotin. rewrite <- Hk. now apply in_map.
Qed.

(** One map, two servers whose ids contain no slash, listings without
    repeated names: after both were refreshed the map is the first
    listing followed by the second, and removing the second server
    leaves exactly the first listing. *)
Lemma two_servers_one_map a b (itemsA itemsB : list T) :
  a <> b ->
  Str.contains "/" a = false -> Str.contains "/" b = false ->
  NoDup (map field itemsA) -> NoDup (map field itemsB) ->
  let mA := addAll field a itemsA (removeFrom a JsMap.empty) in
  let mAB := addAll field b itemsB (removeFrom b mA) in
  mA = map (entryOf a) itemsA
  /\ mAB = map (entryOf a) itemsA ++ map (entryOf b) itemsB
  /\ removeFrom b mAB = map (entryOf a) itemsA.
Proof.
  intros Hab Ha Hb HndA HndB mA mAB.
  assert (HmA : mA = map (entryOf a) itemsA).
  { unfold mA. rewrite addAll_new; [reflexivity | exact HndA |].
    intros it _ []. }
  assert (HmAB : mAB = map (entryOf a) itemsA ++ map (entryOf b) itemsB).
  { unfold mAB. rewrite HmA.
    rewrite removeFrom_exact by (now apply entries_distinct).
    rewrite ownedBy_entries by assumption.
    apply addAll_new; [exact HndB |].
    intros it Hin Hk. unfold JsMap.keys in Hk. apply in_map_iff in Hk.
    destruct Hk as [kv [Hk Hin']]. apply in_map_iff in Hin'.
    destruct Hin' as [it' [<- _]]. simpl in Hk.
    apply Hab. eapply keyOf_server; eassumption. }
  split; [exact HmA |]. split; [exact HmAB |].
  rewrite HmAB. rewrite removeFrom_exact.
  - rewrite filter_app, ownedBy_entries, ownedBy_own by assumption.
    apply app_nil_r.
  - unfold JsMap.keys. rewrite map_app. apply NoDup_app.
    + now apply entries_distinct.
    + now apply entries_distinct.
    + intros k HkA HkB. apply in_map_iff in HkA, HkB.
      destruct HkA as [kvA [HkA HinA]], HkB as [kvB [HkB HinB]].
      apply in_map_iff in HinA, HinB.
      destruct HinA as [itA [<- _]], HinB as [itB [<- _]]. simpl in *.
      apply Hab.
      apply (keyOf_server a b (field itA) (field itB) Ha Hb). congruence.
Qed.

Lemma set_keys_distinct k (v : Aggregated T)
      (m : JsMap.t string (Aggregated T)) :
  NoDup (JsMap.keys m) -> NoDup (JsMap.keys (JsMap.set k v m)).
Proof.
  unfold JsMap.keys.
  assert (Hin : forall k' (m' : JsMap.t string (Aggregated T)),
            In k' (map fst (JsMap.set k v m')) -> k' = k \/ In k' (map fst m')).
  { intros k' m'. induction m' as [| [k0 v0] rest IH]; simpl.
    - intros [<- | []]. now left.
    - destruct (String.eqb_spec k k0) as [-> | Hne]; simpl.
      + intros [<- | H]; [right; now left | right; now right].
      + intros [<- | H]; [right; now left |].
        destruct (IH H) as [-> | H']; [now left | right; now right]. }
  induction m as [| [k0 v0] rest IH]; simpl; intros Hnd.
  - constructor; [intros [] | constructor].
  - inversion Hnd as [| ? ? Hnotin Hrest]; subst.
    destruct (String.eqb_spec k k0) as [-> | Hne]; simpl.
    + now constructor.
    + constructor; [| now apply IH].
      intros H. destruct (Hin _ _ H) as [Heq | H']; [congruence | contradiction].
Qed.

Lemma addAll_keys_distinct serverId (items : list T)
      (m : JsMap.t string (Aggregated T)) :
  NoDup (JsMap.keys m) -> NoDup (JsMap.keys (addAll field serverId items m)).
Proof.
  unfold addAll. revert m.
  induction items as [| it rest IH]; intros m Hnd; simpl; [exact Hnd |].
  apply IH. now apply set_keys_distinct.
Qed.

Lemma removeFrom_keys_distinct serverId (m : JsMap.t string (Aggregated T)) :
  NoDup (JsMap.keys m) -> NoDup (JsMap.keys (removeFrom serverId m)).
Proof.
  intros Hnd. rewrite removeFrom_exact by exact Hnd.
  now apply keys_filter_distinct.
Qed.

Lemma values_removeFrom serverId (m : JsMap.t string (Aggregated T)) :
  NoDup (JsMap.keys m) ->
  JsMap.values (removeFrom serverId m)
  = filter (fun e => negb (Types.serverId e =? serverId)%string)
           (JsMap.values m).
Proof.
  intros Hnd. rewrite removeFrom_exact by exact Hnd.
  unfold JsMap.values, ownedBy.
  induction m as [| kv rest IH]; simpl; [reflexivity |].
  inversion Hnd as [| ? ? _ Hrest]; subst.
  destruct (Types.serverId (snd kv) =? serverId)%string; simpl;
    now rewrite IH.
Qed.

End OneKind.

(** ** Hosts reached by connecting, refreshing and disconnecting *)

Inductive HostInput :=
| Connected (serverId : string) (client : Client)
| Refreshed (serverId : string) (client : Client)
| Closed (serverId : string).

Definition hostStep (h : Host) (i : HostInput) : Host :=
  match i with
  | Connected serverId client => connectToServer serverId client h
  | Refreshed serverId client => updateServerCapabilities serverId client h
  | Closed serverId => handleServerDisconnection serverId h
  end.

Definition runHost (inputs : list HostInput) (h : Host) : Host :=
  fold_left hostStep inputs h.

(** The four aggregated maps are [Map]s: no key twice. *)
Definition keysDistinct (h : Host) : Prop :=
  NoDup (JsMap.keys (aggregatedTools h))
  /\ NoDup (JsMap.keys (aggregatedResources h))
  /\ NoDup (JsMap.keys (aggregatedResourceTemplates h))
  /\ NoDup (JsMap.keys (aggregatedPrompts h)).

Lemma keysDistinct_remove serverId h :
  keysDistinct h -> keysDistinct (removeServerCapabilities serverId h).
Proof.
  intros [H1 [H2 [H3 H4]]].
  repeat split; simpl; now apply removeFrom_keys_distinct.
Qed.

Lemma keysDistinct_update serverId client h :
  keysDistinct h -> keysDistinct (updateServerCapabilities serverId client h).
Proof.
  intros Hk. unfold updateServerCapabilities.
  pose proof (keysDistinct_remove serverId h Hk) as Hr.
  destruct (getServerCapabilities client) as [caps |]; [| exact Hr].
  assert (Hstep : forall {T : Type} (e : bool) (l : option (list T))
                         (add : list T -> Host -> Host) h0,
            (forall items h1, keysDistinct h1 -> keysDistinct (add items h1)) ->
            keysDistinct h0 -> keysDistinct (whenListed e l add h0)).
  { intros T e l add h0 Hadd H0. unfold whenListed.
    destruct e; [| exact H0]. destruct l; [now apply Hadd | exact H0]. }
  apply Hstep.
  { intros items h1 [H1 [H2 [H3 H4]]]. repeat split; simpl; try assumption.
    now apply addAll_keys_distinct. }
  apply Hstep.
  { intros items h1 [H1 [H2 [H3 H4]]]. repeat split; simpl; try assumption.
    now apply addAll_keys_distinct. }
  apply Hstep.
  { intros items h1 [H1 [H2 [H3 H4]]]. repeat split; simpl; try assumption.
    now apply addAll_keys_distinct. }
  apply Hstep.
  { intros items h1 [H1 [H2 [H3 H4]]]. repeat split; simpl; try assumption.
    now apply addAll_keys_distinct. }
  exact Hr.
Qed.

Lemma keysDistinct_run inputs h :
  keysDistinct h -> keysDistinct (runHost inputs h).
Proof.
  unfold runHost. revert h.
  induction inputs as [| i rest IH]; intros h Hk; simpl; [exact Hk |].
  apply IH. destruct i as [sid c | sid c | sid]; simpl.
  - unfold connectToServer. now apply keysDistinct_update.
  - now apply keysDistinct_update.
  - unfold handleServerDisconnection.
    destruct (JsMap.get sid (clients h)); [| exact Hk].
    now apply keysDistinct_remove.
Qed.

(** X1.  On every host reached by connecting, refreshing and
    disconnecting servers, [removeServerCapabilities] removes from
    each aggregated collection exactly the entries whose [serverId] is
    the given one, and keeps the others in order. *)
Theorem removeServerCapabilities_exact (inputs : list HostInput)
        (serverId : string) :
  let h := runHost inputs newHost in
  let keep {T : Type} (e : Aggregated T) :=
    negb (Types.serverId e =? serverId)%string in
  getTools (removeServerCapabilities serverId h) = filter keep (getTools h)
  /\ getResources (removeServerCapabilities serverId h)
     = filter keep (getResources h)
  /\ getResourceTemplates (removeServerCapabilities serverId h)
     = filter keep (getResourceTemplates h)
  /\ getPrompts (removeServerCapabilities serverId h)
     = filter keep (getPrompts h).
Proof.
  intros h keep.
  assert (Hk : keysDistinct h).
  { apply keysDistinct_run. repeat split; constructor. }
  destruct Hk as [H1 [H2 [H3 H4]]].
  unfold getTools, getResources, getResourceTemplates, getPrompts. simpl.
  repeat split; now apply values_removeFrom.
Qed.

(** A client that declares tools and lists [tools]. *)
Definition listsTools (client : Client) (tools : list Tool) : Prop :=
  exists caps, getServerCapabilities client = Some caps
               /\ cap_tools caps = true
               /\ listTools client = Some tools.

Definition aggregatedTool (serverId : string) (t : Tool) : AggregatedTool :=
  {| Types.serverId := serverId; item := t |}.

Lemma aggregatedTools_update serverId client tools h :
  listsTools client tools ->
  aggregatedTools (updateServerCapabilities serverId client h)
  = addAll tool_name serverId tools (removeFrom serverId (aggregatedTools h)).
Proof.
  intros [caps [Hc [Ht Hl]]]. unfold updateServerCapabilities.
  rewrite Hc, Ht, Hl. unfold whenListed.
  destruct (cap_prompts caps); [destruct (listPrompts client) |];
    destruct (cap_resources caps && cap_resources_templates caps);
    try destruct (listResourceTemplates client);
    destruct (cap_resources caps); try destruct (listResources client);
    reflexivity.
Qed.

Lemma client_registered serverId client (m : JsMap.t string Client) :
  JsMap.get serverId (JsMap.set serverId client m) = Some client.
Proof.
  induction m as [| [k v] rest IH]; simpl.
  - now rewrite String.eqb_refl.
  - destruct (String.eqb_spec serverId k) as [-> | Hne]; simpl.
    + now rewrite String.eqb_refl.
    + destruct (String.eqb_spec serverId k); [congruence | exact IH].
Qed.

(** X2.  For two servers whose distinct ids contain no slash and
    whose tool listings repeat no name, the aggregated tools after
    connecting both are the first listing followed by the second, and
    disconnecting the second leaves exactly the first listing. *)
Theorem tools_of_two_servers (a b : string) (clientA clientB : Client)
        (toolsA toolsB : list Tool) :
  a <> b ->
  Str.contains "/" a = false -> Str.contains "/" b = false ->
  listsTools clientA toolsA -> listsTools clientB toolsB ->
  NoDup (map tool_name toolsA) -> NoDup (map tool_name toolsB) ->
  let hAB := connectToServer b clientB (connectToServer a clientA newHost) in
  getTools hAB
  = map (aggregatedTool a) toolsA ++ map (aggregatedTool b) toolsB
  /\ getTools (handleServerDisconnection b hAB)
     = map (aggregatedTool a) toolsA.
Proof.
  intros Hab Ha Hb HA HB HndA HndB hAB.
  destruct (two_servers_one_map tool_name a b toolsA toolsB
              Hab Ha Hb HndA HndB) as [_ [HmAB Hrm]].
  assert (Htools : aggregatedTools hAB
                   = map (entryOf tool_name a) toolsA
                     ++ map (entryOf tool_name b) toolsB).
  { unfold hAB, connectToServer.
    rewrite (aggregatedTools_update b clientB toolsB) by exact HB.
    cbn [aggregatedTools setClients].
    rewrite (aggregatedTools_update a clientA toolsA) by exact HA.
    exact HmAB. }
  assert (Hvalues : forall sid (l : list Tool),
            map snd (map (entryOf tool_name sid) l)
            = map (aggregatedTool sid) l).
  { intros sid l. rewrite map_map. reflexivity. }
  split.
  - unfold getTools, JsMap.values. rewrite Htools, map_app.
    now rewrite !Hvalues.
  - unfold handleServerDisconnection.
    assert (Hcl : JsMap.get b (clients hAB) = Some clientB).
    { unfold hAB, connectToServer, updateServerCapabilities.
      destruct HB as [caps [-> _]]. unfold whenListed.
      destruct (cap_tools caps); try destruct (listTools clientB);
        destruct (cap_resources caps); try destruct (listResources clientB);
        simpl; try destruct (cap_resources_templates caps);
        try destruct (listResourceTemplates clientB);
        destruct (cap_prompts caps); try destruct (listPrompts clientB);
        simpl; apply client_registered. }
    rewrite Hcl. unfold getTools, JsMap.values.
    cbn [aggregatedTools removeServerCapabilities setClients].
    rewrite Htools, <- HmAB, Hrm. apply Hvalues.
Qed.

Lemma tools_of_two_servers_witness :
  getTools (connectToServer "git" (HostFacts.toolClient ["log"])
              (connectToServer "fs" (HostFacts.toolClient ["read"; "write"])
                               newHost))
  = map (aggregatedTool "fs")
        [{| tool_name := "read"; tool_rest := Js.Null |};
         {| tool_name := "write"; tool_rest := Js.Null |}]
    ++ map (aggregatedTool "git")
           [{| tool_name := "log"; tool_rest := Js.Null |}].
Proof.
  refine (proj1 (tools_of_two_servers "fs" "git"
                   (HostFacts.toolClient ["read"; "write"])
                   (HostFacts.toolClient ["log"])
                   [{| tool_name := "read"; tool_rest := Js.Null |};
                    {| tool_name := "write"; tool_rest := Js.Null |}]
                   [{| tool_name := "log"; tool_rest := Js.Null |}]
                   _ _ _ _ _ _ _)).
  - discriminate.
  - reflexivity.
  - reflexivity.
  - eexists. repeat split.
  - eexists. repeat split.
  - repeat constructor; simpl; intuition discriminate.
  - repeat constructor; simpl; intuition discriminate.
Defined.

End AggregationFacts.

(* ================================================================== *)
(** * Further properties of the resolver and the router                 *)
(* ================================================================== *)

Module FurtherFacts.
Import Types UriUtils UriUtilsFacts.

Definition hasScheme (sch : string) (r : AggregatedResource) : bool :=
  (uriSchemeOf (resource_uri (item r)) =? sch)%string.

Lemma setAdd_In x y l : In y (setAdd x l) <-> y = x \/ In y l.
Proof.
  unfold setAdd. destruct (existsb (String.eqb x) l) eqn:He.
  - split; [now right |]. intros [-> | H]; [| exact H].
    apply existsb_exists in He. destruct He as [z [Hz Heq]].
    apply String.eqb_eq in Heq. now subst.
  - rewrite in_app_iff. simpl. split.
    + intros [H | [<- | []]]; [now right | now left].
    + intros [-> | H]; [right; now left | now left].
Qed.

Lemma setAdd_NoDup x l : NoDup l -> NoDup (setAdd x l).
Proof.
  intros Hnd. unfold setAdd. destruct (existsb (String.eqb x) l) eqn:He;
    [exact Hnd |].
  apply NoDup_app; [exact Hnd | constructor; [intros [] | constructor] |].
  intros y Hy [Heq | []]. subst y.
  assert (Hex : existsb (String.eqb x) l = true).
  { apply existsb_exists. exists x. split; [exact Hy | apply String.eqb_refl]. }
  congruence.
Qed.

Lemma collect_servers sch (resources : list AggregatedResource) acc sid :
  In sid (fold_left (fun a r => if hasScheme sch r
                                then setAdd (Types.serverId r) a else a)
                    resources acc)
  <-> In sid acc
      \/ exists r, In r resources /\ Types.serverId r = sid
                   /\ hasScheme sch r = true.
Proof.
  revert acc. induction resources as [| r rest IH]; intros acc; simpl.
  - split; [now left | intros [H | [r [[] _]]]; exact H].
  - rewrite IH. destruct (hasScheme sch r) eqn:Hs.
    + rewrite setAdd_In. split.
      * intros [[-> | H] | [r' [Hin Hr']]]; [right | now left | right].
        -- exists r. auto.
        -- exists r'. split; [now right | exact Hr'].
      * intros [H | [r' [[<- | Hin] [Hsid Hr']]]].
        -- left. now right.
        -- left. now left.
        -- right. exists r'. auto.
    + split.
      * intros [H | [r' [Hin Hr']]]; [now left | right].
        exists r'. split; [now right | exact Hr'].
      * intros [H | [r' [[<- | Hin] [Hsid Hr']]]]; [now left | congruence |].
        right. exists r'. auto.
Qed.

Lemma collect_servers_NoDup sch (resources : list AggregatedResource) acc :
  NoDup acc ->
  NoDup (fold_left (fun a r => if hasScheme sch r
                               then setAdd (Types.serverId r) a else a)
                   resources acc).
Proof.
  revert acc. induction resources as [| r rest IH]; intros acc Hnd; simpl;
    [exact Hnd |].
  apply IH. destruct (hasScheme sch r); [now apply setAdd_NoDup | exact Hnd].
Qed.

Section SchemeFallback.

Variable regexTest : string -> string -> option bool.

(** X4.  Resolver scheme fallback.  When no resource has exactly the
    target URI and no template matches, every returned entry is a
    [scheme] entry of confidence 0.5 for a server that offers at least
    one resource whose scheme is the target's, and no server is
    returned twice. *)
Theorem resolveResourceServer_scheme_fallback uri resources templates :
  existsb (fun r : AggregatedResource =>
             (resource_uri (item r) =? uri)%string) resources = false ->
  templateMatches regexTest uri templates = Some [] ->
  exists results,
    resolveResourceServer regexTest uri resources templates = Some results
    /\ NoDup (map UriUtils.serverId results)
    /\ forall x, In x results ->
         matchType x = scheme
         /\ confidence x = (1 # 2)%Q
         /\ exists r, In r resources
                      /\ Types.serverId r = UriUtils.serverId x
                      /\ uriSchemeOf (resource_uri (item r)) = uriSchemeOf uri.
Proof.
  intros Hex Htpl. unfold resolveResourceServer.
  assert (Hnone : exactMatches uri resources = []).
  { unfold exactMatches. clear Htpl.
    induction resources as [| r rest IH]; simpl in *; [reflexivity |].
    apply orb_false_elim in Hex. destruct Hex as [Hr Hrest].
    rewrite Hr. now apply IH. }
  rewrite Hnone, Htpl. simpl.
  rewrite (sortByConfidence_constant (1 # 2)%Q).
  2:{ apply Forall_forall. intros x Hx. apply in_map_iff in Hx.
      now destruct Hx as [sid [<- _]]. }
  eexists. split; [reflexivity |]. split.
  - rewrite map_map. simpl. rewrite map_id.
    apply (collect_servers_NoDup (uriSchemeOf uri) resources []). constructor.
  - intros x Hx. apply in_map_iff in Hx. destruct Hx as [sid [<- Hsid]].
    split; [reflexivity |]. split; [reflexivity |]. simpl.
    apply (collect_servers (uriSchemeOf uri) resources [] sid) in Hsid.
    destruct Hsid as [[] | [r [Hin [Hr Hs]]]].
    exists r. split; [exact Hin |]. split; [exact Hr |].
    now apply String.eqb_eq.
Qed.

End SchemeFallback.

Definition webResource : AggregatedResource :=
  {| Types.serverId := "W";
     item := {| resource_uri := "http://api/x"; resource_name := "x";
                resource_rest := Js.Null |} |}.

Lemma resolveResourceServer_scheme_fallback_witness :
  exists results,
    resolveResourceServer (fun _ _ => Some false) "http://other/y"
                          [webResource] []
    = Some results
    /\ NoDup (map UriUtils.serverId results).
Proof.
  destruct (resolveResourceServer_scheme_fallback
              (fun _ _ => Some false) "http://other/y" [webResource] []
              eq_refl eq_refl) as [results [Hres [Hnd _]]].
  exists results. split; assumption.
Defined.

Import ApiServer EndpointFacts.

(** X3.  A [POST /mcp] is never answered [204]: every request in the
    body yields a response, so the status is [200] or [202]. *)
Theorem postMcp_never_204 (hv : HostView) (req : PostRequest) (s : Server) :
  statusOf (snd (postMcp hv req s)) = 200%Z
  \/ statusOf (snd (postMcp hv req s)) = 202%Z.
Proof.
  rewrite postMcp_cases. cbv zeta.
  destruct (upgradesToSSE req).
  - destruct (post_sessionId req) as [sid |]; [| now right].
    destruct (getSession sid (post_now req) (processed hv req s))
      as [s2 [o |]]; now left.
  - destruct (containsRequest (post_body req)) eqn:Hc; [| now right].
    simpl.
    assert (Hne : validOnly (responsesOf hv req s) <> []).
    { unfold responsesOf, containsRequest in *.
      destruct (post_body req) as [| | bb | n | str | items | props];
        try (match goal with
             | |- context [processSingleMessage hv ?h ?t ?b s] =>
                 destruct (processSingleMessage_request hv h t b s Hc)
                   as [r Hr]; rewrite Hr; simpl; discriminate
             end).
      now apply processAll_request. }
    destruct (validOnly (responsesOf hv req s)); [congruence | now left].
Qed.

End FurtherFacts.

(* ================================================================== *)
(** * Suggestions by name                                               *)
(* ================================================================== *)

Module SuggestionFacts.
Import Types Core UriUtils UriUtilsFacts AggregationFacts NameResolvers.

Section Keyed.

Context {T : Type} (field : T -> string).

(** Every entry sits under the key made of its own server id and
    name. *)
Definition keyed (m : JsMap.t string (Aggregated T)) : Prop :=
  forall kv, In kv m ->
             fst kv = keyOf (Types.serverId (snd kv)) (field (item (snd kv))).

Lemma set_entries k (v : Aggregated T) (m : JsMap.t string (Aggregated T)) kv :
  In kv (JsMap.set k v m) -> kv = (k, v) \/ In kv m.
Proof.
  induction m as [| [k0 v0] rest IH]; simpl.
  - intros [<- | []]. now left.
  - destruct (String.eqb_spec k k0) as [-> | Hne]; simpl.
    + intros [<- | Hin]; [now left | right; now right].
    + intros [<- | Hin]; [right; now left |].
      destruct (IH Hin) as [-> | Hin']; [now left | right; now right].
Qed.

Lemma keyed_addAll serverId (items : list T)
      (m : JsMap.t string (Aggregated T)) :
  keyed m -> keyed (addAll field serverId items m).
Proof.
  unfold addAll. revert m.
  induction items as [| it rest IH]; intros m Hm; simpl; [exact Hm |].
  apply IH. intros kv Hin. apply set_entries in Hin.
  destruct Hin as [-> | Hin]; [reflexivity | now apply Hm].
Qed.

Lemma keyed_removeFrom serverId (m : JsMap.t string (Aggregated T)) :
  keyed m -> keyed (removeFrom serverId m).
Proof.
  intros Hm kv Hin. apply Hm. unfold removeFrom in Hin.
  rewrite delete_twice in Hin. apply filter_In in Hin. tauto.
Qed.

(** Among the entries of one name no server occurs twice. *)
Lemma one_entry_per_server (n : string) (m : JsMap.t string (Aggregated T)) :
  NoDup (JsMap.keys m) -> keyed m ->
  NoDup (map Types.serverId
             (filter (fun e => (field (item e) =? n)%string) (JsMap.values m))).
Proof.
  unfold JsMap.keys, JsMap.values.
  induction m as [| kv rest IH]; simpl; intros Hnd Hk; [constructor |].
  inversion Hnd as [| ? ? Hnotin Hrest]; subst.
  assert (Hk' : keyed rest) by (intros x Hx; apply Hk; now right).
  destruct (String.eqb_spec (field (item (snd kv))) n) as [Hn | Hn]; simpl;
    [| now apply IH].
  constructor; [| now apply IH].
  intros Hin. apply in_map_iff in Hin. destruct Hin as [e [Hsid He]].
  apply filter_In in He. destruct He as [He Hname].
  apply String.eqb_eq in Hname.
  apply in_map_iff in He. destruct He as [kv' [<- Hin']].
  apply Hnotin. apply in_map_iff. exists kv'. split; [| exact Hin'].
  rewrite (Hk kv (or_introl eq_refl)), (Hk' kv' Hin').
  now rewrite Hsid, Hname, Hn.
Qed.

End Keyed.

Definition keyedHost (h : Host) : Prop :=
  keyed tool_name (aggregatedTools h)
  /\ keyed resource_uri (aggregatedResources h)
  /\ keyed template_id (aggregatedResourceTemplates h)
  /\ keyed prompt_name (aggregatedPrompts h).

Lemma keyedHost_remove serverId h :
  keyedHost h -> keyedHost (removeServerCapabilities serverId h).
Proof.
  intros [H1 [H2 [H3 H4]]].
  repeat split; simpl; now apply keyed_removeFrom.
Qed.

Lemma keyedHost_update serverId client h :
  keyedHost h -> keyedHost (updateServerCapabilities serverId client h).
Proof.
  intros Hk. unfold updateServerCapabilities.
  pose proof (keyedHost_remove serverId h Hk) as Hr.
  destruct (getServerCapabilities client) as [caps |]; [| exact Hr].
  assert (Hstep : forall {T : Type} (e : bool) (l : option (list T))
                         (add : list T -> Host -> Host) h0,
            (forall items h1, keyedHost h1 -> keyedHost (add items h1)) ->
            keyedHost h0 -> keyedHost (whenListed e l add h0)).
  { intros T e l add h0 Hadd H0. unfold whenListed.
    destruct e; [| exact H0]. destruct l; [now apply Hadd | exact H0]. }
  apply Hstep.
  { intros items h1 [H1 [H2 [H3 H4]]]. repeat split; simpl; try assumption.
    now apply keyed_addAll. }
  apply Hstep.
  { intros items h1 [H1 [H2 [H3 H4]]]. repeat split; simpl; try assumption.
    now apply keyed_addAll. }
  apply Hstep.
  { intros items h1 [H1 [H2 [H3 H4]]]. repeat split; simpl; try assumption.
    now apply keyed_addAll. }
  apply Hstep.
  { intros items h1 [H1 [H2 [H3 H4]]]. repeat split; simpl; try assumption.
    now apply keyed_addAll. }
  exact Hr.
Qed.

Lemma keyedHost_run inputs h : keyedHost h -> keyedHost (runHost inputs h).
Proof.
  unfold runHost. revert h.
  induction inputs as [| i rest IH]; intros h Hk; simpl; [exact Hk |].
  apply IH. destruct i as [sid c | sid c | sid]; simpl.
  - unfold connectToServer. now apply keyedHost_update.
  - now apply keyedHost_update.
  - unfold handleServerDisconnection.
    destruct (JsMap.get sid (clients h)); [| exact Hk].
    now apply keyedHost_remove.
Qed.

Lemma nameSuggestion_servers {T : Type} (l : list (Aggregated T)) :
  map UriUtils.serverId (map nameSuggestion l) = map Types.serverId l.
Proof. rewrite map_map. reflexivity. Qed.

Lemma sort_names {T : Type} (l : list (Aggregated T)) :
  sortByConfidence (map nameSuggestion l) = map nameSuggestion l.
Proof.
  apply (sortByConfidence_constant 1%Q). apply Forall_forall.
  intros x Hx. apply in_map_iff in Hx. now destruct Hx as [e [<- _]].
Qed.

(** X5.  On every host reached by connecting, refreshing and
    disconnecting servers, [suggestServerForTool] answers one entry of
    match type [name] and confidence 1 for each aggregated tool of
    that name, in the order of [getTools], and it names no server
    twice; the same holds of [suggestServerForPrompt]. *)
Theorem suggestions_by_name (inputs : list HostInput) (n : string) :
  let h := runHost inputs newHost in
  suggestServerForTool n h
  = map nameSuggestion
        (filter (fun t => (tool_name (item t) =? n)%string) (getTools h))
  /\ NoDup (map UriUtils.serverId (suggestServerForTool n h))
  /\ suggestServerForPrompt n h
     = map nameSuggestion
           (filter (fun p => (prompt_name (item p) =? n)%string)
                   (getPrompts h))
  /\ NoDup (map UriUtils.serverId (suggestServerForPrompt n h)).
Proof.
  intros h.
  assert (Hd : keysDistinct h).
  { apply keysDistinct_run. repeat split; constructor. }
  assert (Hk : keyedHost h).
  { apply keyedHost_run. repeat split; intros kv []. }
  destruct Hd as [D1 [_ [_ D4]]]. destruct Hk as [K1 [_ [_ K4]]].
  unfold suggestServerForTool, suggestServerForPrompt,
    resolveToolServer, resolvePromptServer.
  rewrite !sort_names, !nameSuggestion_servers.
  split; [reflexivity |]. split.
  - apply (one_entry_per_server tool_name n _ D1 K1).
  - split; [reflexivity |].
    apply (one_entry_per_server prompt_name n _ D4 K4).
Qed.

End SuggestionFacts.

(* ================================================================== *)
(** * The router of [POST /mcp]                                         *)
(* ================================================================== *)

Module RoutingFacts.
Import Types ApiServer.

(** The number of slashes of a string. *)
Fixpoint slashes (s : string) : nat :=
  match s with
  | EmptyString => 0
  | String c rest => (if Ascii.eqb c "/" then 1 else 0) + slashes rest
  end.

Lemma slashes_app a b : slashes (a ++ b)%string = slashes a + slashes b.
Proof. induction a as [| c rest IH]; simpl; [reflexivity | rewrite IH; lia]. Qed.

Lemma slashes_clean s : Str.contains "/" s = false <-> slashes s = 0.
Proof.
  induction s as [| c rest IH]; simpl; [tauto |].
  destruct (Ascii.eqb c "/"); simpl; [split; [discriminate | lia] | exact IH].
Qed.

Lemma slashes_dirty s : Str.contains "/" s = true -> 1 <= slashes s.
Proof.
  intros H. destruct (slashes s) eqn:Hs; [| lia].
  apply slashes_clean in Hs. congruence.
Qed.

Lemma split_nonempty s : Str.split "/" s <> [].
Proof.
  destruct s as [| c rest]; simpl; [discriminate |].
  destruct (Ascii.eqb c "/"); [discriminate |].
  destruct (Str.split "/" rest); discriminate.
Qed.

Lemma split_clean s p : In p (Str.split "/" s) -> slashes p = 0.
Proof.
  revert p. induction s as [| c rest IH]; simpl; intros p.
  - intros [<- | []]. reflexivity.
  - destruct (Ascii.eqb c "/") eqn:Hc.
    + intros [<- | Hin]; [reflexivity | now apply IH].
    + destruct (Str.split "/" rest) as [| q qs] eqn:Hs.
      * intros [<- | []]. simpl. now rewrite Hc.
      * intros [<- | Hin].
        -- simpl. rewrite Hc. apply IH. now left.
        -- apply IH. now right.
Qed.

Lemma split_app a b :
  slashes a = 0 ->
  Str.split "/" (a ++ String "/" b)%string = a :: Str.split "/" b.
Proof.
  induction a as [| c rest IH]; simpl; intros Ha.
  - reflexivity.
  - destruct (Ascii.eqb c "/"); [discriminate |].
    now rewrite IH.
Qed.

Lemma split_last a : slashes a = 0 -> Str.split "/" a = [a].
Proof.
  induction a as [| c rest IH]; simpl; intros Ha; [reflexivity |].
  destruct (Ascii.eqb c "/"); [discriminate |]. now rewrite IH.
Qed.

Lemma interpolate_clean parts i :
  (forall p, In p parts -> slashes p = 0) ->
  slashes (interpolate (nth_error parts i)) = 0.
Proof.
  intros H. destruct (nth_error parts i) as [p |] eqn:Hp; simpl.
  - apply H. eapply nth_error_In. exact Hp.
  - reflexivity.
Qed.

Lemma length_app (a b : string) :
  String.length (a ++ b)%string = String.length a + String.length b.
Proof. induction a as [| c rest IH]; simpl; [reflexivity | now rewrite IH]. Qed.

(** Strings that end differently differ. *)
Lemma tails_differ x y a b :
  String.length a = String.length b -> a <> b ->
  (x ++ a)%string <> (y ++ b)%string.
Proof.
  intros Hlen Hab. revert y.
  induction x as [| c rest IH]; intros [| d rest']; simpl.
  - exact Hab.
  - intros Heq. apply (f_equal String.length) in Heq. simpl in Heq.
    rewrite length_app in Heq. lia.
  - intros Heq. apply (f_equal String.length) in Heq. simpl in Heq.
    rewrite length_app in Heq. lia.
  - intros [= _ Heq]. exact (IH rest' Heq).
Qed.

Lemma differ_by_slashes a b : slashes a <> slashes b -> (a =? b)%string = false.
Proof. intros H. apply String.eqb_neq. intros ->. now apply H. Qed.

Lemma differ_by_tail x y a b :
  String.length a = String.length b -> a <> b ->
  (x ++ a =? y ++ b)%string = false.
Proof. intros Hl Hab. apply String.eqb_neq. now apply tails_differ. Qed.

(** What the router answers once the awaited host call has ended. *)
Definition settled (o : CallOutcome) : RpcResult + McpError :=
  match o with
  | CallReturns v => inl (ValueResult v)
  | CallThrows (ThrownMcpError e) => inr e
  | CallThrows (ThrownError m) =>
      inr {| code := ErrorCode.InternalError; message := m;
             data := Js.Undefined |}
  | CallThrows (ThrownOther _) =>
      inr {| code := ErrorCode.InternalError; message := "Unknown error";
             data := Js.Undefined |}
  end.

Definition methodNotFound (method : string) : RpcResult + McpError :=
  inr {| code := ErrorCode.MethodNotFound;
         message := ("Method not found: " ++ method)%string;
         data := Js.Undefined |}.

Definition toolCall (serverId toolName : string) : string :=
  ("servers/" ++ serverId ++ "/tools/" ++ toolName ++ "/call")%string.

Definition resourceRead (serverId : string) : string :=
  ("servers/" ++ serverId ++ "/resource/read")%string.

Definition promptGet (serverId : string) : string :=
  ("servers/" ++ serverId ++ "/prompt/get")%string.

Lemma toolCall_slashes a b : slashes (toolCall a b) = 4 + slashes a + slashes b.
Proof.
  unfold toolCall. rewrite !slashes_app. simpl. lia.
Qed.

Lemma resourceRead_slashes a : slashes (resourceRead a) = 3 + slashes a.
Proof. unfold resourceRead. rewrite !slashes_app. simpl. lia. Qed.

Lemma promptGet_slashes a : slashes (promptGet a) = 3 + slashes a.
Proof. unfold promptGet. rewrite !slashes_app. simpl. lia. Qed.

Lemma append_assoc (a b c : string) : ((a ++ b) ++ c = a ++ (b ++ c))%string.
Proof. induction a as [| x rest IH]; simpl; [reflexivity | now rewrite IH]. Qed.


(** The three case labels the [switch] builds from the method. *)
Definition toolLabel (parts : list string) : string :=
  ("servers/" ++ interpolate (nth_error parts 1) ++ "/tools/"
   ++ interpolate (nth_error parts 3) ++ "/call")%string.

Definition readLabel (parts : list string) : string :=
  ("servers/" ++ interpolate (nth_error parts 1) ++ "/resource/read")%string.

Definition getLabel (parts : list string) : string :=
  ("servers/" ++ interpolate (nth_error parts 1) ++ "/prompt/get")%string.

(** [dispatch] on a method that starts with ["servers/"]. *)
Lemma dispatch_servers hv rest params :
  let method := ("servers/" ++ rest)%string in
  let parts := Str.split "/" method in
  dispatch hv method params
  = if (method =? toolLabel parts)%string then
      settled (hostCall hv (CallTool (nth_error parts 1) (nth_error parts 3)
                                     params))
    else if (method =? readLabel parts)%string then
      settled (hostCall hv (ReadResource (nth_error parts 1) params))
    else if (method =? getLabel parts)%string then
      settled (hostCall hv (GetPrompt (nth_error parts 1) params))
    else methodNotFound method.
Proof. reflexivity. Qed.

Lemma toolLabel_slashes parts :
  (forall p, In p parts -> slashes p = 0) -> slashes (toolLabel parts) = 4.
Proof.
  intros H. unfold toolLabel. rewrite !slashes_app.
  rewrite !interpolate_clean by exact H. reflexivity.
Qed.

Lemma readLabel_slashes parts :
  (forall p, In p parts -> slashes p = 0) -> slashes (readLabel parts) = 3.
Proof.
  intros H. unfold readLabel. rewrite !slashes_app.
  rewrite !interpolate_clean by exact H. reflexivity.
Qed.

Lemma getLabel_slashes parts :
  (forall p, In p parts -> slashes p = 0) -> slashes (getLabel parts) = 3.
Proof.
  intros H. unfold getLabel. rewrite !slashes_app.
  rewrite !interpolate_clean by exact H. reflexivity.
Qed.

Lemma toolLabel_tail parts :
  exists x, toolLabel parts = (x ++ "call")%string.
Proof.
  exists ("servers/" ++ interpolate (nth_error parts 1) ++ "/tools/"
          ++ interpolate (nth_error parts 3) ++ "/")%string.
  unfold toolLabel. now rewrite !append_assoc.
Qed.

Lemma readLabel_tail parts :
  exists x, readLabel parts = (x ++ "read")%string.
Proof.
  exists ("servers/" ++ interpolate (nth_error parts 1) ++ "/resource/")%string.
  unfold readLabel. now rewrite !append_assoc.
Qed.

Lemma resourceRead_tail a : exists x, resourceRead a = (x ++ "read")%string.
Proof.
  exists ("servers/" ++ a ++ "/resource/")%string.
  unfold resourceRead. now rewrite !append_assoc.
Qed.

Lemma promptGet_tail a : exists x, promptGet a = (x ++ "/get")%string.
Proof.
  exists ("servers/" ++ a ++ "/prompt")%string.
  unfold promptGet. now rewrite !append_assoc.
Qed.

Lemma toolCall_parts a b :
  slashes a = 0 -> slashes b = 0 ->
  Str.split "/" (toolCall a b) = ["servers"; a; "tools"; b; "call"].
Proof.
  intros Ha Hb. unfold toolCall.
  change ("servers/" ++ a ++ "/tools/" ++ b ++ "/call")%string
    with ("servers" ++ String "/" (a ++ String "/"
            ("tools" ++ String "/" (b ++ String "/" "call"))))%string.
  rewrite !split_app by (assumption || reflexivity).
  reflexivity.
Qed.

Lemma resourceRead_parts a :
  slashes a = 0 ->
  Str.split "/" (resourceRead a) = ["servers"; a; "resource"; "read"].
Proof.
  intros Ha. unfold resourceRead.
  change ("servers/" ++ a ++ "/resource/read")%string
    with ("servers" ++ String "/" (a ++ String "/"
            ("resource" ++ String "/" "read")))%string.
  rewrite !split_app by (assumption || reflexivity).
  reflexivity.
Qed.

Lemma promptGet_parts a :
  slashes a = 0 ->
  Str.split "/" (promptGet a) = ["servers"; a; "prompt"; "get"].
Proof.
  intros Ha. unfold promptGet.
  change ("servers/" ++ a ++ "/prompt/get")%string
    with ("servers" ++ String "/" (a ++ String "/"
            ("prompt" ++ String "/" "get")))%string.
  rewrite !split_app by (assumption || reflexivity).
  reflexivity.
Qed.

Lemma parts_clean m p : In p (Str.split "/" m) -> slashes p = 0.
Proof. apply split_clean. Qed.

Lemma dispatch_toolCall hv serverId toolName params :
  dispatch hv (toolCall serverId toolName) params
  = if Str.contains "/" serverId || Str.contains "/" toolName
    then methodNotFound (toolCall serverId toolName)
    else settled (hostCall hv (CallTool (Some serverId) (Some toolName)
                                        params)).
Proof.
  pose proof (dispatch_servers hv
                (serverId ++ "/tools/" ++ toolName ++ "/call")%string params)
    as Hd.
  cbv zeta in Hd. fold (toolCall serverId toolName) in Hd. rewrite Hd.
  clear Hd.
  destruct (Str.contains "/" serverId) eqn:Hs;
    destruct (Str.contains "/" toolName) eqn:Ht; cbn [orb];
    try (apply slashes_dirty in Hs); try (apply slashes_dirty in Ht);
    try (apply slashes_clean in Hs); try (apply slashes_clean in Ht).
  1-3: rewrite !differ_by_slashes; [reflexivity | | |];
         rewrite toolCall_slashes;
         rewrite ?toolLabel_slashes, ?readLabel_slashes, ?getLabel_slashes
           by apply parts_clean; lia.
  rewrite (toolCall_parts _ _ Hs Ht).
  unfold toolLabel. cbn [nth_error interpolate].
  fold (toolCall serverId toolName). now rewrite String.eqb_refl.
Qed.

Lemma dispatch_resourceRead hv serverId params :
  dispatch hv (resourceRead serverId) params
  = if Str.contains "/" serverId
    then methodNotFound (resourceRead serverId)
    else settled (hostCall hv (ReadResource (Some serverId) params)).
Proof.
  pose proof (dispatch_servers hv (serverId ++ "/resource/read")%string
                               params) as Hd.
  cbv zeta in Hd. fold (resourceRead serverId) in Hd. rewrite Hd. clear Hd.
  assert (H1 : (resourceRead serverId
                =? toolLabel (Str.split "/" (resourceRead serverId)))%string
               = false).
  { destruct (resourceRead_tail serverId) as [x ->].
    destruct (toolLabel_tail (Str.split "/" (x ++ "read")%string)) as [y ->].
    apply differ_by_tail; [reflexivity | discriminate]. }
  rewrite H1.
  destruct (Str.contains "/" serverId) eqn:Hs.
  - apply slashes_dirty in Hs.
    rewrite !differ_by_slashes; [reflexivity | |];
      rewrite resourceRead_slashes;
      rewrite ?readLabel_slashes, ?getLabel_slashes by apply parts_clean; lia.
  - apply slashes_clean in Hs.
    rewrite (resourceRead_parts _ Hs).
    unfold readLabel. cbn [nth_error interpolate].
    fold (resourceRead serverId). now rewrite String.eqb_refl.
Qed.

Lemma dispatch_promptGet hv serverId params :
  dispatch hv (promptGet serverId) params
  = if Str.contains "/" serverId
    then methodNotFound (promptGet serverId)
    else settled (hostCall hv (GetPrompt (Some serverId) params)).
Proof.
  pose proof (dispatch_servers hv (serverId ++ "/prompt/get")%string
                               params) as Hd.
  cbv zeta in Hd. fold (promptGet serverId) in Hd. rewrite Hd. clear Hd.
  assert (H1 : (promptGet serverId
                =? toolLabel (Str.split "/" (promptGet serverId)))%string
               = false).
  { destruct (promptGet_tail serverId) as [x ->].
    destruct (toolLabel_tail (Str.split "/" (x ++ "/get")%string)) as [y ->].
    apply differ_by_tail; [reflexivity | discriminate]. }
  assert (H2 : (promptGet serverId
                =? readLabel (Str.split "/" (promptGet serverId)))%string
               = false).
  { destruct (promptGet_tail serverId) as [x ->].
    destruct (readLabel_tail (Str.split "/" (x ++ "/get")%string)) as [y ->].
    apply differ_by_tail; [reflexivity | discriminate]. }
  rewrite H1, H2.
  destruct (Str.contains "/" serverId) eqn:Hs.
  - apply slashes_dirty in Hs.
    rewrite differ_by_slashes; [reflexivity |].
    rewrite promptGet_slashes, getLabel_slashes by apply parts_clean. lia.
  - apply slashes_clean in Hs.
    rewrite (promptGet_parts _ Hs).
    unfold getLabel. cbn [nth_error interpolate].
    fold (promptGet serverId). now rewrite String.eqb_refl.
Qed.

(** X6.  The router of [POST /mcp] hands the method
    [servers/<id>/tools/<name>/call] to [host.callTool] with that id
    and name exactly when neither contains a slash, and the methods
    [servers/<id>/resource/read] and [servers/<id>/prompt/get] to
    [host.readResource] and [host.getPrompt] exactly when the id
    contains none; in every other case the answer is the error
    [MethodNotFound] and the host is not called. *)
Theorem dispatch_routes_by_path (hv : HostView) (serverId toolName : string)
        (params : Js.value) :
  dispatch hv (toolCall serverId toolName) params
  = (if Str.contains "/" serverId || Str.contains "/" toolName
     then methodNotFound (toolCall serverId toolName)
     else settled (hostCall hv (CallTool (Some serverId) (Some toolName)
                                         params)))
  /\ dispatch hv (resourceRead serverId) params
     = (if Str.contains "/" serverId
        then methodNotFound (resourceRead serverId)
        else settled (hostCall hv (ReadResource (Some serverId) params)))
  /\ dispatch hv (promptGet serverId) params
     = (if Str.contains "/" serverId
        then methodNotFound (promptGet serverId)
        else settled (hostCall hv (GetPrompt (Some serverId) params))).
Proof.
  split; [apply dispatch_toolCall |].
  split; [apply dispatch_resourceRead | apply dispatch_promptGet].
Qed.

End RoutingFacts.

(* ================================================================== *)
(** * Requests to one server                                            *)
(* ================================================================== *)

Module RequestFacts.
Import Types Errors Core Api Requests ApiServer Gateway RoutingFacts.

Lemma prefix_refl s : String.prefix s s = true.
Proof.
  induction s as [| c rest IH]; simpl; [reflexivity |].
  destruct (Ascii.ascii_dec c c) as [_ | Hne]; [exact IH | now elim Hne].
Qed.

(** A string includes each of its endings. *)
Lemma includes_tail p m : includes m (p ++ m)%string = true.
Proof.
  induction p as [| c rest IH]; cbn [append].
  - destruct m as [| d m']; [reflexivity |].
    cbn [includes]. now rewrite prefix_refl.
  - cbn [includes]. rewrite IH. apply orb_true_r.
Qed.

(** The error for a server that is not connected. *)
Definition notConnected (serverId : string) : McpHostError :=
  {| he_message := "Server not found";
     he_code := SERVER_NOT_FOUND;
     he_serverId := Some serverId;
     he_cause := None |}.

(** The wrapping of a failed subscription request. *)
Definition wrapped (what : string) (serverId : string) (text : string)
           (error : Thrown) : McpHostError :=
  {| he_message := (what ++ text)%string;
     he_code := SUBSCRIPTION_FAILED;
     he_serverId := Some serverId;
     he_cause := causeOf error |}.

Section Sdk.

Variable mcpMessage : McpError -> string.
Variable stringOf : Js.value -> string.
Variable answer : string -> ClientRequest -> Js.value + Thrown.

Lemma message_kept what serverId error :
  newMcpHostError mcpMessage
    (what ++ describe mcpMessage stringOf error)%string
    SUBSCRIPTION_FAILED (Some serverId) (causeOf error)
  = wrapped what serverId (describe mcpMessage stringOf error) error.
Proof.
  unfold newMcpHostError, wrapped. f_equal.
  destruct error as [e | msg | v]; simpl; try reflexivity;
    now rewrite includes_tail.
Qed.

(** X7.  For a server id that names no connected client, [callTool],
    [readResource], [getPrompt], [subscribeToResource] and
    [unsubscribeFromResource] all reject with the host error
    [SERVER_NOT_FOUND] that carries the id, the message "Server not
    found" and no cause, whatever the SDK would answer; and the router
    of [POST /mcp] turns that rejection of a tool call into the
    JSON-RPC error [InternalError] made with the same message. *)
Theorem unknown_server_is_refused (serverId : string) (h : Host) :
  JsMap.get serverId (clients h) = None ->
  (forall params,
     callTool mcpMessage answer serverId params h
     = RejectsHost (notConnected serverId)
     /\ readResource mcpMessage answer serverId params h
        = RejectsHost (notConnected serverId)
     /\ getPrompt mcpMessage answer serverId params h
        = RejectsHost (notConnected serverId))
  /\ (forall uri,
        subscribeToResource mcpMessage stringOf answer serverId uri h
        = RejectsHost (notConnected serverId)
        /\ unsubscribeFromResource mcpMessage stringOf answer serverId uri h
           = RejectsHost (notConnected serverId))
  /\ (forall config toolName params,
        Str.contains "/" serverId = false ->
        Str.contains "/" toolName = false ->
        dispatch (hostView mcpMessage answer config h)
                 (toolCall serverId toolName) params
        = inr {| code := ErrorCode.InternalError;
                 message := "Server not found";
                 data := Js.Undefined |}).
Proof.
  intros Hnone.
  split; [| split].
  - intros params.
    unfold callTool, readResource, getPrompt, forward, getClientOrThrow.
    rewrite Hnone. repeat split.
  - intros uri.
    unfold subscribeToResource, unsubscribeFromResource, getClientOrThrow.
    rewrite Hnone. split; reflexivity.
  - intros config toolName params Hs Ht.
    rewrite dispatch_toolCall, Hs, Ht. cbn [orb hostView hostCall callOnHost].
    unfold callTool, forward, getClientOrThrow. rewrite Hnone. reflexivity.
Qed.

(** X8.  When the client of a connected server rejects a subscription
    request, [subscribeToResource] and [unsubscribeFromResource] reject
    with a host error [SUBSCRIPTION_FAILED] that names the server,
    whose message is "Failed to subscribe to resource: " (or "Failed
    to unsubscribe from resource: ") followed by the description of
    what was thrown, with no "(Cause: ...)" added, and whose cause is
    what was thrown when that is an [Error]; whereas [callTool],
    [readResource] and [getPrompt] reject with what the client threw,
    unwrapped. *)
Theorem subscription_failures_are_wrapped (serverId uri : string) (h : Host)
        (client : Client) (error : Thrown) :
  JsMap.get serverId (clients h) = Some client ->
  (answer serverId (SubscribeRequest uri) = inr error ->
   subscribeToResource mcpMessage stringOf answer serverId uri h
   = RejectsHost (wrapped "Failed to subscribe to resource: " serverId
                          (describe mcpMessage stringOf error) error))
  /\ (answer serverId (UnsubscribeRequest uri) = inr error ->
      unsubscribeFromResource mcpMessage stringOf answer serverId uri h
      = RejectsHost (wrapped "Failed to unsubscribe from resource: " serverId
                             (describe mcpMessage stringOf error) error))
  /\ (forall params,
        (answer serverId (CallToolRequest params) = inr error ->
         callTool mcpMessage answer serverId params h = Rejects error)
        /\ (answer serverId (ReadResourceRequest params) = inr error ->
            readResource mcpMessage answer serverId params h = Rejects error)
        /\ (answer serverId (GetPromptRequest params) = inr error ->
            getPrompt mcpMessage answer serverId params h = Rejects error)).
Proof.
  intros Hc.
  split; [| split].
  - intros Ha. unfold subscribeToResource, getClientOrThrow.
    rewrite Hc, Ha. now rewrite message_kept.
  - intros Ha. unfold unsubscribeFromResource, getClientOrThrow.
    rewrite Hc, Ha. now rewrite message_kept.
  - intros params.
    unfold callTool, readResource, getPrompt, forward, getClientOrThrow.
    rewrite Hc. repeat split; intros ->; reflexivity.
Qed.

End Sdk.

Lemma unknown_server_is_refused_witness :
  callTool message (fun _ _ => inl Js.Null) "fs" Js.Null newHost
  = RejectsHost (notConnected "fs").
Proof.
  exact (proj1 (proj1 (unknown_server_is_refused message (fun _ => "")
                         (fun _ _ => inl Js.Null) "fs" newHost eq_refl)
                      Js.Null)).
Defined.

Lemma subscription_failures_are_wrapped_witness :
  subscribeToResource message (fun _ => "") (fun _ _ => inr (ThrownError "gone"))
    "fs" "file:///a"
    (connectToServer "fs" (HostFacts.toolClient ["read"]) newHost)
  = RejectsHost (wrapped "Failed to subscribe to resource: " "fs" "gone"
                         (ThrownError "gone")).
Proof.
  exact (proj1 (subscription_failures_are_wrapped message (fun _ => "")
                  (fun _ _ => inr (ThrownError "gone")) "fs" "file:///a"
                  (connectToServer "fs" (HostFacts.toolClient ["read"]) newHost)
                  (HostFacts.toolClient ["read"]) (ThrownError "gone") eq_refl)
               eq_refl).
Defined.

End RequestFacts.

(* ================================================================== *)
(** * Configuration, authentication and connection attempts             *)
(* ================================================================== *)

Module ConfigFacts.
Import Types Errors Core Api Requests Connecting ApiServer Gateway.

(** ** The configured servers *)

Lemma get_set_string {V : Type} k k' (v : V) (m : JsMap.t string V) :
  JsMap.get k (JsMap.set k' v m)
  = if (k =? k')%string then Some v else JsMap.get k m.
Proof.
  induction m as [| [k0 v0] rest IH]; simpl.
  - reflexivity.
  - destruct (String.eqb_spec k' k0) as [-> | Hne]; simpl.
    + destruct (String.eqb_spec k k0); reflexivity.
    + destruct (String.eqb_spec k k0) as [-> | Hne'].
      * destruct (String.eqb_spec k0 k'); [congruence | reflexivity].
      * exact IH.
Qed.

Lemma has_keys_string {V : Type} k (m : JsMap.t string V) :
  JsMap.has k m = true <-> In k (JsMap.keys m).
Proof.
  unfold JsMap.has, JsMap.keys.
  induction m as [| [k0 v0] rest IH]; simpl.
  - split; [discriminate | intros []].
  - destruct (String.eqb_spec k k0) as [-> | Hne].
    + split; [now left | reflexivity].
    + rewrite IH. split; [now right |].
      intros [Heq | Hin]; [congruence | exact Hin].
Qed.

Lemma set_fresh_key {V : Type} k (v : V) (m : JsMap.t string V) :
  JsMap.has k m = false -> JsMap.set k v m = m ++ [(k, v)].
Proof.
  unfold JsMap.has.
  induction m as [| [k0 v0] rest IH]; simpl; [reflexivity |].
  destruct (String.eqb_spec k k0) as [-> | Hne]; [discriminate |].
  intros H. now rewrite IH.
Qed.

Lemma serverConfigs_from acc servers id :
  JsMap.get id (fold_left addConfig servers acc)
  = match JsMap.get id acc with
    | Some c => Some c
    | None => find (fun c => (sc_id c =? id)%string) servers
    end.
Proof.
  revert acc. induction servers as [| c rest IH]; intros acc; simpl.
  - now destruct (JsMap.get id acc).
  - rewrite IH. unfold addConfig.
    destruct (JsMap.has (sc_id c) acc) eqn:Hhas.
    + destruct (JsMap.get id acc) as [c0 |] eqn:Hget; [reflexivity |].
      destruct (String.eqb_spec (sc_id c) id) as [Heq | Hne]; [| reflexivity].
      unfold JsMap.has in Hhas. rewrite Heq, Hget in Hhas. discriminate.
    + rewrite get_set_string.
      destruct (String.eqb_spec id (sc_id c)) as [-> | Hne].
      * unfold JsMap.has in Hhas.
        destruct (JsMap.get (sc_id c) acc); [discriminate |].
        now rewrite String.eqb_refl.
      * destruct (JsMap.get id acc); [reflexivity |].
        destruct (String.eqb_spec (sc_id c) id); [congruence | reflexivity].
Qed.

Lemma serverConfigs_distinct acc servers :
  NoDup (JsMap.keys acc) ->
  NoDup (JsMap.keys (fold_left addConfig servers acc)).
Proof.
  revert acc. induction servers as [| c rest IH]; intros acc Hnd; simpl;
    [exact Hnd |].
  apply IH. unfold addConfig.
  destruct (JsMap.has (sc_id c) acc) eqn:Hhas; [exact Hnd |].
  rewrite set_fresh_key by exact Hhas.
  unfold JsMap.keys. rewrite map_app. simpl.
  apply NoDup_app; [exact Hnd | constructor; [intros [] | constructor] |].
  intros k Hk [<- | []].
  apply has_keys_string in Hk. congruence.
Qed.

Lemma serverConfigs_values acc servers c :
  In c (JsMap.values (fold_left addConfig servers acc)) ->
  In c (JsMap.values acc) \/ In c servers.
Proof.
  revert acc. induction servers as [| c0 rest IH]; intros acc; simpl;
    [now left |].
  intros Hin. destruct (IH _ Hin) as [Hacc | Hrest]; [| right; now right].
  unfold addConfig in Hacc.
  destruct (JsMap.has (sc_id c0) acc) eqn:Hhas; [now left |].
  rewrite set_fresh_key in Hacc by exact Hhas.
  unfold JsMap.values in Hacc. rewrite map_app in Hacc.
  apply in_app_or in Hacc. destruct Hacc as [H | [<- | []]];
    [now left | right; now left].
Qed.

(** X9.  The constructor keeps, for every id, the first configuration
    with that id and skips the later ones: [getServerConfig] answers
    the first element of [config.servers] that has the id, or nothing
    when there is none; [serverConfigs] has no id twice and holds only
    configurations that were given. *)
Theorem first_configuration_wins (servers : list ServerConfig) (id : string) :
  getServerConfig id servers
  = find (fun c => (sc_id c =? id)%string) servers
  /\ NoDup (JsMap.keys (serverConfigs servers))
  /\ (forall c, In c (JsMap.values (serverConfigs servers)) -> In c servers).
Proof.
  split; [| split].
  - unfold getServerConfig, serverConfigs.
    now rewrite serverConfigs_from.
  - apply serverConfigs_distinct. constructor.
  - intros c Hin. apply serverConfigs_values in Hin.
    destruct Hin as [[] | Hin]. exact Hin.
Qed.

(** ** Connection attempts *)

Definition supported (transport : string) : bool :=
  (transport =? "stdio")%string || (transport =? "sse")%string
  || (transport =? "websocket")%string.

Section Attempts.

Variable mcpMessage : McpError -> string.
Variable stringOf : Js.value -> string.
Variable urlError : string -> option string.

Lemma connectionFailed_message serverId error :
  connectionFailed mcpMessage stringOf serverId error
  = {| he_message := ("Connection failed for " ++ serverId ++ ": "
                      ++ describe mcpMessage stringOf error)%string;
       he_code := CONNECTION_FAILED;
       he_serverId := Some serverId;
       he_cause := Some (asError stringOf error) |}.
Proof.
  unfold connectionFailed, newMcpHostError. f_equal.
  assert (Hm : errorMessage mcpMessage (asError stringOf error)
               = Some (describe mcpMessage stringOf error))
    by (destruct error; reflexivity).
  rewrite Hm.
  replace ("Connection failed for " ++ serverId ++ ": "
           ++ describe mcpMessage stringOf error)%string
    with (("Connection failed for " ++ serverId ++ ": ")
          ++ describe mcpMessage stringOf error)%string
    by (now rewrite !RoutingFacts.append_assoc).
  now rewrite RequestFacts.includes_tail.
Qed.

(** X10.  A connection attempt for a server whose transport is none
    of [stdio], [sse] and [websocket] (so also [streamable-http])
    always fails before anything is connected: the host is unchanged
    and, the id being non-empty, one ["serverError"] is emitted with a
    host error [INVALID_TRANSPORT] that names the server and has no
    cause.  When the transport was made and [client.connect] rejects,
    the host is unchanged as well and the error emitted is
    [CONNECTION_FAILED], named after the server, with the message
    "Connection failed for <id>: <description>" and nothing added to
    it, and with the rejection as its cause; only a rejection with
    [null] or [undefined] emits nothing. *)
Theorem failed_connection_attempts (conf : ServerConfig) (client : Client)
        (connectResult : option Thrown) (h : Host) :
  sc_id conf <> "" ->
  (supported (sc_transport conf) = false ->
   exists e,
     attempt mcpMessage stringOf urlError conf client connectResult h
     = (h, Some e)
     /\ he_code e = INVALID_TRANSPORT
     /\ he_serverId e = Some (sc_id conf)
     /\ he_cause e = None)
  /\ (forall error,
        makeTransport mcpMessage urlError conf = None ->
        connectResult = Some error ->
        attempt mcpMessage stringOf urlError conf client connectResult h
        = (h, if readable error
              then Some {| he_message :=
                             ("Connection failed for " ++ sc_id conf ++ ": "
                              ++ describe mcpMessage stringOf error)%string;
                           he_code := CONNECTION_FAILED;
                           he_serverId := Some (sc_id conf);
                           he_cause := Some (asError stringOf error) |}
              else None)).
Proof.
  intros Hid. split.
  - unfold supported. intros Hsup.
    apply orb_false_elim in Hsup. destruct Hsup as [Hsup Hws].
    apply orb_false_elim in Hsup. destruct Hsup as [Hstdio Hsse].
    unfold attempt, makeTransport. rewrite Hstdio, Hsse, Hws.
    cbn [orb].
    assert (Hne : (sc_id conf =? "")%string = false)
      by (now apply String.eqb_neq).
    destruct (sc_transport conf =? "streamable-http")%string;
      cbn [emitted newMcpHostError he_serverId]; rewrite Hne;
      eexists; repeat split.
  - intros error Hmade ->. unfold attempt. rewrite Hmade.
    cbn [emitted]. now rewrite connectionFailed_message.
Qed.

End Attempts.

Lemma failed_connection_attempts_witness :
  exists e,
    attempt message (fun _ => "") (fun _ => None)
            {| sc_id := "web"; sc_transport := "streamable-http";
               sc_url := "http://localhost:3000/mcp"; sc_rest := Js.Null |}
            (HostFacts.toolClient []) None newHost
    = (newHost, Some e)
    /\ he_code e = INVALID_TRANSPORT.
Proof.
  destruct (failed_connection_attempts message (fun _ => "") (fun _ => None)
              {| sc_id := "web"; sc_transport := "streamable-http";
                 sc_url := "http://localhost:3000/mcp"; sc_rest := Js.Null |}
              (HostFacts.toolClient []) None newHost) as [H _];
    [discriminate |].
  destruct (H eq_refl) as [e [He [Hc _]]].
  exists e. split; assumption.
Defined.

(** ** Authentication *)

Lemma split_is_nonempty sep s : Str.split sep s <> [].
Proof.
  destruct s as [| c rest]; simpl; [discriminate |].
  destruct (Ascii.eqb c sep); [discriminate |].
  destruct (Str.split sep rest); discriminate.
Qed.

Lemma set_of_list l acc k :
  In k (fold_left (fun a x => UriUtils.setAdd x a) l acc)
  <-> In k acc \/ In k l.
Proof.
  revert acc. induction l as [| x rest IH]; intros acc; simpl.
  - tauto.
  - rewrite IH, FurtherFacts.setAdd_In. intuition congruence.
Qed.

Lemma apiKeys_spec env k :
  In k (apiKeys env)
  <-> exists v, OMCPH_API_KEYS env = Some v /\ v <> ""
                /\ In k (Str.split "," v).
Proof.
  unfold apiKeys. destruct (OMCPH_API_KEYS env) as [v |].
  - destruct (String.eqb_spec v "") as [-> | Hne].
    + split; [intros [] | intros [v [[= <-] [Hne _]]]; now elim Hne].
    + rewrite set_of_list. split.
      * intros [[] | Hin]. exists v. auto.
      * intros [v' [[= <-] [_ Hin]]]. now right.
  - split; [intros [] | intros [v [Hv _]]; discriminate].
Qed.

Lemma authRequired_spec env :
  authRequired env = true
  <-> OMCPH_AUTH_REQUIRED env <> Some "false"
      /\ exists v, OMCPH_API_KEYS env = Some v /\ v <> "".
Proof.
  unfold authRequired. rewrite andb_true_iff, negb_true_iff. split.
  - intros [Hreq Hkeys]. split.
    + intros Heq. rewrite Heq in Hreq. discriminate.
    + apply Nat.ltb_lt in Hkeys.
      destruct (apiKeys env) as [| k rest] eqn:Hk; [simpl in Hkeys; lia |].
      assert (Hin : In k (apiKeys env)) by (rewrite Hk; now left).
      apply apiKeys_spec in Hin. destruct Hin as [v [Hv [Hne _]]].
      exists v. auto.
  - intros [Hreq [v [Hv Hne]]]. split.
    + destruct (OMCPH_AUTH_REQUIRED env) as [r |]; [| reflexivity].
      apply String.eqb_neq. congruence.
    + apply Nat.ltb_lt.
      destruct (Str.split "," v) as [| k rest] eqn:Hs;
        [now elim (split_is_nonempty "," v) |].
      assert (Hin : In k (apiKeys env)).
      { apply apiKeys_spec. exists v. rewrite Hs. repeat split; auto.
        now left. }
      destruct (apiKeys env); [elim Hin | simpl; lia].
Qed.

Lemma validKey_spec env apiKey :
  validKey env apiKey = true
  <-> exists v k, OMCPH_API_KEYS env = Some v /\ apiKey = Some k
                  /\ k <> "" /\ In k (Str.split "," v).
Proof.
  unfold validKey. destruct apiKey as [k |].
  - rewrite andb_true_iff, negb_true_iff, existsb_exists. split.
    + intros [Hne [x [Hin Hx]]]. apply String.eqb_eq in Hx. subst x.
      apply apiKeys_spec in Hin. destruct Hin as [v [Hv [_ Hin]]].
      exists v, k. repeat split; auto. now apply String.eqb_neq.
    + intros [v [k' [Hv [[= <-] [Hne Hin]]]]]. split.
      * now apply String.eqb_neq.
      * exists k. split; [| apply String.eqb_refl].
        apply apiKeys_spec. exists v. repeat split; auto.
        intros ->. simpl in Hin. destruct Hin as [<- | []]. now elim Hne.
  - split; [discriminate | intros [v [k [_ [Hk _]]]]; discriminate].
Qed.

(** X11.  The middleware [authenticate] either lets a request pass or
    answers 401.  It lets it pass exactly when [OMCPH_AUTH_REQUIRED]
    is "false", or [OMCPH_API_KEYS] is unset or empty, or the
    [x-api-key] header is a non-empty string that is one of the
    comma-separated parts of [OMCPH_API_KEYS]; so an empty key is
    never accepted, even when the list has an empty part.  A WebSocket
    is kept exactly when the same check passes for its [apiKey] query
    parameter, or for its [x-api-key] header when the parameter is
    absent or empty. *)
Theorem authenticate_accepts (env : AuthEnv) (apiKey : option string) :
  (authenticate env apiKey = None
   \/ authenticate env apiKey = Some unauthorized)
  /\ (authenticate env apiKey = None
      <-> OMCPH_AUTH_REQUIRED env = Some "false"
          \/ OMCPH_API_KEYS env = None
          \/ OMCPH_API_KEYS env = Some ""
          \/ exists v k, OMCPH_API_KEYS env = Some v /\ apiKey = Some k
                         /\ k <> "" /\ In k (Str.split "," v))
  /\ (forall queryApiKey headerApiKey,
        wsAccepted env queryApiKey headerApiKey = true
        <-> authenticate env (wsApiKey queryApiKey headerApiKey) = None).
Proof.
  split; [| split].
  - unfold authenticate. destruct (authRequired env); simpl; [| now left].
    destruct (validKey env apiKey); [now left | now right].
  - unfold authenticate.
    destruct (authRequired env) eqn:Hreq; simpl.
    + apply authRequired_spec in Hreq. destruct Hreq as [Hr [v [Hv Hne]]].
      destruct (validKey env apiKey) eqn:Hvalid.
      * apply validKey_spec in Hvalid. split; [| reflexivity].
        intros _. right. right. right. exact Hvalid.
      * split; [discriminate |].
        intros [H | [H | [H | H]]]; try congruence.
        apply validKey_spec in H. congruence.
    + split; [| reflexivity]. intros _.
      destruct (OMCPH_AUTH_REQUIRED env) as [r |] eqn:Hr.
      * destruct (String.eqb_spec r "false") as [-> | Hne]; [now left |].
        right. destruct (OMCPH_API_KEYS env) as [v |] eqn:Hv; [| now left].
        right. left. destruct (String.eqb_spec v "") as [-> | Hne'];
          [reflexivity |].
        assert (Habs : authRequired env = true).
        { apply authRequired_spec. split; [congruence |]. exists v. auto. }
        congruence.
      * right. destruct (OMCPH_API_KEYS env) as [v |] eqn:Hv; [| now left].
        right. left. destruct (String.eqb_spec v "") as [-> | Hne'];
          [reflexivity |].
        assert (Habs : authRequired env = true).
        { apply authRequired_spec. split; [congruence |]. exists v. auto. }
        congruence.
  - intros q hd. unfold wsAccepted, authenticate.
    destruct (authRequired env); simpl; [| tauto].
    destruct (validKey env (wsApiKey q hd)); split; congruence.
Qed.

(** ** The configuration file *)

(** The property [f] of the parsed file when it is truthy, else the
    default. *)
Definition fieldOr (fileConfig : Js.value) (f : string) (dflt : Js.value)
  : Js.value :=
  if Js.truthy (Js.get fileConfig f) then Js.get fileConfig f else dflt.

(** X12.  [loadConfig] always returns a configuration whose
    [hostInfo], [hostCapabilities] and [servers] are truthy: when
    [OMCPH_CONFIG_PATH] is unset or empty, or the file cannot be read
    or parsed, or it holds [null], the result is the default
    configuration; otherwise each field is the file's when that is
    truthy and the default's ([servers]: the empty array) when not. *)
Theorem loadConfig_falls_back (configPath : option string)
        (readConfig : string -> option Js.value) :
  let c := loadConfig configPath readConfig in
  Js.truthy (cfg_hostInfo c) = true
  /\ Js.truthy (cfg_hostCapabilities c) = true
  /\ Js.truthy (cfg_servers c) = true
  /\ (forall p fileConfig,
        configPath = Some p -> p <> "" ->
        readConfig p = Some fileConfig ->
        fileConfig <> Js.Null -> fileConfig <> Js.Undefined ->
        cfg_hostInfo c
        = fieldOr fileConfig "hostInfo" (cfg_hostInfo defaultConfig)
        /\ cfg_hostCapabilities c
           = fieldOr fileConfig "hostCapabilities"
                     (cfg_hostCapabilities defaultConfig)
        /\ cfg_servers c = fieldOr fileConfig "servers" (Js.Arr []))
  /\ ((configPath = None \/ configPath = Some ""
       \/ exists p, configPath = Some p
                    /\ (readConfig p = None \/ readConfig p = Some Js.Null))
      -> c = defaultConfig).
Proof.
  intros c. unfold c, loadConfig.
  assert (Hor : forall a b, Js.truthy b = true ->
                            Js.truthy (Core.orElse a b) = true).
  { intros a b Hb. unfold Core.orElse.
    destruct (Js.truthy a) eqn:Ha; assumption. }
  split; [| split; [| split; [| split]]].
  - destruct configPath as [p |]; [| reflexivity].
    destruct (p =? "")%string; [reflexivity |].
    destruct (readConfig p) as [[] |]; try reflexivity; now apply Hor.
  - destruct configPath as [p |]; [| reflexivity].
    destruct (p =? "")%string; [reflexivity |].
    destruct (readConfig p) as [[] |]; try reflexivity; now apply Hor.
  - destruct configPath as [p |]; [| reflexivity].
    destruct (p =? "")%string; [reflexivity |].
    destruct (readConfig p) as [[] |]; try reflexivity; now apply Hor.
  - intros p fileConfig -> Hp Hread Hnull Hundef.
    apply String.eqb_neq in Hp. rewrite Hp, Hread.
    destruct fileConfig; try congruence; repeat split.
  - intros [-> | [-> | [p [-> [Hr | Hr]]]]]; try reflexivity;
      destruct (p =? "")%string; try reflexivity; now rewrite Hr.
Qed.

End ConfigFacts.

(* ================================================================== *)
(** * Sessions and connections over every run                           *)
(* ================================================================== *)

Module SessionFacts.
Import Types ApiServer ServerInvariants.

(** ** The keys of the two [Map]s *)

(** [activeSessions] and [activeConnections] hold no key twice, and
    every key is a UUID already drawn. *)
Definition ActiveInv (s : Server) : Prop :=
  NoDup (activeSessions s)
  /\ (forall x, In x (activeSessions s) -> x < nextUuid s)
  /\ NoDup (activeConnections s)
  /\ (forall x, In x (activeConnections s) -> x < nextUuid s).

(** A later state: a key that was not there before is a UUID drawn
    in between. *)
Definition Fresh (s s' : Server) : Prop :=
  nextUuid s <= nextUuid s'
  /\ (forall x, In x (activeSessions s') ->
                In x (activeSessions s) \/ nextUuid s <= x)
  /\ (forall x, In x (activeConnections s') ->
                In x (activeConnections s) \/ nextUuid s <= x).

Definition Keeps (s s' : Server) : Prop :=
  (ActiveInv s -> ActiveInv s') /\ Fresh s s'.

(** The two key lists are left alone. *)
Definition Quiet (s s' : Server) : Prop :=
  nextUuid s <= nextUuid s'
  /\ activeSessions s' = activeSessions s
  /\ activeConnections s' = activeConnections s.

Ltac quiet := repeat split; simpl; try lia; try reflexivity.

Lemma Quiet_refl s : Quiet s s.
Proof. quiet. Qed.

Lemma Quiet_trans s1 s2 s3 : Quiet s1 s2 -> Quiet s2 s3 -> Quiet s1 s3.
Proof.
  intros [H1 [H2 H3]] [K1 [K2 K3]]. split; [lia |].
  split; congruence.
Qed.

Lemma Keeps_refl s : Keeps s s.
Proof. split; [auto |]. split; [lia |]. split; intros x Hx; now left. Qed.

Lemma Keeps_trans s1 s2 s3 : Keeps s1 s2 -> Keeps s2 s3 -> Keeps s1 s3.
Proof.
  intros [HI12 [Hn12 [Hs12 Hc12]]] [HI23 [Hn23 [Hs23 Hc23]]].
  split; [auto |]. split; [lia |]. split; intros x Hx.
  - destruct (Hs23 x Hx) as [H | H]; [| right; lia].
    destruct (Hs12 x H) as [H' | H']; [now left | right; lia].
  - destruct (Hc23 x Hx) as [H | H]; [| right; lia].
    destruct (Hc12 x H) as [H' | H']; [now left | right; lia].
Qed.

Lemma Quiet_Keeps s s' : Quiet s s' -> Keeps s s'.
Proof.
  intros [Hn [Hs Hc]]. split.
  - intros [I1 [I2 [I3 I4]]]. unfold ActiveInv. rewrite Hs, Hc.
    repeat split; try assumption.
    + intros x Hx. specialize (I2 x Hx). lia.
    + intros x Hx. specialize (I4 x Hx). lia.
  - split; [exact Hn |]. rewrite Hs, Hc. split; intros x Hx; now left.
Qed.

Lemma Keeps_fold {A : Type} (f : Server -> A -> Server) (l : list A) s :
  (forall a x, Keeps a (f a x)) -> Keeps s (fold_left f l s).
Proof.
  intros Hf. revert s. induction l as [| x rest IH]; intros s; simpl.
  - apply Keeps_refl.
  - eapply Keeps_trans; [apply Hf | apply IH].
Qed.

Lemma Quiet_fold {A : Type} (f : Server -> A -> Server) (l : list A) s :
  (forall a x, Quiet a (f a x)) -> Quiet s (fold_left f l s).
Proof.
  intros Hf. revert s. induction l as [| x rest IH]; intros s; simpl.
  - apply Quiet_refl.
  - eapply Quiet_trans; [apply Hf | apply IH].
Qed.

Lemma dropKey_In k x l : In x (dropKey k l) -> In x l.
Proof. unfold dropKey. intros H. apply filter_In in H. tauto. Qed.

Lemma dropKey_NoDup k l : NoDup l -> NoDup (dropKey k l).
Proof. unfold dropKey. apply NoDup_filter. Qed.

Lemma Keeps_dropSession k s :
  Keeps s (withActiveSessions (dropKey k (activeSessions s)) s).
Proof.
  split.
  - intros [I1 [I2 [I3 I4]]]. repeat split; simpl; try assumption.
    + now apply dropKey_NoDup.
    + intros x Hx. apply I2. eapply dropKey_In. exact Hx.
  - split; [simpl; lia |]. split; simpl; intros x Hx; left;
      [eapply dropKey_In; exact Hx | exact Hx].
Qed.

Lemma Keeps_dropConnection k s :
  Keeps s (withActiveConnections (dropKey k (activeConnections s)) s).
Proof.
  split.
  - intros [I1 [I2 [I3 I4]]]. repeat split; simpl; try assumption.
    + now apply dropKey_NoDup.
    + intros x Hx. apply I4. eapply dropKey_In. exact Hx.
  - split; [simpl; lia |]. split; simpl; intros x Hx; left;
      [exact Hx | eapply dropKey_In; exact Hx].
Qed.

Lemma NoDup_snoc (l : list nat) n :
  NoDup l -> (forall x, In x l -> x < n) -> NoDup (l ++ [n]).
Proof.
  intros Hnd Hlt. apply NoDup_app; [exact Hnd | constructor; [intros [] | constructor] |].
  intros x Hx [<- | []]. specialize (Hlt _ Hx). lia.
Qed.

Lemma Keeps_createSession now s : Keeps s (fst (createSession now s)).
Proof.
  unfold createSession. simpl. split.
  - intros [I1 [I2 [I3 I4]]]. repeat split; simpl; try assumption.
    + now apply NoDup_snoc.
    + intros x Hx. apply in_app_or in Hx.
      destruct Hx as [Hx | [<- | []]]; [specialize (I2 x Hx) |]; lia.
    + intros x Hx. specialize (I4 x Hx). lia.
  - split; [simpl; lia |]. split; simpl; intros x Hx.
    + apply in_app_or in Hx. destruct Hx as [Hx | [<- | []]];
        [now left | right; lia].
    + now left.
Qed.

Lemma Keeps_onWsConnection s : Keeps s (fst (onWsConnection s)).
Proof.
  unfold onWsConnection. simpl. split.
  - intros [I1 [I2 [I3 I4]]]. repeat split; simpl; try assumption.
    + intros x Hx. specialize (I2 x Hx). lia.
    + now apply NoDup_snoc.
    + intros x Hx. apply in_app_or in Hx.
      destruct Hx as [Hx | [<- | []]]; [specialize (I4 x Hx) |]; lia.
  - split; [simpl; lia |]. split; simpl; intros x Hx.
    + now left.
    + apply in_app_or in Hx. destruct Hx as [Hx | [<- | []]];
        [now left | right; lia].
Qed.

(** *** Handlers that leave the key lists alone *)

Lemma Quiet_invokeAll m arg s : Quiet s (invokeAll m arg s).
Proof. unfold invokeAll. apply Quiet_fold. intros a x. quiet. Qed.

Lemma Quiet_getSession sid now s : Quiet s (fst (getSession sid now s)).
Proof. unfold getSession. destruct (activeSession s sid); quiet. Qed.

Lemma Quiet_sendEventToSession sid eventName d w s :
  Quiet s (fst (sendEventToSession sid eventName d w s)).
Proof.
  unfold sendEventToSession. destruct (activeSession s sid) as [o |]; [| quiet].
  destruct (sseConnection o); [destruct w |]; quiet.
Qed.

Lemma Quiet_broadcast eventName d w s : Quiet s (broadcast eventName d w s).
Proof.
  unfold broadcast. apply Quiet_fold. intros a x.
  apply Quiet_sendEventToSession.
Qed.

Lemma Quiet_completeInSession sid o r arg s :
  Quiet s (fst (completeInSession sid o r arg s)).
Proof.
  unfold completeInSession. destruct (samplingRequests o) as [m |]; [| quiet].
  destruct (JsMap.get r m); quiet.
Qed.

Lemma Quiet_postSamplingResponse sid now rid result s :
  Quiet s (fst (postSamplingResponse sid now rid result s)).
Proof.
  unfold postSamplingResponse. destruct sid as [sid |]; [| quiet].
  pose proof (Quiet_getSession sid now s) as Hg.
  destruct (getSession sid now s) as [s1 [o |]]; [| exact Hg].
  destruct rid as [r |]; [| exact Hg].
  destruct (Js.truthy result); [| exact Hg].
  eapply Quiet_trans; [exact Hg | apply Quiet_completeInSession].
Qed.

Lemma Quiet_postSamplingError sid now rid error s :
  Quiet s (fst (postSamplingError sid now rid error s)).
Proof.
  unfold postSamplingError. destruct sid as [sid |]; [| quiet].
  pose proof (Quiet_getSession sid now s) as Hg.
  destruct (getSession sid now s) as [s1 [o |]]; [| exact Hg].
  destruct rid as [r |]; [| exact Hg].
  destruct (errorOfBody error); [| exact Hg].
  eapply Quiet_trans; [exact Hg | apply Quiet_completeInSession].
Qed.

Lemma Quiet_getMcp sid last acc r st w now s :
  Quiet s (fst (getMcp sid last acc r st w now s)).
Proof.
  unfold getMcp. destruct sid as [sid |]; [| quiet].
  pose proof (Quiet_getSession sid now s) as Hg.
  destruct (getSession sid now s) as [s1 [o |]]; [| exact Hg].
  destruct acc; [| exact Hg]. simpl.
  eapply Quiet_trans; [exact Hg |].
  eapply Quiet_trans; [| apply Quiet_sendEventToSession]. quiet.
Qed.

Lemma Quiet_onPostClosed sid r now s : Quiet s (onPostClosed sid r now s).
Proof.
  unfold onPostClosed.
  pose proof (Quiet_getSession sid now s) as Hg.
  destruct (getSession sid now s) as [s1 [o |]]; [| exact Hg].
  eapply Quiet_trans; [exact Hg | quiet].
Qed.

Lemma Quiet_handleSubscribeMessage ws data s :
  Quiet s (handleSubscribeMessage ws data s).
Proof.
  unfold handleSubscribeMessage.
  destruct (activeConnection s ws); [| quiet]. destruct (topicOf data); quiet.
Qed.

Lemma Quiet_handleUnsubscribeMessage ws data s :
  Quiet s (handleUnsubscribeMessage ws data s).
Proof.
  unfold handleUnsubscribeMessage.
  destruct (activeConnection s ws); [| quiet]. destruct (topicOf data); quiet.
Qed.

Lemma Quiet_completeInPeer ws p r arg s : Quiet s (completeInPeer ws p r arg s).
Proof.
  unfold completeInPeer.
  destruct (JsMap.get r (conn_samplingRequests (connection p))); quiet.
Qed.

Lemma Quiet_handleSamplingResponseMessage ws rid result s :
  Quiet s (handleSamplingResponseMessage ws rid result s).
Proof.
  unfold handleSamplingResponseMessage.
  destruct (activeConnection s ws); [| quiet]. destruct rid; [| quiet].
  destruct (Js.truthy result); [apply Quiet_completeInPeer | quiet].
Qed.

Lemma Quiet_handleSamplingErrorMessage ws rid error s :
  Quiet s (handleSamplingErrorMessage ws rid error s).
Proof.
  unfold handleSamplingErrorMessage.
  destruct (activeConnection s ws); [| quiet]. destruct rid; [| quiet].
  destruct (errorOfBody error); [apply Quiet_completeInPeer | quiet].
Qed.

Lemma Quiet_onSamplingRequest serverId params w s :
  Quiet s (onSamplingRequest serverId params w s).
Proof.
  unfold onSamplingRequest.
  destruct (findOpenSocket _) as [ws |]; [quiet |].
  destruct (findSseSession _) as [sid |]; [| quiet].
  eapply Quiet_trans; [| apply Quiet_sendEventToSession]. quiet.
Qed.

Lemma Quiet_timerBody t s : Quiet s (timerBody t s).
Proof.
  unfold timerBody. destruct (timer_sink t) as [ws | sid].
  - destruct (JsMap.get ws (peers s)) as [p |]; [| quiet].
    destruct (JsMap.has _ _); quiet.
  - destruct (JsMap.get sid (sessions s)) as [o |]; [| quiet].
    destruct (samplingRequests o) as [m |]; [| quiet].
    destruct (JsMap.has _ _); quiet.
Qed.

Lemma Quiet_fireTimer r s : Quiet s (fireTimer r s).
Proof.
  unfold fireTimer. destruct (find _ (timers s)) as [t |]; [| quiet].
  eapply Quiet_trans; [| apply Quiet_timerBody]. quiet.
Qed.

(** *** Handlers that add or remove keys *)

Lemma Keeps_deleteSession sid s : Keeps s (fst (deleteSession sid s)).
Proof.
  unfold deleteSession. destruct (activeSession s sid) as [o |];
    [| apply Keeps_refl].
  cbn [fst].
  match goal with
  | |- Keeps s (withActiveSessions (dropKey sid (activeSessions ?x)) ?x) =>
      apply Keeps_trans with x; [| apply Keeps_dropSession]
  end.
  apply Quiet_Keeps.
  destruct (sseConnection o) as [sse |]; [| quiet].
  destruct (samplingRequests o) as [m |]; [| quiet].
  apply Quiet_trans with (endResponse (res sse) s); [quiet |].
  apply Quiet_trans
    with (invokeAll m sessionClosed (endResponse (res sse) s));
    [apply Quiet_invokeAll | quiet].
Qed.

Lemma Keeps_deleteMcp sid s : Keeps s (fst (deleteMcp sid s)).
Proof.
  unfold deleteMcp. destruct sid as [sid |]; [| apply Keeps_refl].
  pose proof (Keeps_deleteSession sid s) as H.
  destruct (deleteSession sid s) as [s1 [|]]; exact H.
Qed.

Lemma Keeps_sweep env now s : Keeps s (sweep env now s).
Proof.
  unfold sweep. apply Keeps_fold. intros a x.
  destruct (activeSession a x) as [o |]; [| apply Keeps_refl].
  destruct (_ <? _)%Z; [apply Keeps_deleteSession | apply Keeps_refl].
Qed.

Lemma Keeps_processSingleMessage hv sid now m s :
  Keeps s (fst (processSingleMessage hv sid now m s)).
Proof.
  unfold processSingleMessage.
  destruct (isRequest m && (methodOf m =? "initialize")%string).
  - destruct sid; [apply Keeps_refl |].
    pose proof (Keeps_createSession now s) as H.
    destruct (createSession now s) as [s1 x]. exact H.
  - destruct sid as [sid |]; [| apply Keeps_refl].
    pose proof (Quiet_getSession sid now s) as Hg.
    apply Quiet_Keeps in Hg.
    destruct (getSession sid now s) as [s1 [o |]]; [| exact Hg].
    destruct (isRequest m); [exact Hg |].
    destruct (isNotification m || isResponse m); exact Hg.
Qed.

Lemma Keeps_processAll hv sid now ms s :
  Keeps s (fst (processAll hv sid now ms s)).
Proof.
  revert s. induction ms as [| m rest IH]; intros s; simpl;
    [apply Keeps_refl |].
  pose proof (Keeps_processSingleMessage hv sid now m s) as H1.
  destruct (processSingleMessage hv sid now m s) as [s1 r].
  specialize (IH s1).
  destruct (processAll hv sid now rest s1) as [s2 rs].
  eapply Keeps_trans; eassumption.
Qed.

Lemma Keeps_postMcp hv req s : Keeps s (fst (postMcp hv req s)).
Proof.
  unfold postMcp.
  assert (Htail : forall s1 (rs : list (option Response)) (c : bool),
    Keeps s s1 ->
    Keeps s (fst (match preferSSE (post_acceptsSSE req) (post_body req),
                        post_sessionId req with
                  | true, Some sid =>
                      let (s2, o) := getSession sid (post_now req) s1 in
                      match o with
                      | Some session =>
                          (mutateSession sid
                             (withSseConnection
                                (Some {| res := post_res req;
                                         lastEventId := nextEventId session |}))
                             s2,
                           EventStream []
                             (if (0 <? List.length (validOnly rs))%nat
                              then Some (payloadOf (post_body req)
                                                   (validOnly rs))
                              else None))
                      | None => (s2, EventStream [] None)
                      end
                  | _, _ =>
                      if negb c then (s1, Empty 202)
                      else if (List.length (validOnly rs) =? 0)%nat
                           then (s1, Empty 204)
                           else (s1, Json 200
                                       (RpcBody (payloadOf (post_body req)
                                                           (validOnly rs))))
                  end))).
  { intros s1 rs c H1.
    destruct (preferSSE _ _); destruct (post_sessionId req) as [sid |];
      try (destruct (negb c); [exact H1 |];
           destruct (_ =? _)%nat; exact H1).
    pose proof (Quiet_getSession sid (post_now req) s1) as Hg.
    destruct (getSession sid (post_now req) s1) as [s2 [o |]].
    - eapply Keeps_trans; [exact H1 |]. apply Quiet_Keeps.
      eapply Quiet_trans; [exact Hg | quiet].
    - eapply Keeps_trans; [exact H1 | now apply Quiet_Keeps]. }
  destruct (post_body req) as [| | bb | n | str | items | props] eqn:Hb;
    try (pose proof (Keeps_processSingleMessage hv (post_sessionId req)
                       (post_now req) (post_body req) s) as H1;
         rewrite Hb in H1;
         match type of H1 with
         | Keeps _ (fst ?x) => destruct x as [s1 r1]
         end;
         cbv beta iota zeta; apply Htail; exact H1).
  pose proof (Keeps_processAll hv (post_sessionId req) (post_now req)
                               items s) as H1.
  destruct (processAll hv (post_sessionId req) (post_now req) items s)
    as [s1 rs].
  cbv beta iota zeta. apply Htail. exact H1.
Qed.

Theorem Keeps_step env i s : Keeps s (step env i s).
Proof.
  destruct i; simpl.
  - apply Keeps_postMcp.
  - apply Quiet_Keeps, Quiet_getMcp.
  - apply Quiet_Keeps. unfold onGetClosed. quiet.
  - apply Quiet_Keeps, Quiet_onPostClosed.
  - apply Keeps_deleteMcp.
  - apply Quiet_Keeps, Quiet_postSamplingResponse.
  - apply Quiet_Keeps, Quiet_postSamplingError.
  - apply Keeps_sweep.
  - apply Quiet_Keeps, Quiet_broadcast.
  - apply Quiet_Keeps. quiet.
  - apply Keeps_onWsConnection.
  - apply Quiet_Keeps. unfold onWsClosing. quiet.
  - unfold onWsClose.
    eapply Keeps_trans; [| apply Keeps_dropConnection].
    apply Quiet_Keeps. quiet.
  - apply Quiet_Keeps, Quiet_handleSubscribeMessage.
  - apply Quiet_Keeps, Quiet_handleUnsubscribeMessage.
  - apply Quiet_Keeps, Quiet_handleSamplingResponseMessage.
  - apply Quiet_Keeps, Quiet_handleSamplingErrorMessage.
  - apply Quiet_Keeps, Quiet_onSamplingRequest.
  - apply Quiet_Keeps, Quiet_fireTimer.
Qed.

Lemma Keeps_run env inputs s : Keeps s (run env inputs s).
Proof. unfold run. apply Keeps_fold. intros a x. apply Keeps_step. Qed.

Lemma ActiveInv_initial : ActiveInv initial.
Proof. repeat split; try constructor; intros x []. Qed.

Lemma reachable_active env inputs : ActiveInv (run env inputs initial).
Proof. apply (Keeps_run env inputs initial), ActiveInv_initial. Qed.


(** ** The idle sweep *)

Definition idle (env : Env) (now : Z) (o : SessionState) : bool :=
  (SESSION_TIMEOUT_MS env <? now - lastActivity o)%Z.

Lemma isActive_dropKey x k l :
  isActive x (dropKey k l) = if Nat.eqb x k then false else isActive x l.
Proof.
  unfold isActive, dropKey.
  induction l as [| y rest IH]; simpl.
  - now destruct (Nat.eqb x k).
  - destruct (Nat.eqb_spec k y) as [-> | Hky]; simpl.
    + rewrite IH. destruct (Nat.eqb_spec x y); reflexivity.
    + rewrite IH. destruct (Nat.eqb_spec x y) as [-> | Hxy]; simpl.
      * destruct (Nat.eqb_spec y k); [congruence | reflexivity].
      * reflexivity.
Qed.

Lemma isActive_In x l : isActive x l = true <-> In x l.
Proof.
  unfold isActive. rewrite existsb_exists. split.
  - intros [y [Hy Heq]]. apply Nat.eqb_eq in Heq. now subst.
  - intros H. exists x. split; [exact H | apply Nat.eqb_refl].
Qed.

(** What [deleteSession] does to the lookups in [activeSessions]. *)
Lemma deleteSession_activeSession sid s x :
  activeSession (fst (deleteSession sid s)) x
  = if Nat.eqb x sid then None else activeSession s x.
Proof.
  unfold deleteSession.
  destruct (activeSession s sid) as [o |] eqn:Ho; cbn [fst].
  - assert (Hgo : forall s', activeSessions s' = activeSessions s ->
              (x <> sid -> JsMap.get x (sessions s') = JsMap.get x (sessions s)) ->
              activeSession
                (withActiveSessions (dropKey sid (activeSessions s')) s') x
              = if Nat.eqb x sid then None else activeSession s x).
    { intros s' Ha Hg. unfold activeSession. cbn [activeSessions sessions withActiveSessions].
      rewrite isActive_dropKey, Ha.
      destruct (Nat.eqb_spec x sid) as [-> | Hne]; [reflexivity |].
      now rewrite Hg. }
    destruct (sseConnection o) as [sse |]; [| now apply Hgo].
    destruct (samplingRequests o) as [m |]; [| now apply Hgo].
    apply Hgo.
    + cbn [activeSessions mutateSession withSessions].
      now destruct (invokeAll_fields m sessionClosed (endResponse (res sse) s))
        as [_ [_ [_ [_ [-> _]]]]].
    + intros Hne. cbn [sessions mutateSession withSessions].
      rewrite get_mutate.
      destruct (invokeAll_fields m sessionClosed (endResponse (res sse) s))
        as [_ [-> _]].
      cbn [sessions endResponse withEnded].
      destruct (JsMap.get x (sessions s)); [| reflexivity].
      destruct (Nat.eqb_spec sid x); [congruence | reflexivity].
  - destruct (Nat.eqb_spec x sid) as [-> | Hne]; [exact Ho | reflexivity].
Qed.

Lemma sweep_from env now l s x :
  activeSession
    (fold_left
       (fun acc sessionId =>
          match activeSession acc sessionId with
          | Some session =>
              if (SESSION_TIMEOUT_MS env <? now - lastActivity session)%Z
              then fst (deleteSession sessionId acc)
              else acc
          | None => acc
          end) l s) x
  = match activeSession s x with
    | Some o => if isActive x l && idle env now o then None else Some o
    | None => None
    end.
Proof.
  revert s. induction l as [| a rest IH]; intros s.
  - simpl. now destruct (activeSession s x).
  - cbn [fold_left]. rewrite IH. clear IH.
    unfold isActive. cbn [existsb]. fold (isActive x rest).
    destruct (activeSession s a) as [oa |] eqn:Ha.
    + fold (idle env now oa). destruct (idle env now oa) eqn:Hidle.
      * rewrite deleteSession_activeSession.
        destruct (Nat.eqb_spec x a) as [-> | Hne].
        -- now rewrite Ha, Hidle.
        -- reflexivity.
      * destruct (Nat.eqb_spec x a) as [-> | Hne]; [| reflexivity].
        rewrite Ha, Hidle. now rewrite !andb_false_r.
    + destruct (Nat.eqb_spec x a) as [-> | Hne]; [| reflexivity].
      now rewrite Ha.
Qed.

(** X13.  The idle sweep at time [now] keeps exactly the sessions
    whose last activity is at most [SESSION_TIMEOUT_MS] old, each as it
    was: a session is active afterwards if and only if it was active
    before and is not idle longer than the timeout. *)
Theorem sweep_removes_the_idle (env : Env) (now : Z) (s : Server)
        (sid : nat) (o : SessionState) :
  activeSession (sweep env now s) sid = Some o
  <-> activeSession s sid = Some o
      /\ (now - lastActivity o <= SESSION_TIMEOUT_MS env)%Z.
Proof.
  unfold sweep. rewrite sweep_from.
  destruct (activeSession s sid) as [o0 |] eqn:Ho.
  - assert (Hact : isActive sid (activeSessions s) = true).
    { unfold activeSession in Ho.
      destruct (isActive sid (activeSessions s)); [reflexivity | discriminate]. }
    rewrite Hact. cbn [andb]. unfold idle.
    destruct (Z.ltb_spec (SESSION_TIMEOUT_MS env) (now - lastActivity o0)).
    + split; [discriminate |]. intros [[= ->] Hle]. lia.
    + split.
      * intros [= ->]. split; [reflexivity | lia].
      * now intros [-> _].
  - split; [discriminate | intros [H _]; discriminate].
Qed.

(** ** Sessions that are gone *)

Lemma inactive_run env inputs s x :
  x < nextUuid s -> ~ In x (activeSessions s) ->
  ~ In x (activeSessions (run env inputs s)).
Proof.
  intros Hlt Hnot Hin.
  destruct (Keeps_run env inputs s) as [_ [_ [Hs _]]].
  destruct (Hs x Hin) as [H | H]; [contradiction | lia].
Qed.

Lemma activeSession_gone s x :
  ~ In x (activeSessions s) -> activeSession s x = None.
Proof.
  intros Hnot. unfold activeSession.
  destruct (isActive x (activeSessions s)) eqn:Ha; [| reflexivity].
  apply isActive_In in Ha. contradiction.
Qed.

Definition invalidSession : HttpResponse :=
  Json 404 (ErrorBody "not_found" "Invalid or expired session ID").

(** X14.  A session that existed and is no longer active (it was
    deleted by [DELETE /mcp] or removed by the sweep) never becomes
    active again, whatever happens afterwards: [DELETE /mcp] with its
    id answers 404 "Session ID not found", [GET /mcp] and the two
    sampling endpoints answer 404 "Invalid or expired session ID", and
    no event is queued for it. *)
Theorem gone_sessions_stay_gone (env : Env) (before mid after : list Input)
        (sid : nat) (o : SessionState) :
  let s0 := run env before initial in
  let s1 := run env mid s0 in
  let s2 := run env after s1 in
  activeSession s0 sid = Some o ->
  activeSession s1 sid = None ->
  activeSession s2 sid = None
  /\ snd (deleteMcp (Some sid) s2)
     = Json 404 (ErrorBody "not_found" "Session ID not found")
  /\ (forall last acc r st w now,
        snd (getMcp (Some sid) last acc r st w now s2) = invalidSession)
  /\ (forall now rid result,
        snd (postSamplingResponse (Some sid) now rid result s2)
        = invalidSession)
  /\ (forall now rid error,
        snd (postSamplingError (Some sid) now rid error s2) = invalidSession)
  /\ (forall eventName d w,
        sendEventToSession sid eventName d w s2 = (s2, false)).
Proof.
  intros s0 s1 s2 Ho Hgone.
  destruct (reachable_invariants env before) as [HS0 HB0].
  fold s0 in HS0, HB0.
  assert (Hstored : JsMap.get sid (sessions s0) = Some o).
  { unfold activeSession in Ho.
    destruct (isActive sid (activeSessions s0)); [exact Ho | discriminate]. }
  assert (Hlt0 : sid < nextUuid s0) by (now apply (proj1 HS0 sid o)).
  destruct (Sound_run env mid s0 HS0 HB0) as [_ [_ [[Hn1 [Hobj1 _]] _]]].
  fold s1 in Hn1, Hobj1.
  destruct (Hobj1 sid o Hstored) as [o1 [Ho1 _]].
  assert (Hnot1 : ~ In sid (activeSessions s1)).
  { intros Hin. apply isActive_In in Hin.
    unfold activeSession in Hgone. rewrite Hin, Ho1 in Hgone. discriminate. }
  assert (Hnot2 : ~ In sid (activeSessions s2)).
  { apply inactive_run; [lia | exact Hnot1]. }
  assert (Hnone : activeSession s2 sid = None)
    by (now apply activeSession_gone).
  split; [exact Hnone |].
  split; [unfold deleteMcp, deleteSession; now rewrite Hnone |].
  split; [intros; unfold getMcp, getSession; now rewrite Hnone |].
  split; [intros; unfold postSamplingResponse, getSession; now rewrite Hnone |].
  split; [intros; unfold postSamplingError, getSession; now rewrite Hnone |].
  intros. unfold sendEventToSession. now rewrite Hnone.
Qed.

Lemma gone_sessions_stay_gone_witness :
  activeSession
    (run BrokerRuns.defaultEnv
         [PostMcp EndpointFacts.quietHost EndpointFacts.initializeRequest]
         (run BrokerRuns.defaultEnv [DeleteMcp (Some 0)]
              (run BrokerRuns.defaultEnv
                   [PostMcp EndpointFacts.quietHost
                            EndpointFacts.initializeRequest]
                   initial))) 0
  = None.
Proof.
  apply (gone_sessions_stay_gone BrokerRuns.defaultEnv
           [PostMcp EndpointFacts.quietHost EndpointFacts.initializeRequest]
           [DeleteMcp (Some 0)]
           [PostMcp EndpointFacts.quietHost EndpointFacts.initializeRequest]
           0 (newSession 0 0)); reflexivity.
Defined.


(** ** Replay on reconnection *)

Local Arguments idsFrom : simpl never.
Local Arguments Z.sub : simpl never.
Local Arguments Z.add : simpl never.
Local Arguments Z.of_nat : simpl never.
Local Arguments Z.to_nat : simpl never.
Local Arguments Z.max : simpl never.









(** ** Events relayed while no stream is open *)








(** ** A sampling request and its answer *)




Lemma timerBody_idle t s :
  pendingAt s (timer_sink t) (timer_request t) = false ->
  calls (timerBody t s) = calls s.
Proof.
  unfold timerBody, pendingAt. destruct (timer_sink t) as [ws | sid].
  - destruct (JsMap.get ws (peers s)) as [p |]; [| reflexivity].
    now intros ->.
  - destruct (JsMap.get sid (sessions s)) as [o |]; [| reflexivity].
    destruct (samplingRequests o) as [m |]; [| reflexivity].
    cbn [pendingIn]. now intros ->.
Qed.

Lemma fireTimer_idle r s :
  (forall sink, pendingAt s sink r = false) ->
  calls (fireTimer r s) = calls s.
Proof.
  intros Hidle. unfold fireTimer.
  destruct (find _ (timers s)) as [t |] eqn:Hfind; [| reflexivity].
  destruct (timer_found r s t Hfind) as [_ Hr].
  rewrite timerBody_idle; [reflexivity |].
  rewrite Hr. exact (Hidle (timer_sink t)).
Qed.

Lemma argsOf_first r arg s :
  timesCalled r s = 0 ->
  argsOf r (invoke r arg s) = [arg].
Proof.
  unfold timesCalled, argsOf, invoke. cbn [calls withCalls].
  intros Hz. rewrite filter_app, map_app. cbn [filter inv_callback].
  rewrite Nat.eqb_refl.
  destruct (filter (fun c => Nat.eqb (inv_callback c) r) (calls s));
    [reflexivity | discriminate].
Qed.







Lemma fresh_not_pending s sink r :
  BrokerInv s -> nextUuid s <= r -> pendingAt s sink r = false.
Proof.
  intros [_ [B2 [_ [B4 _]]]] Hr.
  destruct (pendingAt s sink r) eqn:Hp; [| reflexivity].
  destruct (B2 sink r Hp) as [_ [t [Hin [Hreq _]]]].
  destruct (B4 t Hin) as [_ [Hlt _]]. lia.
Qed.

Lemma called_not_pending s sink r arg :
  BrokerInv s -> argsOf r s = [arg] -> pendingAt s sink r = false.
Proof.
  intros [_ [B2 _]] Hargs.
  destruct (pendingAt s sink r) eqn:Hp; [| reflexivity].
  destruct (B2 sink r Hp) as [Hzero _].
  unfold timesCalled in Hzero. unfold argsOf in Hargs.
  destruct (filter (fun c => Nat.eqb (inv_callback c) r) (calls s));
    discriminate.
Qed.

(** X18.  On every run, a sampling request that arrives while some
    WebSocket is open is registered with the first open socket [ws]
    under a fresh request id [r], and no session is touched.  A
    ["sampling_response"] for [r] from [ws] calls the callback once,
    with the result sent; the same message from any other socket is
    ignored, so is a second one from [ws], and the request's timer
    coming due later calls nothing. *)
Theorem websocket_sampling_round_trip (env : Env) (inputs : list Input)
        (serverId : string) (params : Js.value) (w : bool)
        (ws : nat) (result : Js.value) :
  let s0 := run env inputs initial in
  let r := nextUuid s0 in
  let s1 := step env (SamplingRequest serverId params w) s0 in
  let s2 := step env (WsSamplingResponse ws (Some r) result) s1 in
  findOpenSocket s0 = Some ws ->
  Js.truthy result = true ->
  sessions s1 = sessions s0
  /\ argsOf r s2 = [Result result]
  /\ (forall ws' result',
        ws' <> ws ->
        step env (WsSamplingResponse ws' (Some r) result') s1 = s1)
  /\ (forall result',
        step env (WsSamplingResponse ws (Some r) result') s2 = s2)
  /\ calls (step env (TimerFires r) s2) = calls s2.
Proof.
  intros s0 r s1 s2 Hws Htruthy.
  destruct (reachable_invariants env inputs) as [HS0 HB0].
  fold s0 in HS0, HB0.
  assert (Hfound : In ws (activeConnections s0)
                   /\ exists p, JsMap.get ws (peers s0) = Some p).
  { pose proof (findOpenSocket_stored s0 ws Hws) as Hp.
    unfold findOpenSocket in Hws. apply find_some in Hws. tauto. }
  destruct Hfound as [Hin [p Hp]].
  assert (Hact : isActive ws (activeConnections s0) = true)
    by (now apply isActive_In).
  set (G := fun p0 : Peer =>
              withConnSamplingRequests
                (JsMap.set r r (conn_samplingRequests (connection p0))) p0).
  set (t := {| timer_request := r; timer_callback := r;
               timer_sink := SinkPeer ws; timer_delay := 300000 |}).
  assert (Hs1 : s1 = arm t (mutatePeer ws G (withNextUuid (S r) s0))).
  { unfold s1. cbn [step]. unfold onSamplingRequest.
    change (findOpenSocket (withNextUuid (S (nextUuid s0)) s0))
      with (findOpenSocket s0).
    now rewrite Hws. }
  assert (Hpeer1 : forall x, JsMap.get x (peers s1)
                             = match JsMap.get x (peers s0) with
                               | Some p0 => Some (if Nat.eqb ws x then G p0
                                                  else p0)
                               | None => None
                               end).
  { intros x. rewrite Hs1.
    cbn [peers arm withTimers mutatePeer withPeers withNextUuid].
    apply get_mutate. }
  assert (Hconn1 : activeConnections s1 = activeConnections s0)
    by (now rewrite Hs1).
  assert (Hcalls1 : calls s1 = calls s0) by (now rewrite Hs1).
  assert (Hfresh : timesCalled r s1 = 0).
  { rewrite (timesCalled_same r s0 s1 Hcalls1).
    apply timesCalled_fresh; [exact HB0 | unfold r; lia]. }
  assert (Hanswer : handleSamplingResponseMessage ws (Some r) result s1
                    = mutatePeer ws (forgetInPeer r)
                        (invoke r (Result result) s1)).
  { unfold handleSamplingResponseMessage, activeConnection.
    rewrite Hconn1, Hact, Hpeer1, Hp, Nat.eqb_refl, Htruthy.
    unfold completeInPeer, G.
    cbn [connection conn_samplingRequests withConnSamplingRequests].
    now rewrite get_set, Nat.eqb_refl. }
  assert (Hs2 : s2 = mutatePeer ws (forgetInPeer r)
                       (invoke r (Result result) s1)).
  { unfold s2. cbn [step]. exact Hanswer. }
  assert (Hargs : argsOf r s2 = [Result result]).
  { rewrite Hs2.
    change (argsOf r (mutatePeer ws (forgetInPeer r)
                        (invoke r (Result result) s1)))
      with (argsOf r (invoke r (Result result) s1)).
    apply argsOf_first. exact Hfresh. }
  split; [now rewrite Hs1 | split; [exact Hargs | split; [| split]]].
  - intros ws' result' Hne. cbn [step].
    unfold handleSamplingResponseMessage, activeConnection.
    rewrite Hconn1, Hpeer1.
    destruct (isActive ws' (activeConnections s0)); [| reflexivity].
    destruct (JsMap.get ws' (peers s0)) as [p' |] eqn:Hp'; [| reflexivity].
    destruct (Js.truthy result'); [| reflexivity].
    destruct (Nat.eqb_spec ws ws') as [Heq | _]; [congruence |].
    unfold completeInPeer.
    pose proof (fresh_not_pending s0 (SinkPeer ws') r HB0 (Nat.le_refl _))
      as Hnone.
    cbn [pendingAt] in Hnone. rewrite Hp', has_get in Hnone.
    destruct (JsMap.get r (conn_samplingRequests (connection p')));
      [discriminate | reflexivity].
  - intros result'. cbn [step].
    unfold handleSamplingResponseMessage, activeConnection.
    rewrite Hs2.
    cbn [activeConnections peers mutatePeer withPeers invoke withCalls].
    rewrite Hconn1, Hact, get_mutate, Hpeer1, Hp, !Nat.eqb_refl.
    destruct (Js.truthy result'); [| reflexivity].
    unfold completeInPeer, forgetInPeer, G.
    cbn [connection conn_samplingRequests withConnSamplingRequests].
    now rewrite get_delete, Nat.eqb_refl.
  - cbn [step]. apply fireTimer_idle. intros sink.
    apply (called_not_pending s2 sink r (Result result)); [| exact Hargs].
    unfold s2, s1.
    pose proof (reachable_invariants env
                  (inputs ++ [SamplingRequest serverId params w;
                              WsSamplingResponse ws
                                (Some (nextUuid (run env inputs initial)))
                                result])) as [_ HB].
    rewrite run_app in HB. exact HB.
Qed.

Lemma websocket_sampling_round_trip_witness :
  argsOf 1
    (step BrokerRuns.defaultEnv
          (WsSamplingResponse 0 (Some 1) (Js.Str "done"))
          (step BrokerRuns.defaultEnv (SamplingRequest "srv" Js.Null false)
                (run BrokerRuns.defaultEnv [WsConnection] initial)))
  = [Result (Js.Str "done")].
Proof.
  refine (proj1 (proj2
            (websocket_sampling_round_trip BrokerRuns.defaultEnv
               [WsConnection] "srv" Js.Null false 0 (Js.Str "done") _ _))).
  - vm_compute; reflexivity.
  - reflexivity.
Defined.

End SessionFacts.

(* ================================================================== *)
(** * JSON-RPC batches                                                  *)
(* ================================================================== *)

Module BatchFacts.
Import Types ApiServer EndpointFacts.

(** The ids of the responses one message of a session gets: its own
    id for a request, none for a notification or a response, [null]
    for anything else. *)
Definition answeredIds (m : Js.value) : list Js.value :=
  if isRequest m then [Js.get m "id"]
  else if isNotification m || isResponse m then []
  else [Js.Null].

Lemma response_id hv sid now m s r :
  snd (processSingleMessage hv sid now m s) = Some r ->
  rpc_id r = idOrNull m.
Proof.
  unfold processSingleMessage, idOrNull.
  destruct (isRequest m) eqn:Hreq; cbn [andb].
  - destruct (methodOf m =? "initialize")%string.
    + destruct sid; [now intros [= <-] |].
      destruct (createSession now s). now intros [= <-].
    + destruct sid as [sid |]; [| now intros [= <-]].
      destruct (getSession sid now s) as [s1 [o |]]; [| now intros [= <-]].
      destruct (dispatch hv (methodOf m) (Js.get m "params"));
        now intros [= <-].
  - destruct sid as [sid |]; [| now intros [= <-]].
    destruct (getSession sid now s) as [s1 [o |]]; [| now intros [= <-]].
    destruct (isNotification m || isResponse m); [discriminate |].
    now intros [= <-].
Qed.

Lemma single_in_session hv sid now m s o :
  activeSession s sid = Some o ->
  map rpc_id (validOnly [snd (processSingleMessage hv (Some sid) now m s)])
  = answeredIds m
  /\ exists o', activeSession (fst (processSingleMessage hv (Some sid) now m s))
                              sid = Some o'.
Proof.
  intros Ho. unfold processSingleMessage, answeredIds, getSession.
  rewrite Ho.
  assert (Hstay : exists o',
            activeSession (mutateSession sid (withLastActivity now) s) sid
            = Some o').
  { unfold activeSession in *.
    cbn [activeSessions sessions mutateSession withSessions].
    destruct (isActive sid (activeSessions s)); [| discriminate].
    rewrite ServerInvariants.get_mutate, Ho. eauto. }
  destruct (isRequest m) eqn:Hreq; cbn [andb].
  - destruct (methodOf m =? "initialize")%string; cbn [fst snd].
    + split; [reflexivity | eauto].
    + split; [| exact Hstay].
      now destruct (dispatch hv (methodOf m) (Js.get m "params")).
  - cbn [fst snd]. destruct (isNotification m || isResponse m); cbn [fst snd].
    + split; [reflexivity | exact Hstay].
    + split; [reflexivity | exact Hstay].
Qed.




Lemma batch_in_session hv sid now ms s o :
  activeSession s sid = Some o ->
  map rpc_id (validOnly (snd (processAll hv (Some sid) now ms s)))
  = flat_map answeredIds ms.
Proof.
  revert s o. induction ms as [| m rest IH]; intros s o Ho; [reflexivity |].
  cbn [processAll flat_map].
  destruct (single_in_session hv sid now m s o Ho) as [Hid [o' Ho']].
  destruct (processSingleMessage hv (Some sid) now m s) as [s1 r].
  cbn [fst snd] in Hid, Ho'.
  specialize (IH s1 o' Ho').
  destruct (processAll hv (Some sid) now rest s1) as [s2 rs].
  cbn [snd] in *. rewrite <- Hid, <- IH.
  destruct r; reflexivity.
Qed.

(** X19.  Every JSON-RPC response that [POST /mcp] makes for a message
    carries the id of that message when it is a request and [null]
    otherwise.  For an array body sent with the id of an active
    session and holding at least one request the answer is 200 with an
    array of responses, in the order of the messages: one per request,
    with the request's id; none for a notification or a response; one
    with id [null] for any other element. *)
Theorem batch_responses_follow_the_requests (hv : HostView)
        (req : PostRequest) (s : Server) (ms : list Js.value)
        (sid : nat) (o : SessionState) :
  post_body req = Js.Arr ms ->
  post_sessionId req = Some sid ->
  activeSession s sid = Some o ->
  existsb isRequest ms = true ->
  (exists rs,
     snd (postMcp hv req s) = Json 200 (RpcBody (Batch rs))
     /\ map rpc_id rs = flat_map answeredIds ms)
  /\ (forall sid' now m s' r,
        snd (processSingleMessage hv sid' now m s') = Some r ->
        rpc_id r = if isRequest m then Js.get m "id" else Js.Null).
Proof.
  intros Hbody Hsid Ho Hreq. split; [| intros; eapply response_id; eassumption].
  rewrite postMcp_cases. unfold upgradesToSSE, responsesOf, containsRequest.
  rewrite Hbody, Hsid.
  replace (preferSSE (post_acceptsSSE req) (Js.Arr ms)) with false
    by (unfold preferSSE; cbn; now rewrite andb_false_r).
  cbn [andb]. rewrite Hreq. cbn [negb].
  pose proof (batch_in_session hv sid (post_now req) ms s o Ho) as Hids.
  pose proof (processAll_request hv (Some sid) (post_now req) ms s Hreq)
    as Hne.
  destruct (validOnly (snd (processAll hv (Some sid) (post_now req) ms s)))
    as [| r rest] eqn:Hv; [congruence |].
  cbn [List.length Nat.eqb]. exists (r :: rest). split; [| exact Hids].
  unfold payloadOf. cbn [Js.isArray]. destruct rest; reflexivity.
Qed.

Definition twoMessages : list Js.value :=
  [Js.Obj [("jsonrpc", Js.Str "2.0"); ("id", Js.Num 7);
           ("method", Js.Str "tools/list")];
   Js.Obj [("jsonrpc", Js.Str "2.0");
           ("method", Js.Str "notifications/initialized")]].

Lemma batch_responses_follow_the_requests_witness :
  exists rs,
    snd (postMcp quietHost
           {| post_sessionId := Some 0; post_acceptsSSE := false;
              post_body := Js.Arr twoMessages; post_res := 3;
              post_now := 4 |}
           (fst (postMcp quietHost initializeRequest initial)))
    = Json 200 (RpcBody (Batch rs))
    /\ map rpc_id rs = [Js.Num 7].
Proof.
  exact (proj1 (batch_responses_follow_the_requests quietHost
                  {| post_sessionId := Some 0; post_acceptsSSE := false;
                     post_body := Js.Arr twoMessages; post_res := 3;
                     post_now := 4 |}
                  (fst (postMcp quietHost initializeRequest initial))
                  twoMessages 0 (newSession 0 0)
                  eq_refl eq_refl eq_refl eq_refl)).
Defined.

End BatchFacts.

(* ================================================================== *)
(** * Refreshing a server, and the roots notifications                  *)
(* ================================================================== *)

Module RefreshFacts.
Import Types Core Api AggregationFacts SuggestionFacts.

Section OneKind.

Context {T : Type} (field : T -> string).

Lemma addAll_entries serverId (items : list T)
      (m : JsMap.t string (Aggregated T)) kv :
  In kv (addAll field serverId items m) ->
  In kv m \/ exists it, In it items /\ kv = entryOf field serverId it.
Proof.
  unfold addAll. revert m.
  induction items as [| it rest IH]; intros m; simpl; [now left |].
  intros Hin. destruct (IH _ Hin) as [Hm | [it' [Hit' Hkv]]].
  - apply set_entries in Hm. destruct Hm as [-> | Hm]; [| now left].
    right. exists it. split; [now left | reflexivity].
  - right. exists it'. split; [now right | exact Hkv].
Qed.

Lemma get_entry k (m : JsMap.t string (Aggregated T)) v :
  JsMap.get k m = Some v -> In (k, v) m.
Proof.
  induction m as [| [k0 v0] rest IH]; simpl; [discriminate |].
  destruct (String.eqb_spec k k0) as [-> | Hne].
  - intros [= ->]. now left.
  - intros H. right. now apply IH.
Qed.

(** After a listing was added, every listed name has an entry of the
    server: the last item listed under that name. *)
Lemma addAll_covers serverId (items : list T)
      (m : JsMap.t string (Aggregated T)) name :
  In name (map field items) ->
  exists it,
    In it items /\ field it = name
    /\ JsMap.get (keyOf serverId name) (addAll field serverId items m)
       = Some {| Types.serverId := serverId; item := it |}.
Proof.
  unfold addAll. revert m.
  induction items as [| it0 rest IH]; intros m; [intros [] |].
  intros Hin. cbn [fold_left].
  destruct (in_dec string_dec name (map field rest)) as [Hrest | Hrest].
  - destruct (IH (JsMap.set (keyOf serverId (field it0))
                            {| Types.serverId := serverId; item := it0 |} m)
                 Hrest) as [it [Hit [Hf Hget]]].
    exists it. split; [now right |]. split; assumption.
  - assert (Hit0 : field it0 = name).
    { destruct Hin as [H | H]; [exact H | contradiction]. }
    exists it0. split; [now left |]. split; [exact Hit0 |].
    assert (Hskip : forall l m0,
              ~ In name (map field l) ->
              JsMap.get (keyOf serverId name)
                (fold_left
                   (fun acc x =>
                      JsMap.set (keyOf serverId (field x))
                                {| Types.serverId := serverId; item := x |}
                                acc) l m0)
              = JsMap.get (keyOf serverId name) m0).
    { induction l as [| x l IHl]; intros m0 Hl; [reflexivity |].
      cbn [fold_left]. rewrite IHl by (intros H; apply Hl; now right).
      rewrite ConfigFacts.get_set_string.
      destruct (String.eqb_spec (keyOf serverId name)
                                (keyOf serverId (field x))) as [Heq | _];
        [| reflexivity].
      apply keyOf_name in Heq. elim Hl. left. now symmetry. }
    rewrite Hskip by exact Hrest.
    rewrite ConfigFacts.get_set_string, Hit0. now rewrite String.eqb_refl.
Qed.

End OneKind.

(** The tools map after a refresh. *)
Lemma refreshed_tools serverId client h :
  aggregatedTools (updateServerCapabilities serverId client h)
  = match getServerCapabilities client with
    | Some caps =>
        if cap_tools caps then
          match listTools client with
          | Some tools =>
              addAll tool_name serverId tools
                     (removeFrom serverId (aggregatedTools h))
          | None => removeFrom serverId (aggregatedTools h)
          end
        else removeFrom serverId (aggregatedTools h)
    | None => removeFrom serverId (aggregatedTools h)
    end.
Proof.
  unfold updateServerCapabilities.
  destruct (getServerCapabilities client) as [caps |]; [| reflexivity].
  unfold whenListed.
  destruct (cap_prompts caps); [destruct (listPrompts client) |];
    destruct (cap_resources caps && cap_resources_templates caps);
    try destruct (listResourceTemplates client);
    destruct (cap_resources caps); try destruct (listResources client);
    destruct (cap_tools caps); try destruct (listTools client);
    reflexivity.
Qed.

(** X20.  On every host reached by connecting, refreshing and
    disconnecting servers, a refresh of one server replaces its tools:
    afterwards every tool name the client lists has an entry of that
    server; every entry of that server is one of the tools just
    listed, so none of its earlier tools survives, and when the server
    does not declare tools or the listing fails it has no entry at
    all; and every entry of another server was there before. *)
Theorem refresh_replaces_the_tools (inputs : list HostInput)
        (serverId : string) (client : Client) :
  let h := runHost inputs newHost in
  let h' := updateServerCapabilities serverId client h in
  (forall tools t,
     listsTools client tools -> In t tools ->
     exists e, In e (getTools h')
               /\ Types.serverId e = serverId
               /\ tool_name (item e) = tool_name t)
  /\ (forall e,
        In e (getTools h') -> Types.serverId e = serverId ->
        exists tools, listsTools client tools /\ In (item e) tools)
  /\ (forall e,
        In e (getTools h') -> Types.serverId e <> serverId ->
        In e (getTools h)).
Proof.
  intros h h'.
  assert (Hd : keysDistinct h).
  { apply keysDistinct_run. repeat split; constructor. }
  destruct Hd as [D1 _].
  assert (Hkept : forall kv,
            In kv (removeFrom serverId (aggregatedTools h)) ->
            In kv (aggregatedTools h)
            /\ Types.serverId (snd kv) <> serverId).
  { intros kv Hin. rewrite removeFrom_exact in Hin by exact D1.
    apply filter_In in Hin. destruct Hin as [Hin Hown].
    split; [exact Hin |]. unfold ownedBy in Hown.
    apply negb_true_iff, String.eqb_neq in Hown. exact Hown. }
  unfold getTools, JsMap.values. unfold h'. rewrite refreshed_tools.
  split; [| split].
  - intros tools t [caps [Hc [Ht Hl]]] Hin. rewrite Hc, Ht, Hl.
    destruct (addAll_covers tool_name serverId tools
                (removeFrom serverId (aggregatedTools h)) (tool_name t)
                (in_map tool_name _ _ Hin))
      as [t' [_ [Hname Hget]]].
    apply get_entry in Hget.
    eexists. split; [apply in_map_iff; eexists; split; [| exact Hget];
                     reflexivity |].
    split; [reflexivity | exact Hname].
  - intros e He Hown. apply in_map_iff in He. destruct He as [kv [<- Hkv]].
    destruct (getServerCapabilities client) as [caps |] eqn:Hc;
      [| now destruct (Hkept kv Hkv)].
    destruct (cap_tools caps) eqn:Ht; [| now destruct (Hkept kv Hkv)].
    destruct (listTools client) as [tools |] eqn:Hl;
      [| now destruct (Hkept kv Hkv)].
    apply addAll_entries in Hkv. destruct Hkv as [Hkv | [it [Hit ->]]];
      [now destruct (Hkept kv Hkv) |].
    exists tools. split; [exists caps; auto | exact Hit].
  - intros e He Hother. apply in_map_iff in He. destruct He as [kv [<- Hkv]].
    assert (Hold : In kv (removeFrom serverId (aggregatedTools h))).
    { destruct (getServerCapabilities client) as [caps |]; [| exact Hkv].
      destruct (cap_tools caps); [| exact Hkv].
      destruct (listTools client) as [tools |]; [| exact Hkv].
      apply addAll_entries in Hkv. destruct Hkv as [Hkv | [it [_ ->]]];
        [exact Hkv | now elim Hother]. }
    apply in_map. now destruct (Hkept kv Hold).
Qed.

(** ** Who is told about new roots *)

(** The clients that declare [roots.listChanged]. *)
Definition declaring (h : Host) : list (string * Client) :=
  filter (fun kv => wantsRoots (snd kv)) (JsMap.entries (clients h)).

Definition sendFails (kv : string * Client) : bool :=
  match sendRootsListChanged (snd kv) with Some _ => true | None => false end.

Lemma notifyAll_sent mcpMessage cs :
  fst (notifyAll mcpMessage cs) = map fst (filter (fun kv => wantsRoots (snd kv)) cs).
Proof.
  induction cs as [| [sid c] rest IH]; [reflexivity |].
  cbn [notifyAll filter snd]. destruct (notifyAll mcpMessage rest) as [sent errors].
  cbn [fst] in IH.
  destruct (wantsRoots c); [| exact IH].
  destruct (sendRootsListChanged c); cbn [fst map]; now rewrite IH.
Qed.

Lemma notifyAll_errors mcpMessage cs :
  map he_serverId (snd (notifyAll mcpMessage cs))
  = map (fun kv => Some (fst kv))
        (filter sendFails (filter (fun kv => wantsRoots (snd kv)) cs))
  /\ Forall (fun e => he_code e = ROOTS_UPDATE_FAILED) (snd (notifyAll mcpMessage cs)).
Proof.
  induction cs as [| [sid c] rest [IH1 IH2]]; [split; [reflexivity | constructor] |].
  cbn [notifyAll filter snd]. destruct (notifyAll mcpMessage rest) as [sent errors].
  cbn [snd] in IH1, IH2.
  destruct (wantsRoots c); [| now split].
  cbn [filter]. unfold sendFails at 1. cbn [snd].
  destruct (sendRootsListChanged c); cbn [snd map fst].
  - split; [now rewrite IH1 | constructor; [reflexivity | exact IH2]].
  - now split.
Qed.

(** X21.  [setRoots] with an array calls [sendRootsListChanged] on
    exactly the connected servers that declare [roots.listChanged],
    each once and in the order of [clients].  The promise resolves
    when none of these notifications fails, and otherwise rejects with
    the aggregate "Failed to update roots on some servers", which
    holds one [ROOTS_UPDATE_FAILED] error for each server whose
    notification failed, named after that server, and no other
    error. *)
Theorem setRoots_tells_the_declaring_servers
        (mcpMessage : McpError -> string) (r : list Js.value) (h : Host) :
  let run := setRoots mcpMessage (Js.Arr r) h in
  notified run = map fst (declaring h)
  /\ (result run = Resolved <-> filter sendFails (declaring h) = [])
  /\ (forall errors msg,
        result run = RejectedAggregate errors msg ->
        msg = "Failed to update roots on some servers"
        /\ List.length errors = List.length (filter sendFails (declaring h))
        /\ (forall serverId,
              In (Some serverId) (map he_serverId errors)
              <-> In serverId (map fst (filter sendFails (declaring h))))
        /\ Forall (fun e => he_code e = ROOTS_UPDATE_FAILED) errors).
Proof.
  intros run. unfold run, setRoots, declaring.
  change (clients (setCurrentRoots r h)) with (clients h).
  pose proof (notifyAll_sent mcpMessage (JsMap.entries (clients h))) as Hsent.
  pose proof (notifyAll_errors mcpMessage (JsMap.entries (clients h))) as [Herr Hcodes].
  destruct (notifyAll mcpMessage (JsMap.entries (clients h))) as [sent errors].
  cbn [fst snd] in *. cbn [notified result].
  split; [exact Hsent |]. split.
  - destruct errors as [| e rest]; cbn [List.length Nat.ltb Nat.leb].
    + split; [intros _ | reflexivity].
      destruct (filter sendFails _); [reflexivity | discriminate].
    + split; [discriminate |]. intros Hnone. rewrite Hnone in Herr.
      discriminate.
  - intros errs msg.
    destruct errors as [| e rest]; cbn [List.length Nat.ltb Nat.leb];
      [discriminate |].
    intros [= <- <-]. split; [reflexivity |]. split; [| split].
    + rewrite <- (length_map he_serverId), Herr. apply length_map.
    + intros serverId. rewrite Herr, !in_map_iff.
      split; intros [kv [Hkv Hin]]; exists kv; (split; [| exact Hin]).
      * now injection Hkv.
      * now rewrite Hkv.
    + exact Hcodes.
Qed.

End RefreshFacts.

(* ================================================================== *)
(** * A sampling request whose WebSocket closes                         *)
(* ================================================================== *)

Module DisconnectFacts.
Import Types ApiServer ServerInvariants SessionFacts.

(** ** Handlers that leave the WebSocket side alone *)

Definition Aside (s s' : Server) : Prop :=
  peers s' = peers s /\ activeConnections s' = activeConnections s.

Ltac aside := unfold Aside; simpl; split; reflexivity.

Lemma Aside_refl s : Aside s s.
Proof. aside. Qed.

Lemma Aside_trans s1 s2 s3 : Aside s1 s2 -> Aside s2 s3 -> Aside s1 s3.
Proof. unfold Aside. intros [H1 H2] [H3 H4]. split; congruence. Qed.

Lemma Aside_fold {A : Type} (f : Server -> A -> Server) (l : list A) s :
  (forall a x, Aside a (f a x)) -> Aside s (fold_left f l s).
Proof.
  intros Hf. revert s. induction l as [| x rest IH]; intros s; simpl;
    [apply Aside_refl |].
  eapply Aside_trans; [apply Hf | apply IH].
Qed.

Lemma Aside_invokeAll m arg s : Aside s (invokeAll m arg s).
Proof. unfold invokeAll. apply Aside_fold. intros a x. aside. Qed.

Lemma Aside_getSession sid now s : Aside s (fst (getSession sid now s)).
Proof. unfold getSession. destruct (activeSession s sid); aside. Qed.

Lemma Aside_sendEventToSession sid eventName d w s :
  Aside s (fst (sendEventToSession sid eventName d w s)).
Proof.
  unfold sendEventToSession. destruct (activeSession s sid) as [o |]; [| aside].
  destruct (sseConnection o); [destruct w |]; aside.
Qed.

Lemma Aside_broadcast eventName d w s : Aside s (broadcast eventName d w s).
Proof.
  unfold broadcast. apply Aside_fold. intros a x.
  apply Aside_sendEventToSession.
Qed.

Lemma Aside_completeInSession sid o r arg s :
  Aside s (fst (completeInSession sid o r arg s)).
Proof.
  unfold completeInSession. destruct (samplingRequests o) as [m |]; [| aside].
  destruct (JsMap.get r m); aside.
Qed.

Lemma Aside_postSamplingResponse sid now rid result s :
  Aside s (fst (postSamplingResponse sid now rid result s)).
Proof.
  unfold postSamplingResponse. destruct sid as [sid |]; [| aside].
  pose proof (Aside_getSession sid now s) as Hg.
  destruct (getSession sid now s) as [s1 [o |]]; [| exact Hg].
  destruct rid as [r |]; [| exact Hg].
  destruct (Js.truthy result); [| exact Hg].
  eapply Aside_trans; [exact Hg | apply Aside_completeInSession].
Qed.

Lemma Aside_postSamplingError sid now rid error s :
  Aside s (fst (postSamplingError sid now rid error s)).
Proof.
  unfold postSamplingError. destruct sid as [sid |]; [| aside].
  pose proof (Aside_getSession sid now s) as Hg.
  destruct (getSession sid now s) as [s1 [o |]]; [| exact Hg].
  destruct rid as [r |]; [| exact Hg].
  destruct (errorOfBody error); [| exact Hg].
  eapply Aside_trans; [exact Hg | apply Aside_completeInSession].
Qed.

Lemma Aside_getMcp sid last acc r st w now s :
  Aside s (fst (getMcp sid last acc r st w now s)).
Proof.
  unfold getMcp. destruct sid as [sid |]; [| aside].
  pose proof (Aside_getSession sid now s) as Hg.
  destruct (getSession sid now s) as [s1 [o |]]; [| exact Hg].
  destruct acc; [| exact Hg]. simpl.
  eapply Aside_trans; [exact Hg |].
  eapply Aside_trans; [| apply Aside_sendEventToSession]. aside.
Qed.

Lemma Aside_onPostClosed sid r now s : Aside s (onPostClosed sid r now s).
Proof.
  unfold onPostClosed.
  pose proof (Aside_getSession sid now s) as Hg.
  destruct (getSession sid now s) as [s1 [o |]]; [| exact Hg].
  eapply Aside_trans; [exact Hg | aside].
Qed.

Lemma Aside_deleteSession sid s : Aside s (fst (deleteSession sid s)).
Proof.
  unfold deleteSession. destruct (activeSession s sid) as [o |]; [| aside].
  cbn [fst].
  match goal with
  | |- Aside s (withActiveSessions _ ?x) =>
      apply Aside_trans with x; [| aside]
  end.
  destruct (sseConnection o) as [sse |]; [| aside].
  destruct (samplingRequests o) as [m |]; [| aside].
  apply Aside_trans with (endResponse (res sse) s); [aside |].
  apply Aside_trans
    with (invokeAll m sessionClosed (endResponse (res sse) s));
    [apply Aside_invokeAll | aside].
Qed.

Lemma Aside_deleteMcp sid s : Aside s (fst (deleteMcp sid s)).
Proof.
  unfold deleteMcp. destruct sid as [sid |]; [| aside].
  pose proof (Aside_deleteSession sid s) as H.
  destruct (deleteSession sid s) as [s1 [|]]; exact H.
Qed.

Lemma Aside_sweep env now s : Aside s (sweep env now s).
Proof.
  unfold sweep. apply Aside_fold. intros a x.
  destruct (activeSession a x) as [o |]; [| aside].
  destruct (_ <? _)%Z; [apply Aside_deleteSession | aside].
Qed.

Lemma Aside_processSingleMessage hv sid now m s :
  Aside s (fst (processSingleMessage hv sid now m s)).
Proof.
  unfold processSingleMessage.
  destruct (isRequest m && (methodOf m =? "initialize")%string).
  - destruct sid; aside.
  - destruct sid as [sid |]; [| aside].
    pose proof (Aside_getSession sid now s) as Hg.
    destruct (getSession sid now s) as [s1 [o |]]; [| exact Hg].
    destruct (isRequest m); [exact Hg |].
    destruct (isNotification m || isResponse m); exact Hg.
Qed.

Lemma Aside_processAll hv sid now ms s :
  Aside s (fst (processAll hv sid now ms s)).
Proof.
  revert s. induction ms as [| m rest IH]; intros s; simpl;
    [apply Aside_refl |].
  pose proof (Aside_processSingleMessage hv sid now m s) as H1.
  destruct (processSingleMessage hv sid now m s) as [s1 r].
  specialize (IH s1).
  destruct (processAll hv sid now rest s1) as [s2 rs].
  eapply Aside_trans; eassumption.
Qed.

Lemma Aside_postMcp hv req s : Aside s (fst (postMcp hv req s)).
Proof.
  unfold postMcp.
  assert (Htail : forall s1 (rs : list (option Response)) (c : bool),
    Aside s s1 ->
    Aside s (fst (match preferSSE (post_acceptsSSE req) (post_body req),
                        post_sessionId req with
                  | true, Some sid =>
                      let (s2, o) := getSession sid (post_now req) s1 in
                      match o with
                      | Some session =>
                          (mutateSession sid
                             (withSseConnection
                                (Some {| res := post_res req;
                                         lastEventId := nextEventId session |}))
                             s2,
                           EventStream []
                             (if (0 <? List.length (validOnly rs))%nat
                              then Some (payloadOf (post_body req)
                                                   (validOnly rs))
                              else None))
                      | None => (s2, EventStream [] None)
                      end
                  | _, _ =>
                      if negb c then (s1, Empty 202)
                      else if (List.length (validOnly rs) =? 0)%nat
                           then (s1, Empty 204)
                           else (s1, Json 200
                                       (RpcBody (payloadOf (post_body req)
                                                           (validOnly rs))))
                  end))).
  { intros s1 rs c H1.
    destruct (preferSSE _ _); destruct (post_sessionId req) as [sid |];
      try (destruct (negb c); [exact H1 |];
           destruct (_ =? _)%nat; exact H1).
    pose proof (Aside_getSession sid (post_now req) s1) as Hg.
    destruct (getSession sid (post_now req) s1) as [s2 [o |]].
    - eapply Aside_trans; [exact H1 |].
      eapply Aside_trans; [exact Hg | aside].
    - eapply Aside_trans; [exact H1 | exact Hg]. }
  destruct (post_body req) as [| | bb | n | str | items | props] eqn:Hb;
    try (pose proof (Aside_processSingleMessage hv (post_sessionId req)
                       (post_now req) (post_body req) s) as H1;
         rewrite Hb in H1;
         match type of H1 with
         | Aside _ (fst ?x) => destruct x as [s1 r1]
         end;
         cbv beta iota zeta; apply Htail; exact H1).
  pose proof (Aside_processAll hv (post_sessionId req) (post_now req)
                               items s) as H1.
  destruct (processAll hv (post_sessionId req) (post_now req) items s)
    as [s1 rs].
  cbv beta iota zeta. apply Htail. exact H1.
Qed.

(** ** A request that waits at a closed socket *)

(** Request [r] is registered with the connection object of [ws]. *)
Definition Waits (ws r : nat) (s : Server) : Prop :=
  pendingAt s (SinkPeer ws) r = true.

(** The socket [ws] has left [activeConnections] with [r] still
    registered. *)
Definition Stranded (ws r : nat) (s : Server) : Prop :=
  ~ In ws (activeConnections s) /\ ws < nextUuid s /\ Waits ws r s.

Lemma Waits_peers ws r s s' :
  peers s' = peers s -> Waits ws r s -> Waits ws r s'.
Proof. unfold Waits, pendingAt. now intros ->. Qed.

Lemma Waits_aside ws r s s' : Aside s s' -> Waits ws r s -> Waits ws r s'.
Proof. intros [H _]. now apply Waits_peers. Qed.

(** A change of one connection object that keeps its registrations. *)
Lemma Waits_mutatePeer ws r ws' (f : Peer -> Peer) s :
  (ws' = ws ->
   forall p, JsMap.has r (conn_samplingRequests (connection p)) = true ->
             JsMap.has r (conn_samplingRequests (connection (f p))) = true) ->
  Waits ws r s -> Waits ws r (mutatePeer ws' f s).
Proof.
  unfold Waits, pendingAt. cbn [peers mutatePeer withPeers]. intros Hf.
  rewrite get_mutate. destruct (JsMap.get ws (peers s)) as [p |];
    [| discriminate].
  destruct (Nat.eqb_spec ws' ws) as [Heq | _]; [| trivial].
  now apply Hf.
Qed.

Lemma not_active ws s :
  ~ In ws (activeConnections s) -> activeConnection s ws = None.
Proof.
  intros Hnot. unfold activeConnection.
  destruct (isActive ws (activeConnections s)) eqn:Ha; [| reflexivity].
  apply isActive_In in Ha. contradiction.
Qed.

Lemma Waits_completeInPeer ws r ws' p rid arg s :
  ws' <> ws -> Waits ws r s -> Waits ws r (completeInPeer ws' p rid arg s).
Proof.
  intros Hne Hw. unfold completeInPeer.
  destruct (JsMap.get rid (conn_samplingRequests (connection p)));
    [| exact Hw].
  apply Waits_mutatePeer; [congruence | exact Hw].
Qed.

Lemma Waits_timerBody ws r t s :
  timer_request t <> r -> Waits ws r s -> Waits ws r (timerBody t s).
Proof.
  intros Hne Hw. unfold timerBody. destruct (timer_sink t) as [ws' | sid].
  - destruct (JsMap.get ws' (peers s)) as [p |]; [| exact Hw].
    destruct (JsMap.has _ _); [| exact Hw].
    apply (Waits_aside ws r (mutatePeer ws' (forgetInPeer (timer_request t)) s));
      [aside |].
    apply Waits_mutatePeer; [| exact Hw].
    intros _ p0 Hp0. unfold forgetInPeer.
    cbn [connection conn_samplingRequests withConnSamplingRequests].
    rewrite has_delete.
    destruct (Nat.eqb_spec r (timer_request t)); [congruence | exact Hp0].
  - destruct (JsMap.get sid (sessions s)) as [o |]; [| exact Hw].
    destruct (samplingRequests o) as [m |]; [| exact Hw].
    destruct (JsMap.has _ _); [| exact Hw].
    eapply Waits_aside; [| exact Hw]. aside.
Qed.

Lemma Waits_step env i ws r s :
  Stranded ws r s -> i <> TimerFires r -> Waits ws r (step env i s).
Proof.
  intros [Hnot [Hlt Hw]] Hi.
  destruct i as [hv req | sid last acc r0 st w now | sid r0 | sid r0 now
                | sid | sid now rid result | sid now rid error | now
                | eventName d w | r0 | | ws' | ws' | ws' msg | ws' msg
                | ws' rid result | ws' rid error | serverId params w | rid];
    cbn [step].
  - eapply Waits_aside; [apply Aside_postMcp | exact Hw].
  - eapply Waits_aside; [apply Aside_getMcp | exact Hw].
  - eapply Waits_aside; [| exact Hw]. unfold onGetClosed. aside.
  - eapply Waits_aside; [apply Aside_onPostClosed | exact Hw].
  - eapply Waits_aside; [apply Aside_deleteMcp | exact Hw].
  - eapply Waits_aside; [apply Aside_postSamplingResponse | exact Hw].
  - eapply Waits_aside; [apply Aside_postSamplingError | exact Hw].
  - eapply Waits_aside; [apply Aside_sweep | exact Hw].
  - eapply Waits_aside; [apply Aside_broadcast | exact Hw].
  - eapply Waits_aside; [| exact Hw]. aside.
  - (* a new connection: its key is a fresh UUID *)
    unfold Waits, pendingAt, onWsConnection in *.
    cbn [fst peers withActiveConnections withPeers withNextUuid].
    rewrite get_set. destruct (Nat.eqb_spec ws (nextUuid s)); [lia | exact Hw].
  - unfold onWsClosing. apply Waits_mutatePeer; [| exact Hw]. auto.
  - unfold onWsClose.
    apply (Waits_peers ws r (mutatePeer ws' (withIsOpen false) s));
      [reflexivity |].
    apply Waits_mutatePeer; [| exact Hw]. auto.
  - unfold handleSubscribeMessage.
    destruct (activeConnection s ws'); [| exact Hw].
    destruct (topicOf msg); [| exact Hw].
    apply Waits_mutatePeer; [| exact Hw]. auto.
  - unfold handleUnsubscribeMessage.
    destruct (activeConnection s ws'); [| exact Hw].
    destruct (topicOf msg); [| exact Hw].
    apply Waits_mutatePeer; [| exact Hw]. auto.
  - unfold handleSamplingResponseMessage.
    destruct (Nat.eq_dec ws' ws) as [-> | Hne];
      [now rewrite not_active |].
    destruct (activeConnection s ws') as [p |]; [| exact Hw].
    destruct rid as [rid |]; [| exact Hw].
    destruct (Js.truthy result); [| exact Hw].
    now apply Waits_completeInPeer.
  - unfold handleSamplingErrorMessage.
    destruct (Nat.eq_dec ws' ws) as [-> | Hne];
      [now rewrite not_active |].
    destruct (activeConnection s ws') as [p |]; [| exact Hw].
    destruct rid as [rid |]; [| exact Hw].
    destruct (errorOfBody error); [| exact Hw].
    now apply Waits_completeInPeer.
  - unfold onSamplingRequest.
    destruct (findOpenSocket _) as [clientWs |].
    + match goal with
      | |- Waits ws r (arm ?t ?x) => apply (Waits_aside ws r x); [aside |]
      end.
      apply Waits_mutatePeer.
      * intros _ p Hp.
        cbn [connection conn_samplingRequests withConnSamplingRequests].
        rewrite has_set. now destruct (Nat.eqb r (nextUuid s)).
      * eapply Waits_aside; [| exact Hw]. aside.
    + destruct (findSseSession _) as [sid |].
      * eapply Waits_aside; [| exact Hw].
        eapply Aside_trans; [| apply Aside_sendEventToSession]. aside.
      * eapply Waits_aside; [| exact Hw]. aside.
  - unfold fireTimer.
    destruct (find _ (timers s)) as [t |] eqn:Hfind; [| exact Hw].
    destruct (timer_found _ s t Hfind) as [_ Hreq].
    apply Waits_timerBody; [congruence |].
    eapply Waits_aside; [| exact Hw]. aside.
Qed.

Lemma Stranded_step env i ws r s :
  Stranded ws r s -> i <> TimerFires r -> Stranded ws r (step env i s).
Proof.
  intros Hst Hi. pose proof (Waits_step env i ws r s Hst Hi) as Hw.
  destruct Hst as [Hnot [Hlt _]].
  destruct (Keeps_step env i s) as [_ [Hnext [_ Hconn]]].
  split; [| split; [lia | exact Hw]].
  intros Hin. destruct (Hconn ws Hin) as [H | H]; [contradiction | lia].
Qed.

Lemma Stranded_run env more ws r s :
  Stranded ws r s -> Forall (fun i => i <> TimerFires r) more ->
  Stranded ws r (run env more s).
Proof.
  unfold run. revert s.
  induction more as [| i rest IH]; intros s Hst Hall; [exact Hst |].
  inversion Hall as [| ? ? Hi Hrest]; subst. cbn [fold_left].
  apply IH; [| exact Hrest]. now apply Stranded_step.
Qed.

(** X22.  On every run, when a sampling request was handed to the
    open WebSocket [ws] and [ws] then closes, the request is not
    failed: whatever happens afterwards (answers for it sent to any
    endpoint or from any socket included), its callback is not called
    as long as its timer has not fired, and when the timer fires the
    callback is called once, with the [RequestTimeout] error. *)
Theorem closed_socket_strands_its_requests (env : Env)
        (inputs more : list Input) (serverId : string) (params : Js.value)
        (w : bool) (ws : nat) :
  let s0 := run env inputs initial in
  let r := nextUuid s0 in
  let s1 := step env (SamplingRequest serverId params w) s0 in
  let s2 := run env more (step env (WsClose ws) s1) in
  findOpenSocket s0 = Some ws ->
  Forall (fun i => i <> TimerFires r) more ->
  argsOf r s2 = []
  /\ argsOf r (step env (TimerFires r) s2) = [samplingTimedOut].
Proof.
  intros s0 r s1 s2 Hws Hmore.
  destruct (reachable_invariants env inputs) as [HS0 HB0].
  fold s0 in HS0, HB0.
  pose proof (reachable_active env inputs) as [_ [_ [Hnd Hbound]]].
  fold s0 in Hnd, Hbound.
  assert (Hfound : In ws (activeConnections s0)
                   /\ exists p, JsMap.get ws (peers s0) = Some p).
  { pose proof (findOpenSocket_stored s0 ws Hws) as Hp.
    unfold findOpenSocket in Hws. apply find_some in Hws. tauto. }
  destruct Hfound as [Hin [p Hp]].
  assert (Hs1 : s1 = arm {| timer_request := r; timer_callback := r;
                            timer_sink := SinkPeer ws;
                            timer_delay := 300000 |}
                         (mutatePeer ws
                            (fun p0 =>
                               withConnSamplingRequests
                                 (JsMap.set r r
                                    (conn_samplingRequests (connection p0)))
                                 p0)
                            (withNextUuid (S r) s0))).
  { unfold s1. cbn [step]. unfold onSamplingRequest.
    change (findOpenSocket (withNextUuid (S (nextUuid s0)) s0))
      with (findOpenSocket s0).
    now rewrite Hws. }
  assert (Hst : Stranded ws r (step env (WsClose ws) s1)).
  { cbn [step]. unfold onWsClose, Stranded, Waits, pendingAt. rewrite Hs1.
    cbn [activeConnections peers nextUuid arm withTimers mutatePeer withPeers
         withNextUuid withActiveConnections].
    split; [| split].
    - intros Hin'. unfold dropKey in Hin'. apply filter_In in Hin'.
      destruct Hin' as [_ Hneq]. now rewrite Nat.eqb_refl in Hneq.
    - specialize (Hbound ws Hin). unfold r. lia.
    - rewrite !get_mutate, Hp, !Nat.eqb_refl.
      cbn [connection conn_samplingRequests withConnSamplingRequests
           withIsOpen].
      rewrite has_set. now rewrite Nat.eqb_refl. }
  pose proof (Stranded_run env more ws r _ Hst Hmore) as [_ [_ Hw]].
  fold s2 in Hw. unfold Waits in Hw.
  assert (HB2 : BrokerInv s2).
  { unfold s2, s1.
    pose proof (reachable_invariants env
                  (inputs ++ [SamplingRequest serverId params w; WsClose ws]
                          ++ more)) as [_ HB].
    rewrite !run_app in HB. exact HB. }
  pose proof HB2 as [_ [B2 _]].
  destruct (B2 _ _ Hw) as [Hzero [t [Hin2 [Hreq Hsink]]]].
  assert (Hnone : argsOf r s2 = []).
  { unfold timesCalled in Hzero. unfold argsOf.
    destruct (filter (fun c => Nat.eqb (inv_callback c) r) (calls s2));
      [reflexivity | discriminate]. }
  split; [exact Hnone |].
  cbn [step]. unfold argsOf in *.
  rewrite <- Hreq.
  rewrite (BrokerFacts.timeout_delivers_RequestTimeout s2 t HB2 Hin2)
    by (now rewrite Hsink, Hreq).
  rewrite filter_app, map_app, Hreq, Hnone. cbn [filter inv_callback].
  now rewrite Nat.eqb_refl.
Qed.

Lemma closed_socket_strands_its_requests_witness :
  argsOf 1
    (run BrokerRuns.defaultEnv
         [WsSamplingResponse 0 (Some 1) (Js.Str "late");
          PostSamplingResponse (Some 0) 5 (Some 1) (Js.Str "late")]
         (step BrokerRuns.defaultEnv (WsClose 0)
               (step BrokerRuns.defaultEnv
                     (SamplingRequest "srv" Js.Null false)
                     (run BrokerRuns.defaultEnv [WsConnection] initial))))
  = [].
Proof.
  refine (proj1
            (closed_socket_strands_its_requests BrokerRuns.defaultEnv
               [WsConnection]
               [WsSamplingResponse 0 (Some 1) (Js.Str "late");
                PostSamplingResponse (Some 0) 5 (Some 1) (Js.Str "late")]
               "srv" Js.Null false 0 _ _)).
  - vm_compute; reflexivity.
  - repeat constructor; discriminate.
Defined.

End DisconnectFacts.

(* ================================================================== *)
(** * Subscriptions of a WebSocket                                      *)
(* ================================================================== *)

Module SubscriptionFacts.
Import Types ApiServer ServerInvariants SessionFacts DisconnectFacts Broadcasts.

(** ** What a step does to one connection *)

(** Two states of a connection with the same readiness and the same
    topics. *)
Definition Alike (a b : option Peer) : Prop :=
  match a, b with
  | Some p, Some p' =>
      isOpen p' = isOpen p
      /\ subscriptions (connection p') = subscriptions (connection p)
  | None, None => True
  | _, _ => False
  end.

Lemma Alike_refl a : Alike a a.
Proof. destruct a; simpl; auto. Qed.

Lemma Alike_trans a b c : Alike a b -> Alike b c -> Alike a c.
Proof.
  destruct a, b, c; simpl; try tauto.
  intros [H1 H2] [H3 H4]. split; congruence.
Qed.

Lemma Alike_eq a b : b = a -> Alike a b.
Proof. intros ->. apply Alike_refl. Qed.

Lemma activeConnection_aside ws s s' :
  Aside s s' -> activeConnection s' ws = activeConnection s ws.
Proof. unfold activeConnection. now intros [-> ->]. Qed.

Lemma activeConnection_mutatePeer ws ws' (f : Peer -> Peer) s :
  activeConnection (mutatePeer ws' f s) ws
  = match activeConnection s ws with
    | Some p => Some (if Nat.eqb ws' ws then f p else p)
    | None => None
    end.
Proof.
  unfold activeConnection. cbn [activeConnections peers mutatePeer withPeers].
  destruct (isActive ws (activeConnections s)); [| reflexivity].
  apply get_mutate.
Qed.

(** A change of a connection object that touches neither the
    readiness nor the topics. *)
Lemma Alike_mutatePeer ws ws' (f : Peer -> Peer) s :
  (forall p, isOpen (f p) = isOpen p
             /\ subscriptions (connection (f p))
                = subscriptions (connection p)) ->
  Alike (activeConnection s ws) (activeConnection (mutatePeer ws' f s) ws).
Proof.
  intros Hf. rewrite activeConnection_mutatePeer.
  destruct (activeConnection s ws) as [p |]; [| exact I].
  destruct (Nat.eqb ws' ws); [apply Hf | split; reflexivity].
Qed.

Lemma Alike_completeInPeer ws ws' p rid arg s :
  Alike (activeConnection s ws)
        (activeConnection (completeInPeer ws' p rid arg s) ws).
Proof.
  unfold completeInPeer.
  destruct (JsMap.get rid (conn_samplingRequests (connection p)));
    [| apply Alike_refl].
  eapply Alike_trans; [| apply Alike_mutatePeer; intros; split; reflexivity].
  apply Alike_refl.
Qed.

Lemma Alike_timerBody ws t s :
  Alike (activeConnection s ws) (activeConnection (timerBody t s) ws).
Proof.
  unfold timerBody. destruct (timer_sink t) as [ws' | sid].
  - destruct (JsMap.get ws' (peers s)) as [p |]; [| apply Alike_refl].
    destruct (JsMap.has _ _); [| apply Alike_refl].
    eapply Alike_trans;
      [apply (Alike_mutatePeer ws ws' (forgetInPeer (timer_request t)));
       intros; split; reflexivity |].
    apply Alike_refl.
  - destruct (JsMap.get sid (sessions s)) as [o |]; [| apply Alike_refl].
    destruct (samplingRequests o) as [m |]; [| apply Alike_refl].
    destruct (JsMap.has _ _); apply Alike_refl.
Qed.

(** The connection object that [wss.on("connection")] stores. *)
Definition newPeer (connectionId : nat) : Peer :=
  {| isOpen := true;
     connection := {| conn_id := connectionId;
                      subscriptions := [];
                      conn_samplingRequests := JsMap.empty |} |}.

Lemma isActive_snoc x l n :
  isActive x (l ++ [n]) = isActive x l || Nat.eqb x n.
Proof.
  unfold isActive. rewrite existsb_app. cbn [existsb]. now rewrite orb_false_r.
Qed.

Lemma activeConnection_onWsConnection ws s :
  ws <> nextUuid s ->
  activeConnection (fst (onWsConnection s)) ws = activeConnection s ws.
Proof.
  intros Hne. unfold activeConnection, onWsConnection.
  cbn [fst activeConnections peers withActiveConnections withPeers
       withNextUuid].
  rewrite isActive_snoc, get_set.
  destruct (Nat.eqb_spec ws (nextUuid s)); [congruence |].
  now rewrite orb_false_r.
Qed.

Lemma activeConnection_new s :
  activeConnection (fst (onWsConnection s)) (nextUuid s)
  = Some (newPeer (nextUuid s)).
Proof.
  unfold activeConnection, onWsConnection.
  cbn [fst activeConnections peers withActiveConnections withPeers
       withNextUuid].
  rewrite isActive_snoc, get_set, Nat.eqb_refl. now rewrite orb_true_r.
Qed.

Lemma activeConnection_onWsClose ws ws' s :
  activeConnection (onWsClose ws' s) ws
  = if Nat.eqb ws ws' then None else activeConnection s ws.
Proof.
  unfold activeConnection, onWsClose.
  cbn [activeConnections peers mutatePeer withPeers withActiveConnections].
  rewrite isActive_dropKey. destruct (Nat.eqb_spec ws ws') as [-> | Hne];
    [reflexivity |].
  destruct (isActive ws (activeConnections s)); [| reflexivity].
  rewrite get_mutate. destruct (JsMap.get ws (peers s)); [| reflexivity].
  destruct (Nat.eqb_spec ws' ws); [congruence | reflexivity].
Qed.

(** Every input but the four that concern the socket's readiness or
    topics leaves both as they are. *)
Definition concerns (i : Input) : bool :=
  match i with
  | WsConnection | WsClosing _ | WsClose _
  | WsSubscribe _ _ | WsUnsubscribe _ _ => true
  | _ => false
  end.

Lemma Alike_step env i ws s :
  concerns i = false ->
  Alike (activeConnection s ws) (activeConnection (step env i s) ws).
Proof.
  destruct i as [hv req | sid last acc r0 st w now | sid r0 | sid r0 now
                | sid | sid now rid result | sid now rid error | now
                | eventName d w | r0 | | ws' | ws' | ws' msg | ws' msg
                | ws' rid result | ws' rid error | serverId params w | rid];
    cbn [step concerns]; try discriminate; intros _.
  - apply Alike_eq, activeConnection_aside, Aside_postMcp.
  - apply Alike_eq, activeConnection_aside, Aside_getMcp.
  - apply Alike_eq, activeConnection_aside. unfold onGetClosed. aside.
  - apply Alike_eq, activeConnection_aside, Aside_onPostClosed.
  - apply Alike_eq, activeConnection_aside, Aside_deleteMcp.
  - apply Alike_eq, activeConnection_aside, Aside_postSamplingResponse.
  - apply Alike_eq, activeConnection_aside, Aside_postSamplingError.
  - apply Alike_eq, activeConnection_aside, Aside_sweep.
  - apply Alike_eq, activeConnection_aside, Aside_broadcast.
  - apply Alike_eq, activeConnection_aside. aside.
  - unfold handleSamplingResponseMessage.
    destruct (activeConnection s ws') as [p |]; [| apply Alike_refl].
    destruct rid as [rid |]; [| apply Alike_refl].
    destruct (Js.truthy result); [| apply Alike_refl].
    apply Alike_completeInPeer.
  - unfold handleSamplingErrorMessage.
    destruct (activeConnection s ws') as [p |]; [| apply Alike_refl].
    destruct rid as [rid |]; [| apply Alike_refl].
    destruct (errorOfBody error); [| apply Alike_refl].
    apply Alike_completeInPeer.
  - unfold onSamplingRequest.
    destruct (findOpenSocket _) as [clientWs |].
    + match goal with
      | |- Alike _ (activeConnection (arm ?t (mutatePeer ?k ?f ?x)) ws) =>
          change (activeConnection (arm t (mutatePeer k f x)) ws)
            with (activeConnection (mutatePeer k f s) ws)
      end.
      apply Alike_mutatePeer. intros; split; reflexivity.
    + destruct (findSseSession _) as [sid |].
      * apply Alike_eq, activeConnection_aside.
        eapply Aside_trans; [| apply Aside_sendEventToSession]. aside.
      * apply Alike_eq, activeConnection_aside. aside.
  - unfold fireTimer.
    destruct (find _ (timers s)) as [t |]; [| apply Alike_refl].
    eapply Alike_trans; [| apply Alike_timerBody]. apply Alike_refl.
Qed.

(** ** Topics *)

(** Whether the connected socket [ws] is subscribed to [t]. *)
Definition hasTopic (ws : nat) (t : string) (s : Server) : bool :=
  match activeConnection s ws with
  | Some p => subscribed t p
  | None => false
  end.

Lemma subscribed_addTopic t topic p :
  subscribed t (withSubscriptions
                  (addTopic topic (subscriptions (connection p))) p)
  = subscribed t p || (t =? topic)%string.
Proof.
  unfold subscribed, addTopic.
  cbn [connection subscriptions withSubscriptions].
  destruct (existsb (String.eqb topic) (subscriptions (connection p)))
    eqn:Hin.
  - destruct (String.eqb_spec t topic) as [-> | _];
      [now rewrite Hin | now rewrite orb_false_r].
  - rewrite existsb_app. cbn [existsb]. now rewrite orb_false_r.
Qed.

Lemma subscribed_removeTopic t topic p :
  subscribed t (withSubscriptions
                  (removeTopic topic (subscriptions (connection p))) p)
  = subscribed t p && negb (t =? topic)%string.
Proof.
  unfold subscribed, removeTopic.
  cbn [connection subscriptions withSubscriptions].
  induction (subscriptions (connection p)) as [| x rest IH]; [reflexivity |].
  cbn [filter existsb].
  destruct (String.eqb_spec topic x) as [<- | Hne]; cbn [negb existsb].
  - rewrite IH. destruct (String.eqb_spec t topic); cbn [orb negb];
      [now rewrite !andb_false_r | reflexivity].
  - rewrite IH. destruct (String.eqb_spec t x) as [-> | _]; cbn [orb];
      [| reflexivity].
    destruct (String.eqb_spec x topic); [congruence | reflexivity].
Qed.

(** An input that takes the topic [t] from [ws], or closes [ws]. *)
Definition undoes (ws : nat) (t : string) (i : Input) : bool :=
  match i with
  | WsClosing w | WsClose w => Nat.eqb w ws
  | WsUnsubscribe w data =>
      Nat.eqb w ws
      && match topicOf data with
         | Some topic => (topic =? t)%string
         | None => false
         end
  | _ => false
  end.

(** An input that subscribes [ws] to [t]. *)
Definition resubscribes (ws : nat) (t : string) (i : Input) : bool :=
  match i with
  | WsSubscribe w data =>
      Nat.eqb w ws
      && match topicOf data with
         | Some topic => (topic =? t)%string
         | None => false
         end
  | _ => false
  end.

(** The socket [ws] is connected, open and subscribed to [t]. *)
Definition Listening (ws : nat) (t : string) (s : Server) : Prop :=
  ws < nextUuid s
  /\ exists p, activeConnection s ws = Some p
               /\ isOpen p = true /\ subscribed t p = true.

Lemma Listening_alike ws t s s' :
  nextUuid s <= nextUuid s' ->
  Alike (activeConnection s ws) (activeConnection s' ws) ->
  Listening ws t s -> Listening ws t s'.
Proof.
  intros Hn Ha [Hlt [p [Hp [Hopen Hsub]]]]. split; [lia |].
  rewrite Hp in Ha. destruct (activeConnection s' ws) as [p' |]; [| elim Ha].
  destruct Ha as [Ho Hs]. exists p'. split; [reflexivity |].
  split; [congruence |]. unfold subscribed in *. now rewrite Hs.
Qed.

Lemma Listening_step env i ws t s :
  Listening ws t s -> undoes ws t i = false -> Listening ws t (step env i s).
Proof.
  intros Hl Hi.
  destruct (Keeps_step env i s) as [_ [Hnext _]].
  destruct (concerns i) eqn:Hc;
    [| apply (Listening_alike ws t s);
       [exact Hnext | now apply Alike_step | exact Hl]].
  destruct Hl as [Hlt [p [Hp [Hopen Hsub]]]].
  split; [lia |].
  destruct i as [hv req | sid last acc r0 st w now | sid r0 | sid r0 now
                | sid | sid now rid result | sid now rid error | now
                | eventName d w | r0 | | ws' | ws' | ws' msg | ws' msg
                | ws' rid result | ws' rid error | serverId params w | rid];
    try discriminate; cbn [step undoes] in *.
  - rewrite activeConnection_onWsConnection by lia. eauto.
  - unfold onWsClosing. rewrite activeConnection_mutatePeer, Hp, Hi. eauto.
  - rewrite activeConnection_onWsClose.
    destruct (Nat.eqb_spec ws ws') as [-> | _];
      [now rewrite Nat.eqb_refl in Hi | eauto].
  - unfold handleSubscribeMessage.
    destruct (activeConnection s ws') as [p' |]; [| eauto].
    destruct (topicOf msg) as [topic |]; [| eauto].
    rewrite activeConnection_mutatePeer, Hp.
    destruct (Nat.eqb ws' ws); [| eauto].
    eexists. split; [reflexivity |]. split; [exact Hopen |].
    now rewrite subscribed_addTopic, Hsub.
  - unfold handleUnsubscribeMessage.
    destruct (activeConnection s ws') as [p' |]; [| eauto].
    destruct (topicOf msg) as [topic |]; [| eauto].
    rewrite activeConnection_mutatePeer, Hp.
    destruct (Nat.eqb ws' ws); [| eauto].
    cbn [andb] in Hi.
    eexists. split; [reflexivity |]. split; [exact Hopen |].
    rewrite subscribed_removeTopic, Hsub.
    destruct (String.eqb_spec t topic) as [-> | _];
      [now rewrite String.eqb_refl in Hi | reflexivity].
Qed.

Lemma hasTopic_alike ws t s s' :
  Alike (activeConnection s ws) (activeConnection s' ws) ->
  hasTopic ws t s' = hasTopic ws t s.
Proof.
  unfold hasTopic. intros Ha.
  destruct (activeConnection s ws) as [p |],
           (activeConnection s' ws) as [p' |]; simpl in Ha;
    try contradiction; [| reflexivity].
  destruct Ha as [_ Hs]. unfold subscribed. now rewrite Hs.
Qed.

Lemma hasTopic_step env i ws t s :
  hasTopic ws t s = false -> resubscribes ws t i = false ->
  hasTopic ws t (step env i s) = false.
Proof.
  intros Hno Hi.
  destruct (concerns i) eqn:Hc;
    [| now rewrite (hasTopic_alike ws t s) by (now apply Alike_step)].
  unfold hasTopic in *.
  destruct i as [hv req | sid last acc r0 st w now | sid r0 | sid r0 now
                | sid | sid now rid result | sid now rid error | now
                | eventName d w | r0 | | ws' | ws' | ws' msg | ws' msg
                | ws' rid result | ws' rid error | serverId params w | rid];
    try discriminate; cbn [step resubscribes] in *.
  - destruct (Nat.eq_dec ws (nextUuid s)) as [-> | Hne].
    + now rewrite activeConnection_new.
    + now rewrite activeConnection_onWsConnection.
  - unfold onWsClosing. rewrite activeConnection_mutatePeer.
    destruct (activeConnection s ws) as [p |]; [| reflexivity].
    now destruct (Nat.eqb ws' ws).
  - rewrite activeConnection_onWsClose. now destruct (Nat.eqb ws ws').
  - unfold handleSubscribeMessage.
    destruct (activeConnection s ws') as [p' |]; [| exact Hno].
    destruct (topicOf msg) as [topic |]; [| exact Hno].
    rewrite activeConnection_mutatePeer.
    destruct (activeConnection s ws) as [p |]; [| reflexivity].
    destruct (Nat.eqb ws' ws); [| exact Hno]. cbn [andb] in Hi.
    rewrite subscribed_addTopic, Hno. cbn [orb].
    destruct (String.eqb_spec t topic) as [-> | _];
      [now rewrite String.eqb_refl in Hi | reflexivity].
  - unfold handleUnsubscribeMessage.
    destruct (activeConnection s ws') as [p' |]; [| exact Hno].
    destruct (topicOf msg) as [topic |]; [| exact Hno].
    rewrite activeConnection_mutatePeer.
    destruct (activeConnection s ws) as [p |]; [| reflexivity].
    destruct (Nat.eqb ws' ws); [| exact Hno].
    now rewrite subscribed_removeTopic, Hno.
Qed.

Lemma Listening_run env more ws t s :
  Listening ws t s -> Forall (fun i => undoes ws t i = false) more ->
  Listening ws t (run env more s).
Proof.
  unfold run. revert s.
  induction more as [| i rest IH]; intros s Hl Hall; [exact Hl |].
  inversion Hall as [| ? ? Hi Hrest]; subst. cbn [fold_left].
  apply IH; [| exact Hrest]. now apply Listening_step.
Qed.

Lemma hasTopic_run env more ws t s :
  hasTopic ws t s = false ->
  Forall (fun i => resubscribes ws t i = false) more ->
  hasTopic ws t (run env more s) = false.
Proof.
  unfold run. revert s.
  induction more as [| i rest IH]; intros s Hno Hall; [exact Hno |].
  inversion Hall as [| ? ? Hi Hrest]; subst. cbn [fold_left].
  apply IH; [| exact Hrest]. now apply hasTopic_step.
Qed.

(** The topics that make a socket a recipient of the update of [uri]
    on [serverId]. *)
Definition covers (t serverId uri : string) : bool :=
  (t =? "resources")%string
  || (t =? "resource:" ++ uri)%string
  || (t =? "server:" ++ serverId)%string.

Lemma recipients_iff serverId uri ws s :
  In ws (resourceUpdatedRecipients serverId uri s)
  <-> exists p, activeConnection s ws = Some p
                /\ wantsResource serverId uri p = true /\ isOpen p = true.
Proof.
  unfold resourceUpdatedRecipients, activeConnection.
  rewrite filter_In, <- isActive_In.
  destruct (isActive ws (activeConnections s)).
  - destruct (JsMap.get ws (peers s)) as [p |].
    + split.
      * intros [_ H]. apply andb_true_iff in H. eauto.
      * intros [p' [[= <-] [H1 H2]]]. split; [reflexivity |].
        now rewrite H1, H2.
    + split; [intros [_ H]; discriminate | intros [p' [H _]]; discriminate].
  - split; [intros [H _]; discriminate | intros [p' [H _]]; discriminate].
Qed.

(** X23.  On every run, a connected and open WebSocket that
    subscribes to a topic is sent every ["resource_updated"] message
    the topic covers (["resources"], ["resource:<uri>"] or
    ["server:<serverId>"]) for as long as it neither unsubscribes from
    that topic nor closes, whatever else happens.  After it
    unsubscribed from a topic it is not subscribed to it until it
    subscribes to it again; and a socket that is sent the update of
    [uri] on [serverId] is connected and subscribed to one of the
    three topics. *)
Theorem subscriptions_follow_the_messages (env : Env)
        (inputs more : list Input) (ws : nat) (data : Js.value)
        (t : string) :
  let s0 := run env inputs initial in
  topicOf data = Some t ->
  (forall p serverId uri,
     activeConnection s0 ws = Some p -> isOpen p = true ->
     Forall (fun i => undoes ws t i = false) more ->
     covers t serverId uri = true ->
     In ws (resourceUpdatedRecipients serverId uri
              (run env more (step env (WsSubscribe ws data) s0))))
  /\ (Forall (fun i => resubscribes ws t i = false) more ->
      hasTopic ws t (run env more (step env (WsUnsubscribe ws data) s0))
      = false)
  /\ (forall s serverId uri,
        In ws (resourceUpdatedRecipients serverId uri s) ->
        hasTopic ws "resources" s
        || hasTopic ws ("resource:" ++ uri) s
        || hasTopic ws ("server:" ++ serverId) s = true).
Proof.
  intros s0 Htopic. split; [| split].
  - intros p serverId uri Hp Hopen Hmore Hcov.
    pose proof (reachable_active env inputs) as [_ [_ [_ Hbound]]].
    fold s0 in Hbound.
    assert (Hin : In ws (activeConnections s0)).
    { apply isActive_In. unfold activeConnection in Hp.
      destruct (isActive ws (activeConnections s0));
        [reflexivity | discriminate]. }
    assert (Hl : Listening ws t (step env (WsSubscribe ws data) s0)).
    { cbn [step]. unfold handleSubscribeMessage. rewrite Hp, Htopic.
      split; [exact (Hbound ws Hin) |].
      rewrite activeConnection_mutatePeer, Hp, Nat.eqb_refl.
      eexists. split; [reflexivity |]. split; [exact Hopen |].
      rewrite subscribed_addTopic, String.eqb_refl. apply orb_true_r. }
    destruct (Listening_run env more ws t _ Hl Hmore)
      as [_ [p' [Hp' [Hopen' Hsub']]]].
    apply recipients_iff. exists p'. split; [exact Hp' |].
    split; [| exact Hopen'].
    unfold wantsResource. unfold covers in Hcov.
    apply orb_true_iff in Hcov. destruct Hcov as [Hcov | Hcov];
      [apply orb_true_iff in Hcov; destruct Hcov as [Hcov | Hcov] |];
      apply String.eqb_eq in Hcov; subst t; rewrite Hsub';
      now rewrite ?orb_true_r.
  - intros Hmore. apply hasTopic_run; [| exact Hmore].
    cbn [step]. unfold hasTopic, handleUnsubscribeMessage.
    destruct (activeConnection s0 ws) as [p |] eqn:Hp;
      [| now rewrite Hp].
    rewrite Htopic, activeConnection_mutatePeer, Hp, Nat.eqb_refl.
    rewrite subscribed_removeTopic, String.eqb_refl. apply andb_false_r.
  - intros s serverId uri Hin. apply recipients_iff in Hin.
    destruct Hin as [p [Hp [Hwants _]]]. unfold hasTopic. now rewrite Hp.
Qed.

Lemma subscriptions_follow_the_messages_witness :
  In 0 (resourceUpdatedRecipients "fs" "file:///a"
          (run BrokerRuns.defaultEnv
               [WsUnsubscribe 0 (Js.Obj [("topic", Js.Str "resources")]);
                SamplingRequest "srv" Js.Null false]
               (step BrokerRuns.defaultEnv
                     (WsSubscribe 0 (Js.Obj [("topic", Js.Str "server:fs")]))
                     (run BrokerRuns.defaultEnv [WsConnection] initial)))).
Proof.
  refine (proj1
            (subscriptions_follow_the_messages BrokerRuns.defaultEnv
               [WsConnection]
               [WsUnsubscribe 0 (Js.Obj [("topic", Js.Str "resources")]);
                SamplingRequest "srv" Js.Null false]
               0 (Js.Obj [("topic", Js.Str "server:fs")]) "server:fs" _)
            (newPeer 0) "fs" "file:///a" _ _ _ _).
  - reflexivity.
  - reflexivity.
  - reflexivity.
  - repeat constructor.
  - reflexivity.
Defined.

End SubscriptionFacts.
